(** * Resilient data-access layer of the fantasy-football service

  A shallow embedding of the rate limiter, the retry executor, the cached
  fetch operations and the player transformation of
  [src/agents/data_fetcher.py], and of the background token manager of
  [src/agents/auto_token_manager.py], with the properties of the
  specification stated and proved over them.

  Conventions.  Instants ([datetime]) and durations ([timedelta]) are
  integers counting microseconds, the resolution Python keeps them at.
  Python floats are kept abstract (class [PyFloat]): no rounding behaviour
  is assumed of them.  Reads of the wall clock and answers of the external
  provider are inputs of the model, indexed by the number of reads and
  calls made so far. *)

From Stdlib Require Import ZArith QArith Lia Ascii.
From stdpp Require Import gmap strings list pretty sorting.

#[export] Set Warnings "-clear-no-such-hyp".

Close Scope Q_scope.
Open Scope Z_scope.

(** ** Python floats, left abstract *)

Class PyFloat := {
  float : Type;
  (** [x ** n] for an integer exponent: [None] where Python raises
      [OverflowError], the result being out of range *)
  float_pow : float -> Z -> option float;
  (** [float(n)] *)
  float_of_Z : Z -> float;
  (** [float(s)]: [None] where Python raises [ValueError] *)
  float_of_str : string -> option float;
  (** [str(x)] *)
  float_str : float -> string;
  (** [bool(x)] *)
  float_truthy : float -> bool
}.

(** ** Time *)

Module Clock.

(** [timedelta(seconds=s)], [timedelta(minutes=m)], [timedelta(hours=h)] *)
Definition seconds (s : Z) : Z := s * 1000000.
Definition minutes (m : Z) : Z := seconds (m * 60).
Definition hours (h : Z) : Z := minutes (h * 60).

End Clock.

(** ** The rate limiter: [RateLimitTracker] *)

Module RateLimit.

Record RateLimitTracker := {
  requests_per_window : Z;
  window_seconds : Z;
  requests_made : Z;
  window_start : Z
}.

(** The test [now - self.window_start > timedelta(seconds=self.window_seconds)] *)
Definition window_expired (now : Z) (t : RateLimitTracker) : bool :=
  Clock.seconds (window_seconds t) <? now - window_start t.

(** The assignments [self.requests_made = 0; self.window_start = now] *)
Definition reset_window (now : Z) (t : RateLimitTracker) : RateLimitTracker :=
  {| requests_per_window := requests_per_window t;
     window_seconds := window_seconds t;
     requests_made := 0;
     window_start := now |}.

Definition can_make_request (now : Z) (t : RateLimitTracker)
  : bool * RateLimitTracker :=
  let t' := if window_expired now t then reset_window now t else t in
  (requests_made t' <? requests_per_window t', t').

Definition record_request (t : RateLimitTracker) : RateLimitTracker :=
  {| requests_per_window := requests_per_window t;
     window_seconds := window_seconds t;
     requests_made := requests_made t + 1;
     window_start := window_start t |}.

Definition time_until_reset (now : Z) (t : RateLimitTracker) : Z :=
  let window_end := window_start t + Clock.seconds (window_seconds t) in
  let remaining := window_end - now in
  if 0 <? remaining then remaining else 0.

(** *** Sequences of calls on one tracker *)

Inductive call :=
| CanMakeRequest (now : Z)
| RecordRequest
| TimeUntilReset (now : Z).

Inductive reply :=
| RBool (b : bool)
| RUnit
| RDelta (us : Z).

Definition step (t : RateLimitTracker) (c : call) : reply * RateLimitTracker :=
  match c with
  | CanMakeRequest now =>
      let '(b, t') := can_make_request now t in (RBool b, t')
  | RecordRequest => (RUnit, record_request t)
  | TimeUntilReset now => (RDelta (time_until_reset now t), t)
  end.

(** One entry of the history of a run: the tracker before the call, the
    call, its reply and the tracker after it. *)
Record entry := {
  e_pre : RateLimitTracker;
  e_call : call;
  e_reply : reply;
  e_post : RateLimitTracker
}.

Fixpoint run (t : RateLimitTracker) (cs : list call) : list entry :=
  match cs with
  | [] => []
  | c :: cs' =>
      let '(r, t') := step t c in
      {| e_pre := t; e_call := c; e_reply := r; e_post := t' |} :: run t' cs'
  end.

(** What the specification asks of a single call. *)
Definition entry_ok (e : entry) : Prop :=
  match e_call e with
  | CanMakeRequest now =>
      (e_reply e = RBool true ->
         requests_made (e_post e) < requests_per_window (e_post e))
      /\ (now - window_start (e_pre e) > Clock.seconds (window_seconds (e_pre e)) ->
            e_post e = reset_window now (e_pre e)
            /\ requests_made (e_post e) = 0 /\ window_start (e_post e) = now)
      /\ (~ now - window_start (e_pre e) > Clock.seconds (window_seconds (e_pre e)) ->
            e_post e = e_pre e)
  | RecordRequest =>
      requests_made (e_post e) = requests_made (e_pre e) + 1
      /\ window_start (e_post e) = window_start (e_pre e)
  | TimeUntilReset _ => e_post e = e_pre e
  end.

Lemma window_expired_spec now t :
  window_expired now t = true
  <-> now - window_start t > Clock.seconds (window_seconds t).
Proof. unfold window_expired. rewrite Z.ltb_lt. lia. Qed.

Lemma step_entry_ok t c :
  entry_ok {| e_pre := t; e_call := c;
              e_reply := fst (step t c); e_post := snd (step t c) |}.
Proof.
  destruct c as [now| |now]; unfold entry_ok; cbn.
  - pose proof (window_expired_spec now t) as Hexp.
    destruct (window_expired now t); cbn.
    + split; [|split].
      * intros [= Hlt]. apply Z.ltb_lt in Hlt. exact Hlt.
      * intros _. repeat split.
      * intros Hno. exfalso. apply Hno. apply Hexp. reflexivity.
    + split; [|split].
      * intros [= Hlt]. apply Z.ltb_lt in Hlt. exact Hlt.
      * intros Hyes. apply Hexp in Hyes. discriminate.
      * intros _. reflexivity.
  - split; reflexivity.
  - reflexivity.
Qed.

(** The entries of a history follow one another: each starts from the
    tracker the one before it left. *)
Fixpoint linked (t : RateLimitTracker) (h : list entry) : Prop :=
  match h with
  | [] => True
  | e :: h' => e_pre e = t /\ linked (e_post e) h'
  end.

Lemma run_linked cs : forall t, linked t (run t cs) /\ e_call <$> run t cs = cs.
Proof.
  induction cs as [|c cs IH]; intros t; cbn; [done|].
  destruct (step t c) as [r t'] eqn:Hs. cbn.
  destruct (IH t') as [Hl Hc]. by rewrite Hc.
Qed.

(** C4: along every sequence of [can_make_request], [record_request] and
    [time_until_reset] calls, an admission that answers true leaves the
    count strictly below the capacity, the window is reset (count 0, start
    now) by a check exactly when [now - window_start] exceeds the window
    duration, and no other call touches the window start. *)
Theorem rate_window_invariant (t : RateLimitTracker) (cs : list call) :
  Forall entry_ok (run t cs)
  /\ linked t (run t cs)
  /\ e_call <$> run t cs = cs.
Proof.
  split; [|apply run_linked].
  revert t. induction cs as [|c cs IH]; intros t; cbn.
  - constructor.
  - pose proof (step_entry_ok t c) as Hc.
    destruct (step t c) as [r t'] eqn:Hs. cbn in Hc.
    constructor; [exact Hc | apply IH].
Qed.

(** *** Further facts about the tracker *)

(** The end of the current window. *)
Definition window_end (t : RateLimitTracker) : Z :=
  window_start t + Clock.seconds (window_seconds t).

(** A tracker at its capacity admits again only strictly after the end of
    its window, while [time_until_reset] is already zero at the end itself:
    at that very instant the wait is over and admission is still denied. *)
Theorem full_tracker_boundary (t : RateLimitTracker) (now : Z) :
  0 < requests_per_window t ->
  requests_per_window t <= requests_made t ->
  (fst (can_make_request now t) = true <-> window_end t < now)
  /\ (time_until_reset now t = 0 <-> window_end t <= now)
  /\ 0 <= time_until_reset now t
  /\ (now < window_end t -> now + time_until_reset now t = window_end t)
  /\ (now = window_end t ->
      time_until_reset now t = 0 /\ fst (can_make_request now t) = false).
Proof.
  intros Hcap Hfull. unfold can_make_request, time_until_reset, window_end.
  pose proof (window_expired_spec now t) as Hexp.
  unfold Clock.seconds in *.
  destruct (window_expired now t) eqn:He; cbn [fst].
  - assert (now - window_start t > window_seconds t * 1000000) by (by apply Hexp).
    cbn [requests_made requests_per_window reset_window].
    destruct (0 <? window_start t + window_seconds t * 1000000 - now) eqn:Hr.
    + apply Z.ltb_lt in Hr. lia.
    + repeat split; try lia; try (intros; apply Z.ltb_lt; lia).
  - assert (~ now - window_start t > window_seconds t * 1000000).
    { intros Hgt. apply Hexp in Hgt. discriminate. }
    assert (Hden : (requests_made t <? requests_per_window t) = false)
      by (apply Z.ltb_ge; lia).
    rewrite Hden.
    destruct (0 <? window_start t + window_seconds t * 1000000 - now) eqn:Hr.
    + apply Z.ltb_lt in Hr. repeat split; try lia; try discriminate.
    + apply Z.ltb_ge in Hr. repeat split; try lia; try discriminate.
Qed.

Definition full_sample : RateLimitTracker :=
  {| requests_per_window := 2; window_seconds := 3600;
     requests_made := 2; window_start := 0 |}.

Lemma full_tracker_boundary_witness :
  (fst (can_make_request 3600000000 full_sample) = true
   <-> window_end full_sample < 3600000000)
  /\ (time_until_reset 3600000000 full_sample = 0
      <-> window_end full_sample <= 3600000000)
  /\ 0 <= time_until_reset 3600000000 full_sample
  /\ (3600000000 < window_end full_sample ->
      3600000000 + time_until_reset 3600000000 full_sample = window_end full_sample)
  /\ (3600000000 = window_end full_sample ->
      time_until_reset 3600000000 full_sample = 0
      /\ fst (can_make_request 3600000000 full_sample) = false).
Proof.
  apply (full_tracker_boundary full_sample 3600000000); vm_compute; congruence.
Defined.

(** Requests made under the tracker's discipline: at each instant ask for
    admission, and record a request only when it was granted. *)
Fixpoint guarded_run (t : RateLimitTracker) (nows : list Z)
  : list bool * RateLimitTracker :=
  match nows with
  | [] => ([], t)
  | now :: rest =>
      let '(granted, t1) := can_make_request now t in
      let t2 := if granted then record_request t1 else t1 in
      let '(grants, t3) := guarded_run t2 rest in
      (granted :: grants, t3)
  end.

Definition grants_in (grants : list bool) : Z :=
  Z.of_nat (length (List.filter id grants)).

(** Under that discipline the count never passes the capacity, whatever the
    instants of the calls, and the capacity and window length never change. *)
Theorem guarded_run_within_capacity (t : RateLimitTracker) (nows : list Z) :
  0 <= requests_per_window t ->
  requests_made t <= requests_per_window t ->
  let t' := snd (guarded_run t nows) in
  requests_made t' <= requests_per_window t'
  /\ requests_per_window t' = requests_per_window t
  /\ window_seconds t' = window_seconds t.
Proof.
  revert t. induction nows as [|now rest IH]; intros t Hcap Hinv; cbn.
  - by repeat split.
  - unfold can_make_request.
    set (t1 := if window_expired now t then reset_window now t else t).
    assert (H1 : requests_per_window t1 = requests_per_window t
                 /\ window_seconds t1 = window_seconds t
                 /\ requests_made t1 <= requests_per_window t1).
    { subst t1. destruct (window_expired now t); cbn; repeat split; lia. }
    destruct H1 as (Hc1 & Hw1 & Hi1).
    destruct (requests_made t1 <? requests_per_window t1) eqn:Hlt.
    + apply Z.ltb_lt in Hlt.
      specialize (IH (record_request t1)). cbn in IH.
      destruct (guarded_run (record_request t1) rest) as [grants t3]. cbn in *.
      destruct IH as (? & ? & ?); [lia | lia |]. repeat split; congruence.
    + specialize (IH t1).
      destruct (guarded_run t1 rest) as [grants t3]. cbn in *.
      destruct IH as (? & ? & ?); [lia | lia |]. repeat split; congruence.
Qed.

Lemma guarded_run_witness :
  let t' := snd (guarded_run full_sample [1; 2; 3600000001; 3600000002; 3600000003]) in
  requests_made t' <= requests_per_window t'
  /\ requests_per_window t' = requests_per_window full_sample
  /\ window_seconds t' = window_seconds full_sample.
Proof.
  apply (guarded_run_within_capacity full_sample
           [1; 2; 3600000001; 3600000002; 3600000003]); vm_compute; congruence.
Defined.

(** While no call falls after the end of the window, at most the room left
    in the window is granted, and the window start does not move. *)
Theorem one_window_grants_at_most_capacity (t : RateLimitTracker) (nows : list Z) :
  Forall (fun now => now <= window_end t) nows ->
  requests_made t <= requests_per_window t ->
  let run := guarded_run t nows in
  grants_in (fst run) <= requests_per_window t - requests_made t
  /\ requests_made (snd run) = requests_made t + grants_in (fst run)
  /\ window_start (snd run) = window_start t.
Proof.
  revert t. induction nows as [|now rest IH]; intros t Hall Hinv; cbn.
  - unfold grants_in. cbn. lia.
  - apply Forall_cons in Hall as [Hnow Hrest].
    unfold can_make_request.
    assert (He : window_expired now t = false).
    { destruct (window_expired now t) eqn:He; [|done].
      apply window_expired_spec in He. unfold window_end in Hnow. lia. }
    rewrite He.
    destruct (requests_made t <? requests_per_window t) eqn:Hlt.
    + apply Z.ltb_lt in Hlt.
      specialize (IH (record_request t)).
      destruct (guarded_run (record_request t) rest) as [grants t3].
      cbn in IH |- *. destruct IH as (? & ? & ?); [done | lia |].
      unfold grants_in in *. cbn. lia.
    + apply Z.ltb_ge in Hlt.
      specialize (IH t).
      destruct (guarded_run t rest) as [grants t3].
      cbn in IH |- *. destruct IH as (? & ? & ?); [done | lia |].
      unfold grants_in in *. cbn. lia.
Qed.

Definition open_sample : RateLimitTracker :=
  {| requests_per_window := 2; window_seconds := 3600;
     requests_made := 0; window_start := 0 |}.

Lemma one_window_witness :
  let run := guarded_run open_sample [1; 2; 3; 4] in
  grants_in (fst run) <= requests_per_window open_sample - requests_made open_sample
  /\ requests_made (snd run) = requests_made open_sample + grants_in (fst run)
  /\ window_start (snd run) = window_start open_sample.
Proof.
  apply (one_window_grants_at_most_capacity open_sample [1; 2; 3; 4]).
  - repeat constructor; vm_compute; congruence.
  - vm_compute; congruence.
Defined.

End RateLimit.

(** ** Strings: the methods of [str] the code calls, on ASCII text *)

Module Str.

Definition is_upper (c : ascii) : bool :=
  let n := N_of_ascii c in ((65 <=? n) && (n <=? 90))%N.

Definition lower_char (c : ascii) : ascii :=
  if is_upper c then ascii_of_N (N_of_ascii c + 32) else c.

(** [s.lower()] *)
Fixpoint lower (s : string) : string :=
  match s with
  | EmptyString => EmptyString
  | String c s' => String (lower_char c) (lower s')
  end.

Fixpoint starts_with (p s : string) : bool :=
  match p, s with
  | EmptyString, _ => true
  | String a p', String b s' => if decide (a = b) then starts_with p' s' else false
  | String _ _, EmptyString => false
  end.

(** [needle in hay] *)
Fixpoint contains (needle hay : string) : bool :=
  starts_with needle hay
  || match hay with
     | EmptyString => false
     | String _ hay' => contains needle hay'
     end.

Definition is_space (c : ascii) : bool :=
  let n := N_of_ascii c in
  (((9 <=? n) && (n <=? 13)) || ((28 <=? n) && (n <=? 32)))%N.

Fixpoint lstrip (s : string) : string :=
  match s with
  | EmptyString => EmptyString
  | String c s' => if is_space c then lstrip s' else s
  end.

(** [s.strip()] *)
Definition strip (s : string) : string :=
  String.rev (lstrip (String.rev (lstrip s))).

Definition is_digit (c : ascii) : bool :=
  let n := N_of_ascii c in ((48 <=? n) && (n <=? 57))%N.

Fixpoint all_digits (s : string) : bool :=
  match s with
  | EmptyString => true
  | String c s' => is_digit c && all_digits s'
  end.

(** [s.isdigit()] *)
Definition isdigit (s : string) : bool :=
  match s with
  | EmptyString => false
  | _ => all_digits s
  end.

(** [s.replace('.', '', 1)] *)
Fixpoint remove_first_dot (s : string) : string :=
  match s with
  | EmptyString => EmptyString
  | String c s' => if decide (c = "."%char) then s' else String c (remove_first_dot s')
  end.

Fixpoint has_dot (s : string) : bool :=
  match s with
  | EmptyString => false
  | String c s' => if decide (c = "."%char) then true else has_dot s'
  end.

(** [s.split('.')[-1]] *)
Fixpoint last_segment (s : string) : string :=
  match s with
  | EmptyString => EmptyString
  | String c s' =>
      if has_dot s' then last_segment s'
      else if decide (c = "."%char) then s' else s
  end.

(** The characters of a string, each as a string of length one. *)
Fixpoint chars (s : string) : list string :=
  match s with
  | EmptyString => []
  | String c s' => String c EmptyString :: chars s'
  end.

(** The byte values of a byte string. *)
Fixpoint codes (s : string) : list Z :=
  match s with
  | EmptyString => []
  | String c s' => Z.of_N (N_of_ascii c) :: codes s'
  end.

End Str.

(** ** Python values, exceptions and the operations the code applies to them *)

Module Py.

Inductive exn_class :=
| ClientError
| TimeoutError
| RateLimitError
| AuthenticationError
| AttributeError
| TypeError
| ValueError
| KeyError
| IndexError
| OverflowError
| OtherException.

(** An exception: its class and [str(e)]. *)
Record exn := { exn_kind : exn_class; exn_msg : string }.

(** The outcome of a call: a value, or a raised exception. *)
Inductive result (A : Type) :=
| Ok (a : A)
| Raise (e : exn).
Arguments Ok {A} a.
Arguments Raise {A} e.

Definition rbind {A B} (r : result A) (k : A -> result B) : result B :=
  match r with
  | Ok a => k a
  | Raise e => Raise e
  end.

Definition is_ok {A} (r : result A) : bool :=
  match r with Ok _ => true | Raise _ => false end.

Section Values.
Context {FL : PyFloat}.

(** The values the provider hands back and the code builds.  A [VDict] lists
    the item assignments that built the dict, oldest first: a lookup takes
    the latest assignment to the key.  A [VObj] is an object with data
    attributes; it has no other attribute. *)
#[warnings="-register-all"]
Inductive pyval :=
| VNone
| VBool (b : bool)
| VInt (n : Z)
| VFloat (x : float)
| VStr (s : string)
| VBytes (s : string)
| VList (items : list pyval)
| VDict (entries : list (pyval * pyval))
| VObj (attrs : list (string * pyval)).

(** [bool(v)] *)
Definition truthy (v : pyval) : bool :=
  match v with
  | VNone => false
  | VBool b => b
  | VInt n => negb (n =? 0)
  | VFloat x => float_truthy x
  | VStr s => negb (String.eqb s EmptyString)
  | VBytes s => negb (String.eqb s EmptyString)
  | VList items => match items with [] => false | _ => true end
  | VDict entries => match entries with [] => false | _ => true end
  | VObj _ => true
  end.

(** [a or b] *)
Definition py_or (a b : pyval) : pyval := if truthy a then a else b.

Definition is_none (v : pyval) : bool :=
  match v with VNone => true | _ => false end.

Fixpoint assoc (name : string) (attrs : list (string * pyval)) : option pyval :=
  match attrs with
  | [] => None
  | (n, v) :: rest => if String.eqb n name then Some v else assoc name rest
  end.

(** [getattr(o, name, default)] *)
Definition getattr (o : pyval) (name : string) (default : pyval) : pyval :=
  match o with
  | VObj attrs => from_option id default (assoc name attrs)
  | _ => default
  end.

(** [hasattr(o, name)] *)
Definition hasattr (o : pyval) (name : string) : bool :=
  match o with
  | VObj attrs => bool_decide (is_Some (assoc name attrs))
  | _ => false
  end.

(** [o.name]: [AttributeError] when the attribute is missing. *)
Definition attr (o : pyval) (name : string) : result pyval :=
  match o with
  | VObj attrs =>
      match assoc name attrs with
      | Some v => Ok v
      | None => Raise {| exn_kind := AttributeError; exn_msg := name |}
      end
  | _ => Raise {| exn_kind := AttributeError; exn_msg := name |}
  end.

Definition key_is (k : string) (key : pyval) : bool :=
  match key with
  | VStr s => String.eqb s k
  | _ => false
  end.

(** The value a dict holds under a string key, if any. *)
Fixpoint dict_lookup (k : string) (entries : list (pyval * pyval)) : option pyval :=
  match entries with
  | [] => None
  | (key, v) :: rest =>
      match dict_lookup k rest with
      | Some v' => Some v'
      | None => if key_is k key then Some v else None
      end
  end.

(** [d[k] = v] *)
Definition dict_set (entries : list (pyval * pyval)) (k : string) (v : pyval)
  : list (pyval * pyval) :=
  entries ++ [(VStr k, v)].

(** [k in d] *)
Definition has_key (entries : list (pyval * pyval)) (k : string) : bool :=
  bool_decide (is_Some (dict_lookup k entries)).

(** [d.get(k)]: [None] for a missing key, [AttributeError] when [d] has no
    [get] method. *)
Definition py_get (d : pyval) (k : string) : result pyval :=
  match d with
  | VDict entries => Ok (from_option id VNone (dict_lookup k entries))
  | _ => Raise {| exn_kind := AttributeError; exn_msg := "get" |}
  end.

Definition is_list (v : pyval) : bool :=
  match v with VList _ => true | _ => false end.

(** The items [for x in v] runs over: [TypeError] when [v] is not iterable.
    A provider dict is taken to list each key once. *)
Definition py_iter (v : pyval) : result (list pyval) :=
  match v with
  | VList items => Ok items
  | VStr s => Ok (VStr <$> Str.chars s)
  | VBytes s => Ok (VInt <$> Str.codes s)
  | VDict entries => Ok (fst <$> entries)
  | _ => Raise {| exn_kind := TypeError; exn_msg := "object is not iterable" |}
  end.

(** [v is True] *)
Definition is_True (v : pyval) : bool :=
  match v with VBool true => true | _ => false end.

(** [v == s] for a string [s] *)
Definition eq_str (v : pyval) (s : string) : bool := key_is s v.

End Values.
End Py.

(** ** A concrete runtime to evaluate the model on

    Floats read as exact rationals, printed in decimal, and a cache that is
    a finite map which never expires.  Used for the worked runs only. *)

Module Sample.

Definition digit_char (d : Z) : ascii := ascii_of_N (48 + Z.to_N d).

Fixpoint frac_digits (fuel : nat) (r d : Z) : string :=
  match fuel with
  | O => EmptyString
  | S fuel' =>
      if r =? 0 then EmptyString
      else String (digit_char (r * 10 / d)) (frac_digits fuel' ((r * 10) mod d) d)
  end.

Definition q_str (q : Q) : string :=
  let n := Z.abs (Qnum q) in
  let d := Zpos (Qden q) in
  let f := frac_digits 17 (n mod d) d in
  (if Qnum q <? 0 then "-" else EmptyString)
  +:+ pretty (n / d) +:+ "."
  +:+ (if String.eqb f EmptyString then "0" else f).

Fixpoint digits_value (acc : Z) (s : string) : Z :=
  match s with
  | EmptyString => acc
  | String c s' => digits_value (acc * 10 + (Z.of_N (N_of_ascii c) - 48)) s'
  end.

Fixpoint after_dot (s : string) : string :=
  match s with
  | EmptyString => EmptyString
  | String c s' => if decide (c = "."%char) then s' else after_dot s'
  end.

(** Decimal literals without sign or exponent only. *)
Definition q_of_str (s : string) : option Q :=
  if Str.isdigit (Str.remove_first_dot s)
  then Some (Qred (Qmake (digits_value 0 (Str.remove_first_dot s))
                         (Z.to_pos (10 ^ Z.of_nat (String.length (after_dot s))))))
  else None.

#[export] Instance QFloat : PyFloat := {|
  float := Q;
  float_pow := fun q n => Some (Qpower q n);
  float_of_Z := inject_Z;
  float_of_str := q_of_str;
  float_str := q_str;
  float_truthy := fun q => negb (Qnum q =? 0)
|}.

End Sample.

(** ** The fetcher: [DataFetcherAgent] *)

Module Fetcher.
Import Py RateLimit.

(** [APIEndpoint] *)
Inductive APIEndpoint :=
| USER_LEAGUES
| LEAGUE_INFO
| LEAGUE_TEAMS
| TEAM_ROSTER
| TEAM_MATCHUP
| PLAYER_INFO
| AVAILABLE_PLAYERS
| INJURY_REPORT
| LEAGUE_STANDINGS
| LEAGUE_TRANSACTIONS.

(** The cache manager, an external collaborator: [get] answers [None] on a
    miss, and both operations may change the cache's own state. *)
Class CachePort `{FL : PyFloat} := {
  cache_state : Type;
  cache_get : string -> cache_state -> pyval * cache_state;
  cache_set : string -> pyval -> Z -> list string -> cache_state -> cache_state
}.

Section Effects.
Context {FL : PyFloat} {CP : CachePort}.

(** [APIRequest] *)
Record APIRequest := {
  endpoint : APIEndpoint;
  params : list (string * pyval);
  attempt_field : Z;
  max_retries : Z;
  backoff_factor : float;
  timeout : Z
}.

(** What [asyncio.sleep] is asked to wait: microseconds where the code
    derives the wait from instants, float seconds for a backoff delay. *)
Inductive duration :=
| Micros (us : Z)
| FloatSeconds (x : float).

(** What a run does, in order. *)
Inductive event :=
| EvAcquire
| EvRelease
| EvCanMakeRequest (answer : bool)
| EvTimeUntilReset (us : Z)
| EvSleep (d : duration)
| EvExecute (ep : APIEndpoint)
| EvRecord
| EvWaitFor (timeout_seconds : Z).

(** The inputs of a run: what the clock shows at its n-th read, what the
    provider's client answers to its n-th call, how the n-th set-up of the
    client ends ([None] when it succeeds, else the text of the failure),
    [datetime.isoformat], the [YAHOO_GUID] variable of the environment, the
    setting [async_timeout_seconds] and, for a batch, after how many
    finished fetches its deadline passes (if it does). *)
Record env := {
  clock : nat -> Z;
  provider : nat -> result pyval;
  client_setup : nat -> option string;
  isoformat : Z -> string;
  YAHOO_GUID : option string;
  async_timeout_seconds : Z;
  deadline_after : option nat
}.

(** The state a run threads: the agent's tracker and cache, whether it has
    its client ([self._yahoo_client]) and how often it tried to set one up,
    how often the clock was read and the client called, and the events so
    far. *)
Record world := {
  rate_limiter : RateLimitTracker;
  cache : cache_state;
  yahoo_client : bool;
  client_setups : nat;
  clock_reads : nat;
  provider_calls : nat;
  trace : list event
}.

Definition M (A : Type) : Type := env -> world -> result A * world.

Definition ret {A} (a : A) : M A := fun _ w => (Ok a, w).

Definition bind {A B} (m : M A) (k : A -> M B) : M B :=
  fun e w =>
    match m e w with
    | (Ok a, w') => k a e w'
    | (Raise x, w') => (Raise x, w')
    end.

Definition raise {A} (x : exn) : M A := fun _ w => (Raise x, w).

(** [try: m  except Exception as x: h x] *)
Definition try_catch {A} (m : M A) (h : exn -> M A) : M A :=
  fun e w =>
    match m e w with
    | (Ok a, w') => (Ok a, w')
    | (Raise x, w') => h x e w'
    end.

(** [m] followed by [f] on every exit path, as [async with] releases. *)
Definition finally {A} (m : M A) (f : M unit) : M A :=
  fun e w =>
    let '(r, w') := m e w in
    let '(_, w'') := f e w' in
    (r, w'').

Definition lift {A} (r : result A) : M A := fun _ w => (r, w).

(** The inputs of the run. *)
Definition ask : M env := fun e w => (Ok e, w).

Definition emit (ev : event) : M unit :=
  fun _ w =>
    (Ok tt, {| rate_limiter := rate_limiter w; cache := cache w;
               yahoo_client := yahoo_client w; client_setups := client_setups w;
               clock_reads := clock_reads w; provider_calls := provider_calls w;
               trace := trace w ++ [ev] |}).

(** [datetime.utcnow()] *)
Definition utcnow : M Z :=
  fun e w =>
    (Ok (clock e (clock_reads w)),
     {| rate_limiter := rate_limiter w; cache := cache w;
        yahoo_client := yahoo_client w; client_setups := client_setups w;
        clock_reads := S (clock_reads w); provider_calls := provider_calls w;
        trace := trace w |}).

Definition set_rate_limiter (t : RateLimitTracker) : M unit :=
  fun _ w =>
    (Ok tt, {| rate_limiter := t; cache := cache w;
               yahoo_client := yahoo_client w; client_setups := client_setups w;
               clock_reads := clock_reads w; provider_calls := provider_calls w;
               trace := trace w |}).

Definition get_rate_limiter : M RateLimitTracker :=
  fun _ w => (Ok (rate_limiter w), w).

(** [if not self._yahoo_client: await self._initialize_yahoo_client()]:
    a client once set up stays; a set-up that fails raises
    [AuthenticationError] and leaves the agent without a client. *)
Definition ensure_client : M unit :=
  fun e w =>
    if yahoo_client w then (Ok tt, w)
    else
      match client_setup e (client_setups w) with
      | None =>
          (Ok tt,
           {| rate_limiter := rate_limiter w; cache := cache w;
              yahoo_client := true; client_setups := S (client_setups w);
              clock_reads := clock_reads w; provider_calls := provider_calls w;
              trace := trace w |})
      | Some msg =>
          (Raise {| exn_kind := AuthenticationError;
                    exn_msg := "Yahoo API authentication failed: " +:+ msg |},
           {| rate_limiter := rate_limiter w; cache := cache w;
              yahoo_client := false; client_setups := S (client_setups w);
              clock_reads := clock_reads w; provider_calls := provider_calls w;
              trace := trace w |})
      end.

(** One call of the provider's client. *)
Definition call_provider : M pyval :=
  fun e w =>
    (provider e (provider_calls w),
     {| rate_limiter := rate_limiter w; cache := cache w;
        yahoo_client := yahoo_client w; client_setups := client_setups w;
        clock_reads := clock_reads w; provider_calls := S (provider_calls w);
        trace := trace w |}).

(** [await self.cache_manager.get(key)] *)
Definition cache_manager_get (key : string) : M pyval :=
  fun _ w =>
    let '(v, c) := cache_get key (cache w) in
    (Ok v, {| rate_limiter := rate_limiter w; cache := c;
              yahoo_client := yahoo_client w; client_setups := client_setups w;
              clock_reads := clock_reads w; provider_calls := provider_calls w;
              trace := trace w |}).

(** [await self.cache_manager.set(key, value, ttl=ttl, tags=tags)] *)
Definition cache_manager_set (key : string) (v : pyval) (ttl : Z) (tags : list string)
  : M unit :=
  fun _ w =>
    (Ok tt, {| rate_limiter := rate_limiter w;
               cache := cache_set key v ttl tags (cache w);
               yahoo_client := yahoo_client w; client_setups := client_setups w;
               clock_reads := clock_reads w; provider_calls := provider_calls w;
               trace := trace w |}).

End Effects.

Declare Scope fetch_scope.
Delimit Scope fetch_scope with fetch.
Notation "x <- m ;; k" := (bind m (fun x => k))
  (at level 62, m at next level, right associativity) : fetch_scope.
Notation "m ;;; k" := (bind m (fun _ => k))
  (at level 62, right associativity) : fetch_scope.

Section Executor.
Context {FL : PyFloat} {CP : CachePort}.
Open Scope fetch_scope.

(** [self.rate_limiter.can_make_request()] *)
Definition can_make_request_m : M bool :=
  now <- utcnow ;;
  t <- get_rate_limiter ;;
  let '(b, t') := can_make_request now t in
  set_rate_limiter t' ;;;
  emit (EvCanMakeRequest b) ;;;
  ret b.

(** [self.rate_limiter.time_until_reset()] *)
Definition time_until_reset_m : M Z :=
  now <- utcnow ;;
  t <- get_rate_limiter ;;
  let d := time_until_reset now t in
  emit (EvTimeUntilReset d) ;;;
  ret d.

(** [self.rate_limiter.record_request()] *)
Definition record_request_m : M unit :=
  t <- get_rate_limiter ;;
  set_rate_limiter (record_request t) ;;;
  emit EvRecord.

(** [await asyncio.sleep(d)] *)
Definition sleep (d : duration) : M unit := emit (EvSleep d).

(** [request.params[k]] *)
Definition param (req : APIRequest) (k : string) : M pyval :=
  match assoc k (params req) with
  | Some v => ret v
  | None => raise {| exn_kind := KeyError; exn_msg := k |}
  end.

(** [v.split(".")[-1]] on a parameter: text has a last segment, bytes
    cannot be split by text, and nothing else has [split]. *)
Definition split_tail (v : pyval) : M pyval :=
  match v with
  | VStr s => ret (VStr (Str.last_segment s))
  | VBytes _ =>
      raise {| exn_kind := TypeError;
               exn_msg := "a bytes-like object is required, not 'str'" |}
  | _ => raise {| exn_kind := AttributeError; exn_msg := "split" |}
  end.

Definition supported (ep : APIEndpoint) : bool :=
  match ep with
  | USER_LEAGUES | LEAGUE_TEAMS | TEAM_ROSTER | TEAM_MATCHUP
  | PLAYER_INFO | AVAILABLE_PLAYERS => true
  | _ => false
  end.

(** [_execute_yahoo_request]: the client is set up if the agent has none,
    then the request is routed to the client's method: the parameters are
    looked up, the league's and the team's id are split off their keys, and
    the client is called.  The client is external: what it answers to a
    call is the provider's outcome for that call. *)
Definition _execute_yahoo_request (req : APIRequest) : M pyval :=
  emit (EvExecute (endpoint req)) ;;;
  ensure_client ;;;
  match endpoint req with
  | USER_LEAGUES => call_provider
  | LEAGUE_TEAMS =>
      league_key <- param req "league_key" ;;
      split_tail league_key ;;;
      call_provider
  | TEAM_ROSTER =>
      league_key <- param req "league_key" ;;
      team_key <- param req "team_key" ;;
      split_tail league_key ;;;
      split_tail team_key ;;;
      call_provider
  | TEAM_MATCHUP =>
      league_key <- param req "league_key" ;;
      team_key <- param req "team_key" ;;
      param req "week" ;;;
      split_tail league_key ;;;
      split_tail team_key ;;;
      call_provider
  | PLAYER_INFO => param req "player_key" ;;; call_provider
  | AVAILABLE_PLAYERS =>
      league_key <- param req "league_key" ;;
      split_tail league_key ;;;
      call_provider
  | _ => raise {| exn_kind := ValueError; exn_msg := "Unsupported endpoint" |}
  end.

(** The classes [except (aiohttp.ClientError, asyncio.TimeoutError)] catches. *)
Definition is_transient (x : exn) : bool :=
  match exn_kind x with
  | ClientError | TimeoutError => true
  | _ => false
  end.

(** The admission check that opens [_make_api_request]. *)
Definition admission : M unit :=
  ok <- can_make_request_m ;;
  if ok then ret tt
  else
    wait_time <- time_until_reset_m ;;
    (if 0 <? wait_time
     then sleep (Micros (Z.min wait_time (Clock.seconds 300)))
     else ret tt) ;;;
    ok' <- can_make_request_m ;;
    if ok' then ret tt
    else raise {| exn_kind := RateLimitError; exn_msg := "API rate limit exceeded" |}.

(** [raise last_exception or Exception("API request failed")] *)
Definition exhausted (last_exception : option exn) : M pyval :=
  raise (from_option id
           {| exn_kind := OtherException; exn_msg := "API request failed" |}
           last_exception).

(** [delay = request.backoff_factor ** attempt] *)
Definition backoff_delay (req : APIRequest) (attempt : Z) : M float :=
  match float_pow (backoff_factor req) attempt with
  | Some delay => ret delay
  | None =>
      raise {| exn_kind := OverflowError;
               exn_msg := "(34, 'Numerical result out of range')" |}
  end.

(** One pass of the body of the [try] in the retry loop. *)
Definition attempt_body (req : APIRequest) (attempt : Z) : M pyval :=
  (if 0 <? attempt
   then delay <- backoff_delay req attempt ;; sleep (FloatSeconds delay)
   else ret tt) ;;;
  response <- _execute_yahoo_request req ;;
  record_request_m ;;;
  ret response.

(** [for attempt in range(request.max_retries + 1)], over the attempts left. *)
Fixpoint retry_loop (req : APIRequest) (attempts : list Z)
    (last_exception : option exn) : M pyval :=
  match attempts with
  | [] => exhausted last_exception
  | attempt :: rest =>
      fun e w =>
        match attempt_body req attempt e w with
        | (Ok response, w') => (Ok response, w')
        | (Raise x, w') =>
            if is_transient x then
              if attempt =? max_retries req
              then exhausted (Some x) e w'
              else retry_loop req rest (Some x) e w'
            else (Raise x, w')
        end
  end.

Definition _make_api_request (req : APIRequest) : M pyval :=
  emit EvAcquire ;;;
  finally
    (admission ;;; retry_loop req (seqZ 0 (max_retries req + 1)) None)
    (emit EvRelease).

(** A request [_execute_yahoo_request] can route: its endpoint has a client
    method, its parameters are there, and the keys it splits are text. *)
Definition has_param (req : APIRequest) (k : string) : bool :=
  bool_decide (is_Some (assoc k (params req))).

Definition text_param (req : APIRequest) (k : string) : bool :=
  match assoc k (params req) with
  | Some (VStr _) => true
  | _ => false
  end.

Definition routable (req : APIRequest) : bool :=
  match endpoint req with
  | USER_LEAGUES => true
  | LEAGUE_TEAMS | AVAILABLE_PLAYERS => text_param req "league_key"
  | TEAM_ROSTER => text_param req "league_key" && text_param req "team_key"
  | TEAM_MATCHUP =>
      text_param req "league_key" && text_param req "team_key" && has_param req "week"
  | PLAYER_INFO => has_param req "player_key"
  | _ => false
  end.

(** The agent has its client, or the next set-up gives it one. *)
Definition client_ready (e : env) (w : world) : bool :=
  yahoo_client w || bool_decide (client_setup e (client_setups w) = None).

(** The backoff delays of the attempts [1], ..., [k] are in range. *)
Definition delays_in_range (req : APIRequest) (k : nat) : Prop :=
  forall a, 0 < a <= Z.of_nat k -> is_Some (float_pow (backoff_factor req) a).

(** *** Worlds after a number of events, provider calls and records *)

Definition logged (evs : list event) (w : world) : world :=
  {| rate_limiter := rate_limiter w; cache := cache w;
     yahoo_client := yahoo_client w; client_setups := client_setups w;
     clock_reads := clock_reads w; provider_calls := provider_calls w;
     trace := trace w ++ evs |}.

Definition called (n : nat) (w : world) : world :=
  {| rate_limiter := rate_limiter w; cache := cache w;
     yahoo_client := yahoo_client w; client_setups := client_setups w;
     clock_reads := clock_reads w; provider_calls := (provider_calls w + n)%nat;
     trace := trace w |}.

(** The world once the client is there: as it is when the agent has one,
    else after one set-up. *)
Definition with_client (w : world) : world :=
  if yahoo_client w then w
  else
    {| rate_limiter := rate_limiter w; cache := cache w;
       yahoo_client := true; client_setups := S (client_setups w);
       clock_reads := clock_reads w; provider_calls := provider_calls w;
       trace := trace w |}.

Definition recorded (w : world) : world :=
  {| rate_limiter := record_request (rate_limiter w); cache := cache w;
     yahoo_client := yahoo_client w; client_setups := client_setups w;
     clock_reads := clock_reads w; provider_calls := provider_calls w;
     trace := trace w |}.

(** The events of one attempt up to its call, and of [n] attempts in a row
    from attempt [a] on. *)
Definition attempt_events (req : APIRequest) (a : Z) : list event :=
  (if 0 <? a
   then match float_pow (backoff_factor req) a with
        | Some delay => [EvSleep (FloatSeconds delay)]
        | None => []
        end
   else [])
  ++ [EvExecute (endpoint req)].

Fixpoint attempts_events (req : APIRequest) (a : Z) (n : nat) : list event :=
  match n with
  | O => []
  | S n' => attempt_events req a ++ attempts_events req (a + 1) n'
  end.

Definition count_events (p : event -> bool) (tr : list event) : nat :=
  length (List.filter p tr).

Definition is_execute (ev : event) : bool :=
  match ev with EvExecute _ => true | _ => false end.
Definition is_record (ev : event) : bool :=
  match ev with EvRecord => true | _ => false end.
Definition is_admission_check (ev : event) : bool :=
  match ev with EvCanMakeRequest _ => true | _ => false end.
Definition is_sleep (ev : event) : bool :=
  match ev with EvSleep _ => true | _ => false end.

End Executor.

(** *** The player transformation *)

Section Transform.
Context {FL : PyFloat}.

(** [repr] of bytes, containers and provider objects, which [str] falls
    back on: left to the runtime. *)
Variable py_repr : pyval -> string.

(** [str(v)] *)
Definition py_str (v : pyval) : string :=
  match v with
  | VNone => "None"
  | VBool true => "True"
  | VBool false => "False"
  | VInt n => pretty n
  | VFloat x => float_str x
  | VStr s => s
  | _ => py_repr v
  end.

(** The team abbreviation: the first of three attributes that is set. *)
Definition resolve_team (yahoo_player : pyval) : pyval :=
  py_or (getattr yahoo_player "editorial_team_abbr" (VStr EmptyString))
    (py_or (getattr yahoo_player "team_abbr" (VStr EmptyString))
       (getattr (getattr yahoo_player "team" (VObj [])) "abbr" (VStr EmptyString))).

(** [NFLTeam(yahoo_team.upper()) if yahoo_team else None] under its
    [except ValueError]: the enum's refusal of an unknown abbreviation is
    caught there, and the team it names is not used afterwards; what can
    escape is the missing [upper] of a value that is not text. *)
Definition lookup_nfl_team (yahoo_team : pyval) : result unit :=
  if truthy yahoo_team then
    match yahoo_team with
    | VStr _ | VBytes _ => Ok tt
    | _ => Raise {| exn_kind := AttributeError; exn_msg := "upper" |}
    end
  else Ok tt.

(** Name resolution *)
Definition resolve_name (yahoo_player : pyval) : pyval :=
  let name_obj := getattr yahoo_player "name" VNone in
  let full_name :=
    if is_none name_obj then VNone
    else py_or (getattr name_obj "full" VNone)
           (VStr (Str.strip (py_str (getattr name_obj "first" (VStr EmptyString))
                             +:+ " "
                             +:+ py_str (getattr name_obj "last" (VStr EmptyString))))) in
  if truthy full_name then full_name
  else py_or (getattr yahoo_player "display_name" VNone) (VStr "Unknown Player").

Definition resolve_position (yahoo_player : pyval) : pyval :=
  py_or (getattr yahoo_player "display_position" (VStr EmptyString))
    (py_or (getattr yahoo_player "primary_position" (VStr EmptyString))
       (getattr yahoo_player "position" (VStr EmptyString))).

(** The dict literal that opens [player_info]. *)
Definition initial_player_info (yahoo_player yahoo_team : pyval)
  : list (pyval * pyval) :=
  [ (VStr "player_key", getattr yahoo_player "player_key" (VStr EmptyString));
    (VStr "name", resolve_name yahoo_player);
    (VStr "position", resolve_position yahoo_player);
    (VStr "team", yahoo_team);
    (VStr "jersey_number", getattr yahoo_player "jersey_number" VNone);
    (VStr "bye_weeks", VNone);
    (VStr "is_undroppable", getattr yahoo_player "is_undroppable" (VBool false));
    (VStr "ownership_status", VNone);
    (VStr "percent_owned", VNone) ].

(** Ownership model may be an object, not dict *)
Definition with_ownership (yahoo_player : pyval) (info : list (pyval * pyval))
  : list (pyval * pyval) :=
  let ownership := getattr yahoo_player "ownership" VNone in
  if is_none ownership then info
  else
    dict_set info "ownership_status"
      (py_or (getattr ownership "ownership_type" VNone)
         (match ownership with
          | VDict entries => from_option id VNone (dict_lookup "ownership_type" entries)
          | _ => VNone
          end)).

(** [isinstance(v, (int, float, str)) and str(v).replace('.', '', 1).isdigit()] *)
Definition number_like (v : pyval) : bool :=
  match v with
  | VBool _ | VInt _ | VFloat _ | VStr _ =>
      Str.isdigit (Str.remove_first_dot (py_str v))
  | _ => false
  end.

(** [float(v)] *)
Definition to_float (v : pyval) : result pyval :=
  match v with
  | VBool b => Ok (VFloat (float_of_Z (if b then 1 else 0)))
  | VInt n => Ok (VFloat (float_of_Z n))
  | VFloat x => Ok (VFloat x)
  | VStr s | VBytes s =>
      match float_of_str s with
      | Some x => Ok (VFloat x)
      | None =>
          Raise {| exn_kind := ValueError;
                   exn_msg := "could not convert string to float" |}
      end
  | _ => Raise {| exn_kind := TypeError; exn_msg := "float() argument" |}
  end.

(** Percent owned normalization *)
Definition with_percent_owned (yahoo_player : pyval) (info : list (pyval * pyval))
  : list (pyval * pyval) :=
  let po := getattr yahoo_player "percent_owned" VNone in
  if is_none po then info
  else
    let computed :=
      if number_like po then to_float po
      else if hasattr po "value" && number_like (getattr po "value" VNone)
           then to_float (getattr po "value" VNone)
           else Ok VNone in
    match computed with
    | Ok v => dict_set info "percent_owned" v
    | Raise _ => dict_set info "percent_owned" VNone
    end.

(** Normalize bye weeks if present *)
Definition with_bye_weeks (yahoo_player : pyval) (info : list (pyval * pyval))
  : list (pyval * pyval) :=
  if hasattr yahoo_player "bye_weeks" && truthy (getattr yahoo_player "bye_weeks" VNone)
  then
    let bw := getattr yahoo_player "bye_weeks" VNone in
    let computed :=
      match bw with
      | VList items => Ok (VList items)
      | _ =>
          rbind (py_iter (getattr bw "weeks" (VList [])))
            (fun weeks =>
               Ok (py_or (VList weeks) (VList [getattr bw "week" VNone])))
      end in
    match computed with
    | Ok v => dict_set info "bye_weeks" v
    | Raise _ => dict_set info "bye_weeks" (VList [])
    end
  else dict_set info "bye_weeks" (VList []).

(** Injury information *)
Definition with_injury (yahoo_player : pyval) (info : list (pyval * pyval))
  : list (pyval * pyval) :=
  let info1 :=
    if hasattr yahoo_player "status" && truthy (getattr yahoo_player "status" VNone)
    then dict_set info "injury_status" (getattr yahoo_player "status" VNone)
    else dict_set info "injury_status" (VStr "Healthy") in
  if hasattr yahoo_player "injury_note" then
    let note := getattr yahoo_player "injury_note" VNone in
    dict_set info1 "injury_note" (if is_none note then VNone else VStr (py_str note))
  else info1.

(** Whether a value can be a dict key. *)
Definition hashable (v : pyval) : bool :=
  match v with
  | VList _ | VDict _ => false
  | _ => true
  end.

(** One pass of the loop over the player's stats: the name of the stat, the
    assignment [stats[name] = value]; an unhashable name skips the stat. *)
Definition add_stat (stats : list (pyval * pyval)) (s : pyval) : list (pyval * pyval) :=
  let stat_meta := getattr s "stat" VNone in
  let name :=
    if is_none stat_meta then VNone
    else py_or (getattr stat_meta "display_name" VNone) (getattr stat_meta "name" VNone) in
  let name :=
    if truthy name then name
    else VStr ("stat_" +:+ py_str (getattr s "stat_id"
                                      (getattr stat_meta "stat_id" (VStr "unknown")))) in
  let value := getattr s "value" VNone in
  if hashable name then stats ++ [(name, value)] else stats.

(** Statistics if available *)
Definition with_stats (yahoo_player : pyval) (info : list (pyval * pyval))
  : list (pyval * pyval) :=
  if hasattr yahoo_player "player_stats"
     && truthy (getattr yahoo_player "player_stats" VNone)
  then
    let player_stats := getattr yahoo_player "player_stats" VNone in
    let stats :=
      match py_iter (py_or (getattr player_stats "stats" (VList [])) (VList [])) with
      | Ok items => foldl add_stat [] items
      | Raise _ => []
      end in
    if truthy (VDict stats) then dict_set info "stats" (VDict stats) else info
  else info.

(** Projected points if available: [yahoo_player.player_points.total] *)
Definition with_projected_points (yahoo_player : pyval) (info : list (pyval * pyval))
  : result (list (pyval * pyval)) :=
  if hasattr yahoo_player "player_points"
     && truthy (getattr yahoo_player "player_points" VNone)
  then
    rbind (attr (getattr yahoo_player "player_points" VNone) "total")
      (fun total => Ok (dict_set info "projected_points" total))
  else Ok info.

(** The body of the [try] of [_transform_yahoo_player]. *)
Definition transform_body (yahoo_player : pyval) : result (list (pyval * pyval)) :=
  let yahoo_team := resolve_team yahoo_player in
  rbind (lookup_nfl_team yahoo_team) (fun _ =>
  let player_info := initial_player_info yahoo_player yahoo_team in
  let player_info := with_ownership yahoo_player player_info in
  let player_info := with_percent_owned yahoo_player player_info in
  let player_info := with_bye_weeks yahoo_player player_info in
  let player_info := with_injury yahoo_player player_info in
  let player_info := with_stats yahoo_player player_info in
  with_projected_points yahoo_player player_info).

(** Return minimal player info if transformation fails *)
Definition minimal_player_info (yahoo_player : pyval) (e : exn) : list (pyval * pyval) :=
  [ (VStr "player_key", getattr yahoo_player "player_key" (VStr EmptyString));
    (VStr "name", VStr "Unknown Player");
    (VStr "position", VStr EmptyString);
    (VStr "team", VStr EmptyString);
    (VStr "error", VStr (exn_msg e)) ].

Definition _transform_yahoo_player (yahoo_player : pyval) : pyval :=
  match transform_body yahoo_player with
  | Ok player_info => VDict player_info
  | Raise e => VDict (minimal_player_info yahoo_player e)
  end.

End Transform.

(** *** The cached fetch operations *)

Section Operations.
Context {FL : PyFloat} {CP : CachePort}.
Variable py_repr : pyval -> string.
Open Scope fetch_scope.

(** [APIRequest(endpoint=..., params=...)] with the dataclass defaults. *)
Definition new_request (ep : APIEndpoint) (ps : list (string * pyval)) : APIRequest :=
  {| endpoint := ep; params := ps; attempt_field := 0;
     max_retries := 3; backoff_factor := float_of_Z 2; timeout := 30 |}.

(** [s or d] for an optional string *)
Definition str_or (s : option string) (d : string) : string :=
  match s with
  | Some x => if String.eqb x EmptyString then d else x
  | None => d
  end.

(** [f"{week or 'current'}"] for an optional week number *)
Definition week_or_current (week : option Z) : string :=
  match week with
  | Some n => if n =? 0 then "current" else pretty n
  | None => "current"
  end.

Definition opt_str (s : option string) : pyval :=
  match s with Some x => VStr x | None => VNone end.
Definition opt_int (n : option Z) : pyval :=
  match n with Some x => VInt x | None => VNone end.

(** A text attribute that may come as bytes, decoded. *)
Definition decoded (v : pyval) : pyval :=
  match v with VBytes s => VStr s | _ => v end.

Definition league_info (league : pyval) : pyval :=
  VDict
    [ (VStr "league_id", getattr league "league_id" VNone);
      (VStr "league_key", getattr league "league_key" VNone);
      (VStr "name", decoded (getattr league "name" (VStr "Unknown")));
      (VStr "season", getattr league "season" VNone);
      (VStr "is_finished", getattr league "is_finished" (VBool false));
      (VStr "num_teams", getattr league "num_teams" VNone);
      (VStr "scoring_type", getattr league "scoring_type" VNone);
      (VStr "league_type", getattr league "league_type" VNone);
      (VStr "url", getattr league "url" VNone);
      (VStr "current_week", getattr league "current_week" VNone) ].

Definition user_leagues_key (game_key : option string) : string :=
  "user_leagues:" +:+ str_or game_key "all".

Definition get_user_leagues (game_key : option string) : M pyval :=
  let cache_key := user_leagues_key game_key in
  cached_data <- cache_manager_get cache_key ;;
  if negb (is_none cached_data) then ret cached_data
  else
    let request :=
      new_request USER_LEAGUES [("game_key", VStr (str_or game_key "nfl"))] in
    leagues_data <- _make_api_request request ;;
    leagues <-
      (if truthy leagues_data
       then items <- lift (py_iter leagues_data) ;; ret (league_info <$> items)
       else ret []) ;;
    cache_manager_set cache_key (VList leagues) (Clock.hours 4)
      ["user_leagues"; "yahoo_api"] ;;;
    ret (VList leagues).

Definition roster_key (league_key team_key : string) (week : option Z) : string :=
  "roster:" +:+ league_key +:+ ":" +:+ team_key +:+ ":" +:+ week_or_current week.

(** The players a roster or player-list answer carries. *)
Definition players_of (data : pyval) : M (list pyval) :=
  if truthy data then
    if hasattr data "players" then lift (py_iter (getattr data "players" VNone))
    else match data with
         | VList items => ret items
         | _ => ret []
         end
  else ret [].

Definition get_roster (league_key team_key : string) (week : option Z) : M pyval :=
  let cache_key := roster_key league_key team_key week in
  cached_data <- cache_manager_get cache_key ;;
  if negb (is_none cached_data) then ret cached_data
  else
    let request :=
      new_request TEAM_ROSTER
        [("league_key", VStr league_key); ("team_key", VStr team_key);
         ("week", opt_int week)] in
    roster_data <- _make_api_request request ;;
    now <- utcnow ;;
    e <- ask ;;
    players <- players_of roster_data ;;
    let roster_info :=
      VDict
        [ (VStr "team_key", VStr team_key);
          (VStr "league_key", VStr league_key);
          (VStr "week", opt_int week);
          (VStr "players", VList (_transform_yahoo_player py_repr <$> players));
          (VStr "last_updated", VStr (isoformat e now)) ] in
    cache_manager_set cache_key roster_info (Clock.hours 2)
      ["roster"; "yahoo_api"; "league:" +:+ league_key] ;;;
    ret roster_info.

(** [getattr(m, name, None) or (m.get(name) if isinstance(m, dict) else None)] *)
Definition object_or_dict_field (m : pyval) (name : string) : pyval :=
  py_or (getattr m name VNone)
    (match m with
     | VDict entries => from_option id VNone (dict_lookup name entries)
     | _ => VNone
     end).

Definition manager_info (m : pyval) : pyval :=
  VDict
    [ (VStr "guid", object_or_dict_field m "guid");
      (VStr "manager_id", object_or_dict_field m "manager_id");
      (VStr "nickname", object_or_dict_field m "nickname") ].

(** [getattr(t, 'team_key', '').split('.')[-1]] *)
Definition team_key_tail (t : pyval) : result pyval :=
  match getattr t "team_key" (VStr EmptyString) with
  | VStr s => Ok (VStr (Str.last_segment s))
  | VBytes _ => Raise {| exn_kind := TypeError; exn_msg := "a bytes-like object is required" |}
  | _ => Raise {| exn_kind := AttributeError; exn_msg := "split" |}
  end.

(** The dict [get_league_teams] keeps of one team; an exception here
    drops the team. *)
Definition team_info (t : pyval) : result pyval :=
  let name_val := decoded (getattr t "name" (VStr "Unknown")) in
  let managers := getattr t "managers" VNone in
  rbind (if truthy managers then py_iter managers else Ok []) (fun ms =>
  let managers_info := manager_info <$> ms in
  rbind (if truthy (getattr t "team_id" VNone) then Ok (getattr t "team_id" VNone)
         else if truthy (getattr t "team_key" VNone) then team_key_tail t
              else Ok VNone) (fun team_id =>
  Ok (VDict
        [ (VStr "team_key", getattr t "team_key" VNone);
          (VStr "team_id", team_id);
          (VStr "name", name_val);
          (VStr "is_owned_by_current_login",
           getattr t "is_owned_by_current_login" VNone);
          (VStr "managers", VList managers_info);
          (VStr "url", getattr t "url" VNone);
          (VStr "waiver_priority", getattr t "waiver_priority" VNone);
          (VStr "number_of_moves", getattr t "number_of_moves" VNone);
          (VStr "number_of_trades", getattr t "number_of_trades" VNone) ]))).

(** The loop over [teams_data]: the teams that transform, in order. *)
Fixpoint team_infos (ts : list pyval) : list pyval :=
  match ts with
  | [] => []
  | t :: rest =>
      match team_info t with
      | Ok d => d :: team_infos rest
      | Raise _ => team_infos rest
      end
  end.

Definition league_teams_key (league_key : string) : string :=
  "league_teams:" +:+ league_key.

Definition get_league_teams (league_key : string) : M pyval :=
  let cache_key := league_teams_key league_key in
  cached <- cache_manager_get cache_key ;;
  if negb (is_none cached) then ret cached
  else
    let request := new_request LEAGUE_TEAMS [("league_key", VStr league_key)] in
    teams_data <- _make_api_request request ;;
    teams <-
      (if truthy teams_data
       then items <- lift (py_iter teams_data) ;; ret (team_infos items)
       else ret []) ;;
    cache_manager_set cache_key (VList teams) (Clock.hours 1)
      ["league_teams"; "yahoo_api"; "league:" +:+ league_key] ;;;
    ret (VList teams).

(** Prefer explicit ownership flag if available *)
Fixpoint find_owned (teams : list pyval) : result (option pyval) :=
  match teams with
  | [] => Ok None
  | t :: rest =>
      rbind (py_get t "is_owned_by_current_login") (fun flag =>
      if is_True flag
      then rbind (py_get t "team_key") (fun k => Ok (Some k))
      else find_owned rest)
  end.

(** [m.get('guid') and m['guid'] == user_guid], over the managers. *)
Fixpoint manager_matches (user_guid : string) (ms : list pyval) : result bool :=
  match ms with
  | [] => Ok false
  | m :: rest =>
      rbind (py_get m "guid") (fun g =>
      if truthy g && eq_str g user_guid then Ok true
      else manager_matches user_guid rest)
  end.

(** Fallback: match by GUID in managers *)
Fixpoint find_by_guid (user_guid : string) (teams : list pyval)
  : result (option pyval) :=
  match teams with
  | [] => Ok None
  | t :: rest =>
      rbind (py_get t "managers") (fun managers =>
      rbind (py_iter (py_or managers (VList []))) (fun ms =>
      rbind (manager_matches user_guid ms) (fun hit =>
      if hit
      then rbind (py_get t "team_key") (fun k => Ok (Some k))
      else find_by_guid user_guid rest)))
  end.

(** [teams[0]] *)
Definition first_item (teams : pyval) : result pyval :=
  match teams with
  | VList (t :: _) => Ok t
  | VList [] => Raise {| exn_kind := IndexError; exn_msg := "list index out of range" |}
  | VStr s =>
      match Str.chars s with
      | c :: _ => Ok (VStr c)
      | [] => Raise {| exn_kind := IndexError; exn_msg := "string index out of range" |}
      end
  | VBytes s =>
      match Str.codes s with
      | c :: _ => Ok (VInt c)
      | [] => Raise {| exn_kind := IndexError; exn_msg := "index out of range" |}
      end
  | VDict _ => Raise {| exn_kind := KeyError; exn_msg := "0" |}
  | _ => Raise {| exn_kind := TypeError; exn_msg := "object is not subscriptable" |}
  end.

(** The body of [get_user_team_key] once the teams are there. *)
Definition pick_user_team (user_guid : string) (teams : pyval) : result pyval :=
  if negb (truthy teams) then Ok VNone
  else
    rbind (py_iter teams) (fun items =>
    rbind (find_owned items) (fun owned =>
    match owned with
    | Some k => Ok k
    | None =>
        rbind (if negb (String.eqb user_guid EmptyString)
               then find_by_guid user_guid items
               else Ok None) (fun managed =>
        match managed with
        | Some k => Ok k
        | None => rbind (first_item teams) (fun t => py_get t "team_key")
        end)
    end)).

Definition get_user_team_key (league_key : string) : M pyval :=
  try_catch
    (teams <- get_league_teams league_key ;;
     e <- ask ;;
     lift (pick_user_team (default EmptyString (YAHOO_GUID e)) teams))
    (fun _ => ret VNone).

Definition available_players_key (league_key : string) (position : option string)
    (status : string) (count : Z) : string :=
  "available_players:" +:+ league_key +:+ ":" +:+ str_or position "all"
  +:+ ":" +:+ status +:+ ":" +:+ pretty count.

(** [(player_info.get('ownership_status') or '').lower()] *)
Definition ownership_lower (player_info : pyval) : result pyval :=
  rbind (py_get player_info "ownership_status") (fun own =>
  match py_or own (VStr EmptyString) with
  | VStr s => Ok (VStr (Str.lower s))
  | VBytes s => Ok (VBytes (Str.lower s))
  | _ => Raise {| exn_kind := AttributeError; exn_msg := "lower" |}
  end).

(** [own in ('freeagents', 'free agent', 'fa', 'available', '')] *)
Definition is_free_agent (own : pyval) : bool :=
  match own with
  | VStr s =>
      bool_decide (s ∈ ["freeagents"; "free agent"; "fa"; "available"; EmptyString])
  | _ => false
  end.

(** The loop of [get_available_players] over the transformed players. *)
Fixpoint available_loop (requested_pos : option string) (players : list pyval)
  : result (list pyval) :=
  match players with
  | [] => Ok []
  | player :: rest =>
      let player_info := _transform_yahoo_player py_repr player in
      let wanted := str_or requested_pos EmptyString in
      rbind (py_get player_info "position") (fun pos =>
      if negb (String.eqb wanted EmptyString) && negb (eq_str pos wanted)
      then available_loop requested_pos rest
      else
        rbind (ownership_lower player_info) (fun own =>
        if is_free_agent own then
          rbind (py_get player_info "projected_points") (fun pp =>
          let points :=
            match to_float (py_or pp (VInt 0)) with
            | Ok x => x
            | Raise _ => VFloat (float_of_Z 0)
            end in
          let player_info' :=
            match player_info with
            | VDict entries => VDict (dict_set entries "projected_points" points)
            | other => other
            end in
          rbind (available_loop requested_pos rest) (fun tl => Ok (player_info' :: tl)))
        else available_loop requested_pos rest))
  end.

Definition get_available_players (league_key : string) (position : option string)
    (status : string) (count : Z) : M pyval :=
  let cache_key := available_players_key league_key position status count in
  cached_data <- cache_manager_get cache_key ;;
  if negb (is_none cached_data) then ret cached_data
  else
    let request :=
      new_request AVAILABLE_PLAYERS
        [("league_key", VStr league_key); ("count", VInt count);
         ("position", opt_str position); ("status", VStr status)] in
    players_data <- _make_api_request request ;;
    players <- players_of players_data ;;
    available_players <- lift (available_loop position players) ;;
    cache_manager_set cache_key (VList available_players) (Clock.minutes 30)
      ["available_players"; "yahoo_api"; "league:" +:+ league_key] ;;;
    ret (VList available_players).

(** [{"error": str(e)}] *)
Definition error_entry (e : exn) : pyval :=
  VDict [(VStr "error", VStr (exn_msg e))].

(** One pass of the loop of [_fetch_league_data] over the data types. *)
Definition fetch_data_type (league_key data_type : string)
    (league_data : list (pyval * pyval)) : M (list (pyval * pyval)) :=
  try_catch
    (if String.eqb data_type "roster" then ret league_data
     else if String.eqb data_type "standings" then ret league_data
     else if String.eqb data_type "available_players" then
       players <- get_available_players league_key None "A" 25 ;;
       ret (dict_set league_data "available_players" players)
     else ret league_data)
    (fun e => ret (dict_set league_data data_type (error_entry e))).

Fixpoint fetch_data_types (league_key : string) (data_types : list string)
    (league_data : list (pyval * pyval)) : M (list (pyval * pyval)) :=
  match data_types with
  | [] => ret league_data
  | data_type :: rest =>
      league_data' <- fetch_data_type league_key data_type league_data ;;
      fetch_data_types league_key rest league_data'
  end.

Definition _fetch_league_data (league_key : string) (data_types : list string)
  : M pyval :=
  league_data <-
    fetch_data_types league_key data_types [(VStr "league_key", VStr league_key)] ;;
  ret (VDict league_data).

Definition timeout_error : exn :=
  {| exn_kind := TimeoutError; exn_msg := EmptyString |}.

(** [asyncio.wait_for] around [asyncio.gather] with [return_exceptions=True]:
    the tasks run in the order they were created, each to its end, a
    raised exception becoming the task's result; the deadline, when it
    passes after [n] finished tasks with tasks left, ends the wait with
    [TimeoutError]. *)
Fixpoint gather (deadline : option nat) (tasks : list (M pyval))
  : M (list (result pyval)) :=
  match tasks with
  | [] => ret []
  | task :: rest =>
      match deadline with
      | Some O => raise timeout_error
      | _ =>
          fun e w =>
            let '(r, w') := task e w in
            match gather (pred <$> deadline) rest e w' with
            | (Ok rs, w'') => (Ok (r :: rs), w'')
            | (Raise x, w'') => (Raise x, w'')
            end
      end
  end.

(** The entry the batch keeps for one task's result. *)
Definition batch_entry (r : result pyval) : pyval :=
  match r with
  | Ok v => v
  | Raise e => error_entry e
  end.

(** The loop that fills [league_data] from the gathered results. *)
Definition collect (league_keys : list string) (results : list (result pyval))
  : gmap string pyval :=
  foldl (fun acc kr => <[kr.1 := batch_entry kr.2]> acc) ∅ (zip league_keys results).

Definition fetch_multiple_leagues_data (league_keys : list string)
    (data_types : option (list string)) : M (gmap string pyval) :=
  let data_types := default ["roster"; "standings"] data_types in
  e <- ask ;;
  emit (EvWaitFor (async_timeout_seconds e * Z.of_nat (length league_keys))) ;;;
  results <-
    gather (deadline_after e)
      ((fun league_key => _fetch_league_data league_key data_types) <$> league_keys) ;;
  ret (collect league_keys results).

End Operations.

(** *** Facts about the player transformation *)

Section TransformFacts.
Context {FL : PyFloat}.
Variable py_repr : pyval -> string.

Lemma dict_lookup_app k (d d' : list (pyval * pyval)) :
  dict_lookup k (d ++ d')
  = match dict_lookup k d' with
    | Some v => Some v
    | None => dict_lookup k d
    end.
Proof.
  induction d as [|[key v] d IH]; cbn.
  - by destruct (dict_lookup k d').
  - rewrite IH. by destruct (dict_lookup k d').
Qed.

(** An item assignment keeps the keys the dict has. *)
Lemma has_key_dict_set (d : list (pyval * pyval)) k k' v :
  has_key d k = true -> has_key (dict_set d k' v) k = true.
Proof.
  unfold has_key, dict_set. rewrite !bool_decide_eq_true, dict_lookup_app.
  intros [x Hx]. destruct (dict_lookup k [(VStr k', v)]); eauto.
Qed.

Lemma has_key_dict_set_same (d : list (pyval * pyval)) k v :
  has_key (dict_set d k v) k = true.
Proof.
  unfold has_key, dict_set. rewrite bool_decide_eq_true, dict_lookup_app.
  cbn. rewrite String.eqb_refl. eauto.
Qed.

Ltac keeps_key :=
  repeat match goal with
         | |- has_key (dict_set _ _ _) _ = true => apply has_key_dict_set
         | |- has_key (if ?b then _ else _) _ = true => destruct b
         | |- has_key (match ?r with _ => _ end) _ = true => destruct r
         | |- _ => assumption
         end.

Lemma with_ownership_keeps p info k :
  has_key info k = true -> has_key (with_ownership p info) k = true.
Proof. intros H. unfold with_ownership. cbv zeta. keeps_key. Qed.

Lemma with_percent_owned_keeps p info k :
  has_key info k = true -> has_key (with_percent_owned py_repr p info) k = true.
Proof. intros H. unfold with_percent_owned. cbv zeta. keeps_key. Qed.

Lemma with_bye_weeks_keeps p info k :
  has_key info k = true -> has_key (with_bye_weeks p info) k = true.
Proof. intros H. unfold with_bye_weeks. cbv zeta. keeps_key. Qed.

Lemma with_injury_keeps p info k :
  has_key info k = true -> has_key (with_injury py_repr p info) k = true.
Proof. intros H. unfold with_injury. cbv zeta. keeps_key. Qed.

Lemma with_stats_keeps p info k :
  has_key info k = true -> has_key (with_stats py_repr p info) k = true.
Proof. intros H. unfold with_stats. cbv zeta. keeps_key. Qed.

Lemma with_projected_points_keeps p info info' k :
  with_projected_points p info = Ok info' ->
  has_key info k = true -> has_key info' k = true.
Proof.
  unfold with_projected_points. intros Heq H.
  destruct (_ && _).
  - destruct (attr _ _); cbn in Heq; [|discriminate].
    injection Heq as <-. by apply has_key_dict_set.
  - by injection Heq as <-.
Qed.

(** Every key of the opening dict literal is in the dict the body returns. *)
Lemma transform_body_keeps p info k :
  transform_body py_repr p = Ok info ->
  has_key (initial_player_info py_repr p (resolve_team p)) k = true ->
  has_key info k = true.
Proof.
  unfold transform_body. cbv zeta. intros Heq H.
  destruct (lookup_nfl_team _); cbn in Heq; [|discriminate].
  eapply with_projected_points_keeps; [exact Heq|].
  apply with_stats_keeps, with_injury_keeps, with_bye_weeks_keeps,
    with_percent_owned_keeps, with_ownership_keeps, H.
Qed.

(** C10: for every provider object, [_transform_yahoo_player] returns a
    dict that has the keys [player_key], [name], [position] and [team]; a
    failure inside the transformation does not escape it but yields the
    minimal dict, which carries the failure's text under [error]. *)
Theorem transform_is_total (yahoo_player : pyval) :
  exists player_info,
    _transform_yahoo_player py_repr yahoo_player = VDict player_info
    /\ has_key player_info "player_key" = true
    /\ has_key player_info "name" = true
    /\ has_key player_info "position" = true
    /\ has_key player_info "team" = true
    /\ (forall e,
          transform_body py_repr yahoo_player = Raise e ->
          player_info = minimal_player_info yahoo_player e
          /\ dict_lookup "error" player_info = Some (VStr (exn_msg e))).
Proof.
  unfold _transform_yahoo_player.
  destruct (transform_body py_repr yahoo_player) as [info|e] eqn:Hbody.
  - exists info. split; [done|].
    split; [|split; [|split; [|split]]];
      try (eapply transform_body_keeps; [exact Hbody | reflexivity]).
    intros e [=].
  - exists (minimal_player_info yahoo_player e). split; [done|].
    split; [|split; [|split; [|split]]]; try reflexivity.
    intros e' [= <-]. split; reflexivity.
Qed.

End TransformFacts.

(** *** Facts about the executor *)

Ltac world_eq :=
  unfold recorded, called, logged; cbn;
  f_equal; try lia; rewrite <- ?app_assoc; try reflexivity.

Section ExecutorFacts.
Context {FL : PyFloat} {CP : CachePort}.


Lemma logged_nil (w : world) : logged [] w = w.
Proof. destruct w; unfold logged; cbn. by rewrite app_nil_r. Qed.

Lemma called_called n m (w : world) : called m (called n w) = called (n + m) w.
Proof. unfold called; cbn. by rewrite Nat.add_assoc. Qed.

Lemma called_0 (w : world) : called 0 w = w.
Proof. destruct w; unfold called; cbn. by rewrite Nat.add_0_r. Qed.

Lemma called_logged n evs (w : world) :
  called n (logged evs w) = logged evs (called n w).
Proof. reflexivity. Qed.

Lemma text_param_spec req k :
  text_param req k = true -> exists s, assoc k (params req) = Some (VStr s).
Proof.
  unfold text_param. destruct (assoc k (params req)) as [[]|]; try discriminate; eauto.
Qed.

Lemma with_client_present (w : world) : yahoo_client w = true -> with_client w = w.
Proof. unfold with_client. by intros ->. Qed.

Lemma yahoo_client_with_client (w : world) : yahoo_client (with_client w) = true.
Proof. unfold with_client. by destruct (yahoo_client w) eqn:Hc. Qed.

Lemma provider_calls_with_client (w : world) :
  provider_calls (with_client w) = provider_calls w.
Proof. unfold with_client. by destruct (yahoo_client w). Qed.

Lemma with_client_logged evs (w : world) :
  with_client (logged evs w) = logged evs (with_client w).
Proof. destruct w as [t c [|] n r p tr]; reflexivity. Qed.

Lemma ensure_client_present e w : yahoo_client w = true -> ensure_client e w = (Ok tt, w).
Proof. unfold ensure_client. by intros ->. Qed.

Lemma ensure_client_ready e w :
  client_ready e w = true -> ensure_client e w = (Ok tt, with_client w).
Proof.
  unfold client_ready, ensure_client, with_client.
  destruct (yahoo_client w); [done|]. cbn [orb].
  intros H. apply bool_decide_eq_true in H. by rewrite H.
Qed.

(** With the client still to be set up, and a set-up that succeeds, an
    attempt goes as it does with the client there. *)
Lemma execute_with_client req e w :
  client_ready e w = true ->
  _execute_yahoo_request req e w = _execute_yahoo_request req e (with_client w).
Proof.
  intros Hc. unfold _execute_yahoo_request.
  set (route := match endpoint req with USER_LEAGUES => _ | _ => _ end).
  unfold bind, emit.
  match goal with
  | |- context [ensure_client e ?W] => rewrite (ensure_client_ready e W Hc)
  end.
  rewrite ensure_client_present
    by (cbn [yahoo_client]; apply yahoo_client_with_client).
  f_equal. fold (logged [EvExecute (endpoint req)] w).
  fold (logged [EvExecute (endpoint req)] (with_client w)).
  apply with_client_logged.
Qed.

Lemma execute_routable req e w :
  routable req = true ->
  yahoo_client w = true ->
  _execute_yahoo_request req e w
  = (provider e (provider_calls w), called 1 (logged [EvExecute (endpoint req)] w)).
Proof.
  intros Hr Hc. unfold _execute_yahoo_request. unfold bind at 1, emit.
  unfold bind at 1. rewrite ensure_client_present by exact Hc.
  revert Hr. unfold routable, has_param, param.
  destruct (endpoint req); try discriminate; intros Hr;
  repeat match goal with
  | H : _ && _ = true |- _ => apply andb_true_iff in H as [? ?]
  | H : text_param _ _ = true |- _ =>
      apply text_param_spec in H as [? H]; rewrite H
  | H : bool_decide (is_Some ?o) = true |- _ =>
      apply bool_decide_eq_true in H as [? H]; rewrite H
  end;
  unfold bind, split_tail, call_provider, ret, called, logged; cbn;
  rewrite Nat.add_1_r; reflexivity.
Qed.

(** One attempt of a routable request by an agent that has its client: the
    backoff sleep (from the second attempt on), the call, and a record
    only when the call answers. *)
Lemma attempt_body_routable req a e w :
  routable req = true ->
  yahoo_client w = true ->
  (0 < a -> is_Some (float_pow (backoff_factor req) a)) ->
  attempt_body req a e w
  = match provider e (provider_calls w) with
    | Ok v => (Ok v, recorded (called 1 (logged (attempt_events req a ++ [EvRecord]) w)))
    | Raise x => (Raise x, called 1 (logged (attempt_events req a) w))
    end.
Proof.
  intros Hr Hc Hd. unfold attempt_body, attempt_events, backoff_delay, bind at 1.
  destruct (0 <? a) eqn:Ha.
  - destruct Hd as [delay Hd]; [by apply Z.ltb_lt|]. rewrite Hd.
    unfold bind at 1, ret, sleep, emit. unfold bind at 1.
    rewrite execute_routable by done. cbn [provider_calls].
    destruct (provider e (provider_calls w)); cbn;
      unfold record_request_m, bind, get_rate_limiter, set_rate_limiter, emit, ret,
        recorded, called, logged; cbn; by rewrite <- ?app_assoc.
  - unfold ret. unfold bind at 1.
    rewrite execute_routable by done.
    destruct (provider e (provider_calls w)); cbn;
      unfold record_request_m, bind, get_rate_limiter, set_rate_limiter, emit, ret,
        recorded, called, logged; cbn; by rewrite <- ?app_assoc.
Qed.

(** The provider fails transiently on its calls [base], ..., [base + k - 1]. *)
Definition transient_failures (e : env) (base k : nat) : Prop :=
  forall i, (i < k)%nat ->
    exists x, provider e (base + i)%nat = Raise x /\ is_transient x = true.

Lemma transient_failures_tail e base k :
  transient_failures e base (S k) -> transient_failures e (S base) k.
Proof.
  intros H i Hi. destruct (H (S i)) as [x Hx]; [lia|].
  exists x. by rewrite Nat.add_succ_comm.
Qed.

(** The backoff delays of the attempts [a], ..., [a + k - 1] are in range. *)
Definition delays_from (req : APIRequest) (a : Z) (k : nat) : Prop :=
  forall i, a <= i < a + Z.of_nat k -> 0 < i ->
            is_Some (float_pow (backoff_factor req) i).

Lemma delays_in_range_from req k : delays_in_range req k -> delays_from req 0 (S k).
Proof. intros H i Hi Hpos. apply H. lia. Qed.

Lemma attempts_events_snoc req a n :
  attempts_events req a (S n)
  = attempts_events req a n ++ attempt_events req (a + Z.of_nat n).
Proof.
  revert a. induction n as [|n IH]; intros a.
  - cbn [attempts_events]. rewrite app_nil_r, Z.add_0_r. reflexivity.
  - change (attempts_events req a (S (S n)))
      with (attempt_events req a ++ attempts_events req (a + 1) (S n)).
    rewrite IH. cbn [attempts_events]. rewrite <- app_assoc.
    do 3 f_equal. lia.
Qed.

(** After [k] transient failures the loop stands at attempt [a + k], the
    failed attempts having left their sleeps and calls in the trace and
    nothing in the tracker. *)
Lemma retry_loop_skip req e k :
  forall a n last w,
    routable req = true ->
    yahoo_client w = true ->
    delays_from req a k ->
    transient_failures e (provider_calls w) k ->
    a + n = max_retries req + 1 ->
    Z.of_nat k < n ->
    exists last',
      retry_loop req (seqZ a n) last e w
      = retry_loop req (seqZ (a + Z.of_nat k) (n - Z.of_nat k)) last' e
          (called k (logged (attempts_events req a k) w)).
Proof.
  induction k as [|k IH]; intros a n last w Hr Hc Hd Hf Han Hk.
  - exists last. cbn [attempts_events]. rewrite logged_nil, called_0.
    do 2 f_equal; lia.
  - rewrite (seqZ_cons a n) by lia. cbn [retry_loop].
    rewrite attempt_body_routable; [|done|done|intros; apply Hd; lia].
    destruct (Hf O) as [x [Hx Ht]]; [lia|].
    rewrite Nat.add_0_r in Hx. rewrite Hx, Ht.
    replace (a =? max_retries req) with false by (symmetry; apply Z.eqb_neq; lia).
    destruct (IH (Z.succ a) (Z.pred n) (Some x)
                 (called 1 (logged (attempt_events req a) w))) as [last' Heq].
    + done.
    + exact Hc.
    + intros i Hi Hpos. apply Hd; lia.
    + cbn. rewrite Nat.add_1_r. by apply transient_failures_tail.
    + lia.
    + lia.
    + exists last'. rewrite Heq.
      replace (Z.succ a) with (a + 1) by lia.
      f_equal; [f_equal; lia|].
      cbn [attempts_events]. world_eq.
Qed.

(** The loop's last step, at attempt [a] with [n >= 1] attempts left. *)
Lemma retry_loop_head req a n last e w :
  routable req = true ->
  yahoo_client w = true ->
  (0 < a -> is_Some (float_pow (backoff_factor req) a)) ->
  0 < n ->
  retry_loop req (seqZ a n) last e w
  = match provider e (provider_calls w) with
    | Ok v =>
        (Ok v, recorded (called 1 (logged (attempt_events req a ++ [EvRecord]) w)))
    | Raise x =>
        if is_transient x then
          if a =? max_retries req
          then (Raise x, called 1 (logged (attempt_events req a) w))
          else retry_loop req (seqZ (Z.succ a) (Z.pred n)) (Some x) e
                 (called 1 (logged (attempt_events req a) w))
        else (Raise x, called 1 (logged (attempt_events req a) w))
    end.
Proof.
  intros Hr Hc Hd Hn. rewrite (seqZ_cons a n) by lia. cbn [retry_loop].
  rewrite attempt_body_routable by done.
  destruct (provider e (provider_calls w)); reflexivity.
Qed.

(** The first attempt sets the client up where the agent has none. *)
Lemma retry_loop_with_client req n last e w :
  client_ready e w = true ->
  retry_loop req (seqZ 0 n) last e w
  = retry_loop req (seqZ 0 n) last e
      (if 0 <? n then with_client w else w).
Proof.
  intros Hc. destruct (0 <? n) eqn:Hn; [|done]. apply Z.ltb_lt in Hn.
  rewrite (seqZ_cons 0 n) by lia. cbn [retry_loop].
  assert (Hbody : attempt_body req 0 e w = attempt_body req 0 e (with_client w)).
  { unfold attempt_body. cbn [Z.ltb Z.compare]. unfold bind at 1 3, ret.
    unfold bind at 1 2. by rewrite (execute_with_client req e w Hc). }
  by rewrite Hbody.
Qed.

(** [k] transient failures, then an answer: the answer is returned, recorded
    once. *)
Lemma retry_loop_success req e w (k : nat) v :
  routable req = true ->
  client_ready e w = true ->
  delays_in_range req k ->
  Z.of_nat k <= max_retries req ->
  transient_failures e (provider_calls w) k ->
  provider e (provider_calls w + k)%nat = Ok v ->
  retry_loop req (seqZ 0 (max_retries req + 1)) None e w
  = (Ok v, recorded (called (S k)
             (logged (attempts_events req 0 (S k) ++ [EvRecord]) (with_client w)))).
Proof.
  intros Hr Hc Hd Hk Hf Hv.
  rewrite (retry_loop_with_client req _ None e w Hc).
  replace (0 <? max_retries req + 1) with true by (symmetry; apply Z.ltb_lt; lia).
  pose proof (yahoo_client_with_client w) as Hc'.
  rewrite <- (provider_calls_with_client w) in Hf, Hv.
  apply delays_in_range_from in Hd.
  destruct (retry_loop_skip req e k 0 (max_retries req + 1) None (with_client w))
    as [last' ->]; [done|done|intros i Hi Hp; apply Hd; lia|done|lia|lia|].
  rewrite retry_loop_head; [|done|done|intros; apply Hd; lia|lia].
  cbn [provider_calls called logged]. rewrite Hv.
  rewrite attempts_events_snoc. f_equal. world_eq.
Qed.

(** [k] transient failures, then an error that ends the loop: one that is not
    retried, or the failure of the last attempt. *)
Lemma retry_loop_failure req e w (k : nat) x :
  routable req = true ->
  client_ready e w = true ->
  delays_in_range req k ->
  Z.of_nat k <= max_retries req ->
  transient_failures e (provider_calls w) k ->
  provider e (provider_calls w + k)%nat = Raise x ->
  is_transient x = false \/ Z.of_nat k = max_retries req ->
  retry_loop req (seqZ 0 (max_retries req + 1)) None e w
  = (Raise x, called (S k) (logged (attempts_events req 0 (S k)) (with_client w))).
Proof.
  intros Hr Hc Hd Hk Hf Hx Hend.
  rewrite (retry_loop_with_client req _ None e w Hc).
  replace (0 <? max_retries req + 1) with true by (symmetry; apply Z.ltb_lt; lia).
  pose proof (yahoo_client_with_client w) as Hc'.
  rewrite <- (provider_calls_with_client w) in Hf, Hx.
  apply delays_in_range_from in Hd.
  destruct (retry_loop_skip req e k 0 (max_retries req + 1) None (with_client w))
    as [last' ->]; [done|done|intros i Hi Hp; apply Hd; lia|done|lia|lia|].
  rewrite retry_loop_head; [|done|done|intros; apply Hd; lia|lia].
  cbn [provider_calls called logged]. rewrite Hx.
  assert (called 1 (logged (attempt_events req (0 + Z.of_nat k))
                      (called k (logged (attempts_events req 0 k) (with_client w))))
          = called (S k) (logged (attempts_events req 0 (S k)) (with_client w))) as ->
    by (rewrite attempts_events_snoc; world_eq).
  destruct (is_transient x) eqn:Ht; [|reflexivity].
  destruct Hend as [?|Hlast]; [done|].
  replace (0 + Z.of_nat k =? max_retries req) with true
    by (symmetry; apply Z.eqb_eq; lia).
  reflexivity.
Qed.

(** *** What the retry loop leaves alone: the clock and the admission check *)

(** [w'] comes after [w] by events none of which is an admission check, with
    no read of the clock. *)
Definition quiet (w w' : world) : Prop :=
  clock_reads w' = clock_reads w
  /\ exists evs, trace w' = trace w ++ evs
                 /\ count_events is_admission_check evs = O.

Definition Quiet {A} (m : M A) : Prop := forall e w, quiet w (snd (m e w)).

Lemma count_events_app p evs1 evs2 :
  count_events p (evs1 ++ evs2) = (count_events p evs1 + count_events p evs2)%nat.
Proof. unfold count_events. by rewrite List.filter_app, length_app. Qed.

Lemma quiet_refl w : quiet w w.
Proof. split; [done|]. exists []. by rewrite app_nil_r. Qed.

Lemma quiet_trans w1 w2 w3 : quiet w1 w2 -> quiet w2 w3 -> quiet w1 w3.
Proof.
  intros [Hc1 [evs1 [Ht1 Hn1]]] [Hc2 [evs2 [Ht2 Hn2]]]. split; [congruence|].
  exists (evs1 ++ evs2). split.
  - by rewrite Ht2, Ht1, app_assoc.
  - rewrite count_events_app. lia.
Qed.

Lemma Quiet_ret {A} (a : A) : Quiet (ret a).
Proof. intros e w. apply quiet_refl. Qed.

Lemma Quiet_raise {A} x : Quiet (@raise _ _ A x).
Proof. intros e w. apply quiet_refl. Qed.

Lemma Quiet_bind {A B} (m : M A) (k : A -> M B) :
  Quiet m -> (forall a, Quiet (k a)) -> Quiet (bind m k).
Proof.
  intros Hm Hk e w. unfold bind. specialize (Hm e w).
  destruct (m e w) as [[a|x] w']; cbn in *; [|done].
  eapply quiet_trans; [exact Hm | apply Hk].
Qed.

Lemma Quiet_emit ev : is_admission_check ev = false -> Quiet (emit ev).
Proof.
  intros Hev e w. split; [done|]. exists [ev]. split; [done|].
  unfold count_events. cbn. by rewrite Hev.
Qed.

Lemma Quiet_call_provider : Quiet call_provider.
Proof. intros e w. split; [done|]. exists []. cbn. by rewrite app_nil_r. Qed.

Lemma Quiet_param req k : Quiet (param req k).
Proof. unfold param. destruct (assoc k (params req)); [apply Quiet_ret | apply Quiet_raise]. Qed.

Lemma Quiet_record : Quiet record_request_m.
Proof.
  intros e w. split; [done|]. exists [EvRecord]. split; [done|]. reflexivity.
Qed.

Lemma Quiet_ensure_client : Quiet ensure_client.
Proof.
  intros e w. unfold ensure_client.
  destruct (yahoo_client w); [apply quiet_refl|].
  destruct (client_setup e (client_setups w));
    (split; [done|]); exists []; cbn; by rewrite app_nil_r.
Qed.

Lemma Quiet_split_tail v : Quiet (split_tail v).
Proof. unfold split_tail. destruct v; first [apply Quiet_ret | apply Quiet_raise]. Qed.

Lemma Quiet_backoff_delay req a : Quiet (backoff_delay req a).
Proof.
  unfold backoff_delay. destruct (float_pow _ _); [apply Quiet_ret | apply Quiet_raise].
Qed.

Lemma Quiet_execute req : Quiet (_execute_yahoo_request req).
Proof.
  unfold _execute_yahoo_request.
  apply Quiet_bind; [by apply Quiet_emit|]. intros _.
  apply Quiet_bind; [apply Quiet_ensure_client|]. intros _.
  destruct (endpoint req);
    repeat first
      [ apply Quiet_call_provider
      | apply Quiet_raise
      | apply Quiet_bind; [apply Quiet_param | intros ?]
      | apply Quiet_bind; [apply Quiet_split_tail | intros ?] ].
Qed.

Lemma Quiet_attempt_body req a : Quiet (attempt_body req a).
Proof.
  unfold attempt_body.
  apply Quiet_bind.
  - destruct (0 <? a); [|apply Quiet_ret].
    apply Quiet_bind; [apply Quiet_backoff_delay|]. intros delay.
    by apply Quiet_emit.
  - intros _. apply Quiet_bind; [apply Quiet_execute|]. intros v.
    apply Quiet_bind; [apply Quiet_record|]. intros _. apply Quiet_ret.
Qed.

(** The retry loop never asks the limiter for admission and never reads the
    clock, whatever the request and the provider's answers. *)
Lemma Quiet_retry_loop req attempts last : Quiet (retry_loop req attempts last).
Proof.
  revert last. induction attempts as [|a rest IH]; intros last e w.
  - apply quiet_refl.
  - cbn [retry_loop].
    pose proof (Quiet_attempt_body req a e w) as Hb.
    destruct (attempt_body req a e w) as [[v|x] w']; cbn in Hb |- *; [done|].
    destruct (is_transient x); [|done].
    destruct (a =? max_retries req); [done|].
    eapply quiet_trans; [exact Hb | apply IH].
Qed.

(** *** The admission check *)

Definition rate_limit_exceeded : exn :=
  {| exn_kind := RateLimitError; exn_msg := "API rate limit exceeded" |}.

(** The events of a denied admission: the check, the time until reset [d],
    the capped sleep when [d] is positive, and the one re-check with its
    answer. *)
Definition denied_events (d : Z) (again : bool) : list event :=
  [EvCanMakeRequest false; EvTimeUntilReset d]
  ++ (if 0 <? d then [EvSleep (Micros (Z.min d (Clock.seconds 300)))] else [])
  ++ [EvCanMakeRequest again].

(** The world after the admission phase: tracker [t], [reads] more clock
    reads, events [evs]. *)
Definition checked (t : RateLimitTracker) (reads : nat) (evs : list event)
    (w : world) : world :=
  {| rate_limiter := t; cache := cache w;
     yahoo_client := yahoo_client w; client_setups := client_setups w;
     clock_reads := (reads + clock_reads w)%nat;
     provider_calls := provider_calls w;
     trace := trace w ++ evs |}.

Lemma can_make_request_m_spec e w :
  can_make_request_m e w
  = let c := can_make_request (clock e (clock_reads w)) (rate_limiter w) in
    (Ok (fst c), checked (snd c) 1 [EvCanMakeRequest (fst c)] w).
Proof.
  unfold can_make_request_m, bind, utcnow, get_rate_limiter.
  cbn [rate_limiter clock_reads]. cbv zeta.
  destruct (can_make_request (clock e (clock_reads w)) (rate_limiter w)) as [b t].
  reflexivity.
Qed.

Lemma time_until_reset_m_spec e w :
  time_until_reset_m e w
  = let d := time_until_reset (clock e (clock_reads w)) (rate_limiter w) in
    (Ok d, checked (rate_limiter w) 1 [EvTimeUntilReset d] w).
Proof. reflexivity. Qed.

Lemma checked_checked t1 n1 evs1 t2 n2 evs2 w :
  checked t2 n2 evs2 (checked t1 n1 evs1 w) = checked t2 (n2 + n1) (evs1 ++ evs2) w.
Proof. unfold checked; cbn. f_equal; [lia | by rewrite app_assoc]. Qed.

Lemma admission_spec e w :
  let c1 := can_make_request (clock e (clock_reads w)) (rate_limiter w) in
  let d := time_until_reset (clock e (S (clock_reads w))) (snd c1) in
  let c2 := can_make_request (clock e (S (S (clock_reads w)))) (snd c1) in
  admission e w
  = if fst c1 then (Ok tt, checked (snd c1) 1 [EvCanMakeRequest true] w)
    else ((if fst c2 then Ok tt else Raise rate_limit_exceeded),
          checked (snd c2) 3 (denied_events d (fst c2)) w).
Proof.
  intros c1 d c2. unfold admission.
  unfold bind at 1. rewrite can_make_request_m_spec. cbv zeta. fold c1.
  destruct (fst c1) eqn:Hb1; [reflexivity|].
  unfold bind at 1. rewrite time_until_reset_m_spec. cbv zeta.
  cbn [checked rate_limiter clock_reads Nat.add]. fold d.
  unfold bind at 1.
  assert (Hsleep :
    (if 0 <? d then sleep (Micros (Z.min d (Clock.seconds 300))) else ret tt) e
      (checked (snd c1) 1 [EvTimeUntilReset d] (checked (snd c1) 1 [EvCanMakeRequest false] w))
    = (Ok tt, checked (snd c1) 2
                ([EvCanMakeRequest false; EvTimeUntilReset d]
                 ++ (if 0 <? d then [EvSleep (Micros (Z.min d (Clock.seconds 300)))] else [])) w)).
  { destruct (0 <? d); unfold sleep, emit, ret, checked; cbn;
      rewrite <- ?app_assoc, ?app_nil_r; reflexivity. }
  unfold checked at 1 2 in Hsleep. cbn [rate_limiter clock_reads trace cache provider_calls Nat.add] in Hsleep.
  unfold checked at 1 2.  cbn [rate_limiter clock_reads trace cache provider_calls Nat.add].
  rewrite Hsleep.
  unfold bind. rewrite can_make_request_m_spec. cbv zeta.
  cbn [checked rate_limiter clock_reads Nat.add]. fold c2.
  unfold denied_events.
  destruct (fst c2); unfold ret, raise, checked; cbn; rewrite <- ?app_assoc; reflexivity.
Qed.
(** The admission phase makes no attempt and records nothing. *)
Lemma admission_trace e w r w1 :
  admission e w = (r, w1) ->
  provider_calls w1 = provider_calls w
  /\ exists adm, trace w1 = trace w ++ adm
       /\ count_events is_execute adm = O
       /\ count_events is_record adm = O.
Proof.
  rewrite admission_spec. cbv zeta.
  destruct (fst (can_make_request _ _)).
  - intros [= <- <-]. split; [done|]. by eexists.
  - intros [= <- <-]. split; [done|]. eexists. split; [done|].
    unfold denied_events. by destruct (0 <? _).
Qed.

Lemma count_execute_attempts req a n :
  count_events is_execute (attempts_events req a n) = n.
Proof.
  revert a. induction n as [|n IH]; intros a; [done|].
  cbn [attempts_events]. rewrite count_events_app, IH.
  unfold attempt_events. by destruct (0 <? a), (float_pow (backoff_factor req) a).
Qed.

Lemma count_record_attempts req a n :
  count_events is_record (attempts_events req a n) = O.
Proof.
  revert a. induction n as [|n IH]; intros a; [done|].
  cbn [attempts_events]. rewrite count_events_app, IH.
  unfold attempt_events. by destruct (0 <? a), (float_pow (backoff_factor req) a).
Qed.

Lemma attempts_events_later req (delay : Z -> float) a k :
  0 < a ->
  (forall i, a <= i < a + Z.of_nat k ->
             float_pow (backoff_factor req) i = Some (delay i)) ->
  attempts_events req a k
  = flat_map
      (fun a => [EvSleep (FloatSeconds (delay a)); EvExecute (endpoint req)])
      (seqZ a (Z.of_nat k)).
Proof.
  revert a. induction k as [|k IH]; intros a Ha Hd; [done|].
  rewrite (seqZ_cons a) by lia. cbn [attempts_events flat_map].
  unfold attempt_events. replace (0 <? a) with true by (symmetry; apply Z.ltb_lt; lia).
  rewrite (Hd a) by lia.
  cbn [app]. do 2 f_equal.
  replace (Z.pred (Z.of_nat (S k))) with (Z.of_nat k) by lia.
  replace (Z.succ a) with (a + 1) by lia. apply IH; [lia|].
  intros i Hi. apply Hd. lia.
Qed.

(** From the first attempt on: the call, then a sleep of
    [backoff_factor ** attempt] before the call of each later attempt. *)
Lemma attempts_events_from_0 req (delay : Z -> float) k :
  (forall a, 0 < a <= Z.of_nat k ->
             float_pow (backoff_factor req) a = Some (delay a)) ->
  attempts_events req 0 (S k)
  = EvExecute (endpoint req)
    :: flat_map
         (fun a => [EvSleep (FloatSeconds (delay a)); EvExecute (endpoint req)])
         (seqZ 1 (Z.of_nat k)).
Proof.
  intros Hd.
  cbn [attempts_events]. unfold attempt_events at 1. cbn [Z.ltb Z.compare app].
  f_equal. apply attempts_events_later; [lia|]. intros i Hi. apply Hd. lia.
Qed.

Lemma make_api_request_unfold req e w :
  _make_api_request req e w
  = let '(r, w') :=
      bind admission
        (fun _ => retry_loop req (seqZ 0 (max_retries req + 1)) None)
        e (logged [EvAcquire] w) in
    (r, logged [EvRelease] w').
Proof.
  unfold _make_api_request, bind at 1, emit, finally. cbn.
  fold (logged [EvAcquire] w).
  destruct (bind admission _ e (logged [EvAcquire] w)) as [r w']. reflexivity.
Qed.

(** Whether every attempt of a trace was preceded, since the attempt before
    it, by an admission check that was granted. *)
Fixpoint admitted_attempts (granted : bool) (tr : list event) : bool :=
  match tr with
  | [] => true
  | EvCanMakeRequest b :: tr' => admitted_attempts b tr'
  | EvExecute _ :: tr' => granted && admitted_attempts false tr'
  | _ :: tr' => admitted_attempts granted tr'
  end.

(** C2, as the code has it: when the limiter admits the call of a request
    the route can serve, the agent has its client or the set-up gives it
    one, the backoff delays are in range, and the provider fails
    transiently [k <= max_retries] times and then answers,
    [_make_api_request] returns the answer after [k + 1] attempts, and
    [record_request] has run exactly once, for the attempt that answered:
    a failed attempt is not recorded. *)
Theorem success_records_once req e w w1 (k : nat) v :
  routable req = true ->
  admission e (logged [EvAcquire] w) = (Ok tt, w1) ->
  client_ready e w1 = true ->
  delays_in_range req k ->
  Z.of_nat k <= max_retries req ->
  transient_failures e (provider_calls w1) k ->
  provider e (provider_calls w1 + k)%nat = Ok v ->
  exists evs,
    _make_api_request req e w
    = (Ok v, {| rate_limiter := record_request (rate_limiter w1);
                cache := cache w1;
                yahoo_client := true;
                client_setups := client_setups (with_client w1);
                clock_reads := clock_reads w1;
                provider_calls := (provider_calls w + S k)%nat;
                trace := trace w ++ evs |})
    /\ count_events is_execute evs = S k
    /\ count_events is_record evs = 1%nat.
Proof.
  intros Hr Hadm Hc Hd Hk Hf Hv.
  destruct (admission_trace _ _ _ _ Hadm) as [Hcalls [adm [Htr [Hex Hrec]]]].
  exists ([EvAcquire] ++ adm ++ attempts_events req 0 (S k) ++ [EvRecord; EvRelease]).
  split; [|split].
  - rewrite make_api_request_unfold. unfold bind. rewrite Hadm.
    rewrite (retry_loop_success req e w1 k v) by done.
    unfold recorded, called, logged, with_client.
    destruct (yahoo_client w1) eqn:Hy;
      cbn [rate_limiter cache yahoo_client client_setups clock_reads provider_calls trace];
      rewrite ?Hy, Htr, Hcalls; cbn [logged provider_calls trace];
      do 2 f_equal; rewrite <- !app_assoc; reflexivity.
  - rewrite !count_events_app, Hex, count_execute_attempts. cbn. lia.
  - rewrite !count_events_app, Hrec, count_record_attempts. reflexivity.
Qed.

(** C3, as the code has it: [_make_api_request] asks the limiter for
    admission once per call, before the first attempt; the retry loop that
    follows never asks again.  When admission is denied it reads the time
    until reset [d], sleeps [min d (5 minutes)] if [d] is positive, asks
    once more, and if denied again raises [RateLimitError] at once: no
    attempt is made and no provider call is spent. *)
Theorem admission_once_then_fail_fast req e w :
  let c1 := can_make_request (clock e (clock_reads w)) (rate_limiter w) in
  let d := time_until_reset (clock e (S (clock_reads w))) (snd c1) in
  let c2 := can_make_request (clock e (S (S (clock_reads w)))) (snd c1) in
  let retry := retry_loop req (seqZ 0 (max_retries req + 1)) None e in
  _make_api_request req e w
  = (if fst c1 then
       let '(r, w') :=
         retry (checked (snd c1) 1 [EvAcquire; EvCanMakeRequest true] w) in
       (r, logged [EvRelease] w')
     else if fst c2 then
       let '(r, w') :=
         retry (checked (snd c2) 3 (EvAcquire :: denied_events d true) w) in
       (r, logged [EvRelease] w')
     else
       (Raise rate_limit_exceeded,
        checked (snd c2) 3 (EvAcquire :: denied_events d false ++ [EvRelease]) w))
  /\ (forall w1, quiet w1 (snd (retry w1)))
  /\ (forall again us,
        In (EvSleep (Micros us)) (denied_events d again) ->
        0 < us /\ us <= d /\ us <= Clock.seconds 300).
Proof.
  intros c1 d c2 retry. split; [|split].
  - rewrite make_api_request_unfold. unfold bind.
    rewrite admission_spec. cbv zeta.
    cbn [logged rate_limiter clock_reads].
    fold c1. fold d. fold c2.
    destruct (fst c1).
    + assert (checked (snd c1) 1 [EvCanMakeRequest true] (logged [EvAcquire] w)
              = checked (snd c1) 1 [EvAcquire; EvCanMakeRequest true] w) as ->
        by (unfold checked, logged; cbn; by rewrite <- app_assoc).
      reflexivity.
    + destruct (fst c2).
      * assert (checked (snd c2) 3 (denied_events d true) (logged [EvAcquire] w)
                = checked (snd c2) 3 (EvAcquire :: denied_events d true) w) as ->
          by (unfold checked, logged; cbn; by rewrite <- app_assoc).
        reflexivity.
      * unfold checked, logged.
        cbn [rate_limiter cache clock_reads provider_calls trace].
        by rewrite <- !app_assoc.
  - intros w1. apply Quiet_retry_loop.
  - intros again us. unfold denied_events.
    destruct (0 <? d) eqn:Hd; cbn; intros Hin.
    + destruct Hin as [?|[?|[Heq|[?|[]]]]]; try discriminate.
      injection Heq as <-. apply Z.ltb_lt in Hd.
      unfold Clock.seconds. lia.
    + destruct Hin as [?|[?|[?|[]]]]; discriminate.
Qed.

(** C5: when the limiter admits the call of a request the route can serve,
    the agent has its client or the set-up gives it one, the backoff
    delays [backoff_factor ** attempt] are in range, and every attempt
    fails transiently, [_make_api_request] makes exactly [max_retries + 1]
    attempts, sleeping [backoff_factor ** attempt] before each attempt after
    the first, and raises the last transient error; and an error of the
    provider that is not transient, at attempt [k], is raised at once, after
    [k + 1] attempts, with no later sleep or attempt.  Nothing is recorded
    either way. *)
Theorem retries_then_last_error req e w w1 (m k : nat) x (delay : Z -> float) :
  routable req = true ->
  max_retries req = Z.of_nat m ->
  (k <= m)%nat ->
  admission e (logged [EvAcquire] w) = (Ok tt, w1) ->
  client_ready e w1 = true ->
  (forall a, 0 < a <= Z.of_nat k ->
             float_pow (backoff_factor req) a = Some (delay a)) ->
  transient_failures e (provider_calls w1) k ->
  provider e (provider_calls w1 + k)%nat = Raise x ->
  is_transient x = false \/ k = m ->
  let evs := attempts_events req 0 (S k) in
  _make_api_request req e w
  = (Raise x, logged (evs ++ [EvRelease]) (called (S k) (with_client w1)))
  /\ evs = EvExecute (endpoint req)
           :: flat_map
                (fun a => [EvSleep (FloatSeconds (delay a));
                           EvExecute (endpoint req)])
                (seqZ 1 (Z.of_nat k))
  /\ count_events is_execute evs = S k
  /\ count_events is_record evs = O.
Proof.
  intros Hr Hm Hk Hadm Hc Hd Hf Hx Hend evs. split; [|split; [|split]].
  - assert (Hend' : is_transient x = false \/ Z.of_nat k = max_retries req)
      by (destruct Hend as [? | ->]; [by left | by right]).
    assert (Hk' : Z.of_nat k <= max_retries req) by lia.
    assert (Hd' : delays_in_range req k).
    { intros a Ha. rewrite (Hd a Ha). by eexists. }
    rewrite make_api_request_unfold. unfold bind. rewrite Hadm.
    rewrite (retry_loop_failure req e w1 k x Hr Hc Hd' Hk' Hf Hx Hend').
    f_equal. subst evs. world_eq.
  - by apply attempts_events_from_0.
  - apply count_execute_attempts.
  - apply count_record_attempts.
Qed.

End ExecutorFacts.

(** *** Facts about the cached operations *)

(** The selection [get_user_team_key] is specified by: the first team
    flagged as owned by the current login, else (with a user GUID
    configured) the first team one of whose managers has that GUID, else
    the first team. *)
Section Selection.
Context {FL : PyFloat}.








End Selection.

Section OperationsFacts.
Context {FL : PyFloat} {CP : CachePort}.
Variable py_repr : pyval -> string.

Definition with_cache (c : cache_state) (w : world) : world :=
  {| rate_limiter := rate_limiter w; cache := c;
     yahoo_client := yahoo_client w; client_setups := client_setups w;
     clock_reads := clock_reads w; provider_calls := provider_calls w;
     trace := trace w |}.












(** *** The batch fetch *)























(** Whether the batch's deadline lets [n] tasks finish. *)
Definition deadline_allows (deadline : option nat) (n : nat) : bool :=
  match deadline with
  | None => true
  | Some m => (n <=? m)%nat
  end.

Definition league_tasks (league_keys : list string) (data_types : list string)
  : list (M pyval) :=
  (fun league_key => _fetch_league_data py_repr league_key data_types) <$> league_keys.



















End OperationsFacts.

(** *** Further facts about the executor *)

Ltac shape_eq :=
  unfold logged, recorded, called, checked;
  cbn [rate_limiter cache yahoo_client client_setups clock_reads provider_calls
         trace snd];
  f_equal; f_equal; try lia;
  rewrite <- ?app_assoc; cbn [app]; rewrite ?app_nil_r; reflexivity.

Section ExecutorMore.
Context {FL : PyFloat} {CP : CachePort}.

Definition is_gate (ev : event) : bool :=
  match ev with EvAcquire | EvRelease => true | _ => false end.

(** A step that leaves no event and touches neither the cache, the tracker
    nor the clock, and calls the client at most once. *)
Definition calls_at_most_once {A} (m : M A) : Prop :=
  forall e w,
    trace (snd (m e w)) = trace w
    /\ cache (snd (m e w)) = cache w
    /\ rate_limiter (snd (m e w)) = rate_limiter w
    /\ clock_reads (snd (m e w)) = clock_reads w
    /\ (provider_calls w <= provider_calls (snd (m e w)) <= S (provider_calls w))%nat.

(** The same without a call. *)
Definition inert {A} (m : M A) : Prop :=
  forall e w,
    trace (snd (m e w)) = trace w
    /\ cache (snd (m e w)) = cache w
    /\ rate_limiter (snd (m e w)) = rate_limiter w
    /\ clock_reads (snd (m e w)) = clock_reads w
    /\ provider_calls (snd (m e w)) = provider_calls w.

Lemma inert_ret {A} (a : A) : inert (ret a).
Proof. by intros e w. Qed.

Lemma inert_raise {A} x : inert (@raise _ _ A x).
Proof. by intros e w. Qed.

Lemma inert_param req k : inert (param req k).
Proof. unfold param. destruct (assoc k (params req)); [apply inert_ret | apply inert_raise]. Qed.

Lemma inert_split_tail v : inert (split_tail v).
Proof. unfold split_tail. destruct v; first [apply inert_ret | apply inert_raise]. Qed.

Lemma inert_ensure_client : inert ensure_client.
Proof.
  intros e w. unfold ensure_client.
  by destruct (yahoo_client w), (client_setup e (client_setups w)).
Qed.

Lemma inert_calls {A} (m : M A) : inert m -> calls_at_most_once m.
Proof.
  intros H e w. destruct (H e w) as (? & ? & ? & ? & Hp).
  repeat (split; [done|]). lia.
Qed.

Lemma calls_call_provider : calls_at_most_once call_provider.
Proof. intros e w. cbn. repeat (split; [done|]). lia. Qed.

Lemma calls_bind {A B} (m : M A) (k : A -> M B) :
  inert m -> (forall a, calls_at_most_once (k a)) -> calls_at_most_once (bind m k).
Proof.
  intros Hm Hk e w. unfold bind.
  destruct (Hm e w) as (Ht & Hc & Hl & Hr & Hp).
  destruct (m e w) as [[a|x] w1]; cbn [snd] in *.
  - destruct (Hk a e w1) as (Ht' & Hc' & Hl' & Hr' & Hp').
    repeat split; try congruence; lia.
  - repeat (split; [done|]). lia.
Qed.

(** An attempt leaves its mark in the trace and calls the client at most
    once: not at all when the set-up of the client or the route fails. *)
Lemma execute_shape req e w :
  let run := _execute_yahoo_request req e w in
  trace (snd run) = trace w ++ [EvExecute (endpoint req)]
  /\ cache (snd run) = cache w
  /\ rate_limiter (snd run) = rate_limiter w
  /\ clock_reads (snd run) = clock_reads w
  /\ (provider_calls w <= provider_calls (snd run) <= S (provider_calls w))%nat.
Proof.
  cbv zeta. unfold _execute_yahoo_request.
  match goal with
  | |- context [bind (emit ?ev) (fun _ => ?k)] => set (rest := k)
  end.
  assert (Hrest : calls_at_most_once rest).
  { subst rest. apply calls_bind; [apply inert_ensure_client|]. intros _.
    destruct (endpoint req);
      repeat first
        [ apply calls_call_provider
        | apply inert_calls, inert_raise
        | apply calls_bind; [apply inert_param | intros ?]
        | apply calls_bind; [apply inert_split_tail | intros ?] ]. }
  destruct (Hrest e (logged [EvExecute (endpoint req)] w)) as (Ht & Hc & Hl & Hr & Hp).
  change (bind (emit (EvExecute (endpoint req))) (fun _ => rest) e w)
    with (rest e (logged [EvExecute (endpoint req)] w)).
  repeat split; first [exact Ht | exact Hc | exact Hl | exact Hr | apply Hp].
Qed.

(** What a run leaves, event by event and in its counters. *)
Record footprint (w w' : world) (evs : list event) (calls : nat) : Prop := {
  fp_trace : trace w' = trace w ++ evs;
  fp_gate : count_events is_gate evs = O;
  fp_calls : provider_calls w' = (provider_calls w + calls)%nat;
  fp_attempts : (calls <= count_events is_execute evs)%nat;
  fp_cache : cache w' = cache w
}.

(** One pass of the loop's body: at most one attempt; a record exactly when
    it answers, and then on the tracker as it stood. *)
Lemma attempt_body_shape req a e w :
  let run := attempt_body req a e w in
  exists evs calls,
    footprint w (snd run) evs calls
    /\ (count_events is_execute evs <= 1)%nat
    /\ count_events is_record evs = (if is_ok (fst run) then 1%nat else O)
    /\ rate_limiter (snd run)
       = (if is_ok (fst run) then record_request (rate_limiter w)
          else rate_limiter w).
Proof.
  cbv zeta. destruct (attempt_body req a e w) as [r w'] eqn:Hrun.
  cbn [fst snd]. revert Hrun. unfold attempt_body, bind at 1.
  assert (Hpre : exists pre r,
    (if 0 <? a
     then bind (backoff_delay req a) (fun delay => sleep (FloatSeconds delay))
     else ret tt) e w = (r, logged pre w)
    /\ count_events is_gate pre = O
    /\ count_events is_execute pre = O
    /\ count_events is_record pre = O).
  { destruct (0 <? a).
    - unfold backoff_delay, bind, sleep, emit, ret, raise.
      destruct (float_pow (backoff_factor req) a) as [delay|].
      + exists [EvSleep (FloatSeconds delay)], (Ok tt). by repeat split.
      + eexists [], _. rewrite logged_nil. by repeat split.
    - exists [], (Ok tt). unfold ret. rewrite logged_nil. by repeat split. }
  destruct Hpre as (pre & r0 & -> & Hg & He & Hrec).
  destruct r0 as [[]|x].
  2:{ intros [= <- <-]. exists pre, O. cbn [is_ok].
      split; [|split; [lia | by split]].
      split; cbn; rewrite ?Nat.add_0_r; try done; lia. }
  unfold bind at 1.
  destruct (execute_shape req e (logged pre w)) as (Ht & Hc & Hl & Hr & Hp).
  cbv zeta in Ht, Hc, Hl, Hr, Hp.
  destruct (_execute_yahoo_request req e (logged pre w)) as [[v|x] w1];
    cbn [fst snd logged trace cache rate_limiter clock_reads provider_calls] in *.
  - unfold record_request_m, bind, get_rate_limiter, set_rate_limiter, emit, ret.
    intros [= <- <-].
    exists (pre ++ [EvExecute (endpoint req); EvRecord]),
      (provider_calls w1 - provider_calls w)%nat.
    cbn [is_ok trace cache rate_limiter clock_reads provider_calls].
    split; [split; cbn [trace cache provider_calls]|].
    + rewrite Ht, <- !app_assoc. reflexivity.
    + rewrite count_events_app, Hg. reflexivity.
    + lia.
    + rewrite count_events_app, He. cbn. lia.
    + done.
    + rewrite !count_events_app, He, Hrec, Hl. cbn. repeat split; lia.
  - intros [= <- <-].
    exists (pre ++ [EvExecute (endpoint req)]),
      (provider_calls w1 - provider_calls w)%nat.
    cbn [is_ok].
    split; [split; cbn [trace cache provider_calls]|].
    + rewrite Ht, <- !app_assoc. reflexivity.
    + rewrite count_events_app, Hg. reflexivity.
    + lia.
    + rewrite count_events_app, He. cbn. lia.
    + done.
    + rewrite !count_events_app, He, Hrec, Hl. cbn. repeat split; lia.
Qed.

(** What any run of the retry loop comes to. *)
Lemma retry_loop_shape req e (attempts : list Z) :
  forall last w,
    let run := retry_loop req attempts last e w in
    exists evs calls,
      footprint w (snd run) evs calls
      /\ (count_events is_execute evs <= length attempts)%nat
      /\ count_events is_record evs = (if is_ok (fst run) then 1%nat else O)
      /\ rate_limiter (snd run)
         = (if is_ok (fst run) then record_request (rate_limiter w)
            else rate_limiter w).
Proof.
  induction attempts as [|a rest IH]; intros last w; cbv zeta.
  - exists [], O. cbn. split; [|split; [lia | by split]].
    split; cbn; rewrite ?app_nil_r, ?Nat.add_0_r; done.
  - destruct (retry_loop req (a :: rest) last e w) as [r w'] eqn:Hrun.
    cbn [fst snd length]. revert Hrun. cbn [retry_loop].
    destruct (attempt_body_shape req a e w) as (evs1 & n1 & Hfp & He1 & Hr1 & Hl1).
    cbv zeta in Hfp, He1, Hr1, Hl1.
    destruct (attempt_body req a e w) as [[v|x] w1];
      cbn [fst snd is_ok] in *.
    { intros [= <- <-]. exists evs1, n1. cbn [is_ok].
      repeat split; try apply Hfp; try done; lia. }
    assert (Hstop : forall y,
              exists evs calls,
                footprint w w1 evs calls
                /\ (count_events is_execute evs <= S (length rest))%nat
                /\ count_events is_record evs
                   = (if is_ok (@Raise pyval y) then 1%nat else O)
                /\ rate_limiter w1
                   = (if is_ok (@Raise pyval y) then record_request (rate_limiter w)
                      else rate_limiter w)).
    { intros y. exists evs1, n1. cbn [is_ok].
      repeat split; try apply Hfp; try done; lia. }
    destruct (is_transient x); [|intros [= <- <-]; apply Hstop].
    destruct (a =? max_retries req);
      [unfold exhausted, raise; cbn [from_option id]; intros [= <- <-]; apply Hstop|].
    intros Hrun.
    destruct (IH (Some x) w1) as (evs2 & n2 & Hfp2 & He2 & Hr2 & Hl2).
    cbv zeta in Hfp2, He2, Hr2, Hl2. rewrite Hrun in Hfp2, Hr2, Hl2.
    cbn [fst snd] in Hfp2, Hr2, Hl2.
    destruct Hfp as [Ft Fg Fc Fa Fk]. destruct Hfp2 as [Ft2 Fg2 Fc2 Fa2 Fk2].
    exists (evs1 ++ evs2), (n1 + n2)%nat.
    rewrite !count_events_app, Hr1, Hr2, Hl2, Hl1.
    split; [|split; [lia | by split]].
    split; rewrite ?count_events_app; try lia; try congruence.
    by rewrite Ft2, Ft, app_assoc.
Qed.

(** The tracker [t] is what one or two admission checks make of [t0]. *)
Definition checked_from (t0 t : RateLimitTracker) : Prop :=
  exists now, t = snd (can_make_request now t0)
              \/ exists now', t = snd (can_make_request now'
                                         (snd (can_make_request now t0))).

Lemma seqZ_length a len : length (seqZ a len) = Z.to_nat len.
Proof. apply length_seqZ. Qed.

(** [_make_api_request] by the outcome of its admission phase. *)
Lemma admission_once_then_fail_fast_aux req e w :
  let c1 := can_make_request (clock e (clock_reads w)) (rate_limiter w) in
  let d := time_until_reset (clock e (S (clock_reads w))) (snd c1) in
  let c2 := can_make_request (clock e (S (S (clock_reads w)))) (snd c1) in
  let retry := retry_loop req (seqZ 0 (max_retries req + 1)) None e in
  _make_api_request req e w
  = (if fst c1 then
       let '(r, w') :=
         retry (checked (snd c1) 1 [EvAcquire; EvCanMakeRequest true] w) in
       (r, logged [EvRelease] w')
     else if fst c2 then
       let '(r, w') :=
         retry (checked (snd c2) 3 (EvAcquire :: denied_events d true) w) in
       (r, logged [EvRelease] w')
     else
       (Raise rate_limit_exceeded,
        checked (snd c2) 3 (EvAcquire :: denied_events d false ++ [EvRelease]) w)).
Proof.
  intros c1 d c2 retry.
  rewrite make_api_request_unfold. unfold bind.
  rewrite admission_spec. cbv zeta.
  cbn [logged rate_limiter clock_reads].
  fold c1. fold d. fold c2.
  destruct (fst c1).
  - assert (checked (snd c1) 1 [EvCanMakeRequest true] (logged [EvAcquire] w)
            = checked (snd c1) 1 [EvAcquire; EvCanMakeRequest true] w) as ->
      by (unfold checked, logged; cbn; by rewrite <- app_assoc).
    reflexivity.
  - destruct (fst c2).
    + assert (checked (snd c2) 3 (denied_events d true) (logged [EvAcquire] w)
              = checked (snd c2) 3 (EvAcquire :: denied_events d true) w) as ->
        by (unfold checked, logged; cbn; by rewrite <- app_assoc).
      reflexivity.
    + unfold checked, logged.
      cbn [rate_limiter cache yahoo_client client_setups clock_reads provider_calls trace].
      by rewrite <- !app_assoc.
Qed.

(** Every run of [_make_api_request], for whatever request, clock, client
    and provider: the gate is taken, the admission phase leaves the tracker
    [t], then at most [max_retries + 1] attempts are made, each calling the
    client at most once; an answer is recorded once on [t], a failure
    leaves [t] as it is; and the gate is released last. *)
Lemma make_api_request_shape req e w :
  let run := _make_api_request req e w in
  exists mid t (calls : nat),
    trace (snd run) = trace w ++ EvAcquire :: mid ++ [EvRelease]
    /\ count_events is_gate mid = O
    /\ (count_events is_execute mid <= Z.to_nat (max_retries req + 1))%nat
    /\ provider_calls (snd run) = (provider_calls w + calls)%nat
    /\ (calls <= count_events is_execute mid)%nat
    /\ count_events is_record mid = (if is_ok (fst run) then 1%nat else O)
    /\ cache (snd run) = cache w
    /\ checked_from (rate_limiter w) t
    /\ rate_limiter (snd run) = (if is_ok (fst run) then record_request t else t)
    /\ (is_ok (fst run) = true -> requests_made t < requests_per_window t).
Proof.
  cbv zeta.
  pose proof (admission_once_then_fail_fast_aux req e w) as Hrun.
  cbv zeta in Hrun.
  set (c1 := can_make_request (clock e (clock_reads w)) (rate_limiter w)) in *.
  set (d := time_until_reset (clock e (S (clock_reads w))) (snd c1)) in *.
  set (c2 := can_make_request (clock e (S (S (clock_reads w)))) (snd c1)) in *.
  assert (Hden : forall again,
            count_events is_gate (denied_events d again) = O
            /\ count_events is_execute (denied_events d again) = O
            /\ count_events is_record (denied_events d again) = O).
  { intros again. unfold denied_events. by destruct (0 <? d). }
  assert (Hgrant : forall now t0,
            fst (can_make_request now t0) = true ->
            requests_made (snd (can_make_request now t0))
            < requests_per_window (snd (can_make_request now t0))).
  { intros now t0. unfold can_make_request. cbn [fst snd]. apply Z.ltb_lt. }
  assert (Hloop : forall t reads adm,
            count_events is_gate adm = O ->
            count_events is_execute adm = O ->
            count_events is_record adm = O ->
            let run :=
              let '(r, w') :=
                retry_loop req (seqZ 0 (max_retries req + 1)) None e
                  (checked t reads (EvAcquire :: adm) w) in
              (r, logged [EvRelease] w') in
            exists mid (calls : nat),
              trace (snd run) = trace w ++ EvAcquire :: mid ++ [EvRelease]
              /\ count_events is_gate mid = O
              /\ (count_events is_execute mid <= Z.to_nat (max_retries req + 1))%nat
              /\ provider_calls (snd run) = (provider_calls w + calls)%nat
              /\ (calls <= count_events is_execute mid)%nat
              /\ count_events is_record mid = (if is_ok (fst run) then 1%nat else O)
              /\ cache (snd run) = cache w
              /\ rate_limiter (snd run)
                 = (if is_ok (fst run) then record_request t else t)).
  { intros t reads adm Hg He Hr. cbv zeta.
    destruct (retry_loop_shape req e (seqZ 0 (max_retries req + 1)) None
                (checked t reads (EvAcquire :: adm) w))
      as (evs & calls & [Ft Fg Fc Fa Fk] & Hle & Hrec & Hl).
    cbv zeta in Ft, Fg, Fc, Fa, Fk, Hle, Hrec, Hl.
    rewrite seqZ_length in Hle.
    destruct (retry_loop req (seqZ 0 (max_retries req + 1)) None e
                (checked t reads (EvAcquire :: adm) w)) as [r w'].
    cbn [fst snd logged trace cache rate_limiter provider_calls checked] in *.
    exists (adm ++ evs), calls.
    rewrite !count_events_app, Hg, He, Hr, Hrec, Fg.
    repeat split; try done; try lia.
    rewrite Ft. rewrite <- !app_assoc. reflexivity. }
  rewrite Hrun.
  destruct (fst c1) eqn:H1.
  - destruct (Hloop (snd c1) 1%nat [EvCanMakeRequest true])
      as (mid & calls & Hshape); [done..|].
    cbv zeta in Hshape. destruct Hshape as (? & ? & ? & ? & ? & ? & ? & ?).
    exists mid, (snd c1), calls.
    repeat (split; [done|]).
    split; [exists (clock e (clock_reads w)); by left|].
    split; [done|]. intros _. by apply Hgrant.
  - destruct (fst c2) eqn:H2.
    + destruct (Hden true) as (Hg & He & Hr).
      destruct (Hloop (snd c2) 3%nat (denied_events d true) Hg He Hr)
        as (mid & calls & Hshape).
      cbv zeta in Hshape. destruct Hshape as (? & ? & ? & ? & ? & ? & ? & ?).
      exists mid, (snd c2), calls.
      repeat (split; [done|]).
      split; [exists (clock e (clock_reads w)); right; by eexists|].
      split; [done|]. intros _. exact (Hgrant _ _ H2).
    + destruct (Hden false) as (Hg & He & Hr).
      exists (denied_events d false), (snd c2), O.
      cbn [fst snd is_ok checked trace cache rate_limiter provider_calls].
      rewrite Hg, He, Hr.
      repeat (split; [done || lia|]).
      split; [exists (clock e (clock_reads w)); right; by eexists|].
      split; [done|]. discriminate.
Qed.

(** Whatever the request, the clock and the provider do, the gate taken at
    the start of [_make_api_request] is released at its end, on the
    success path and on every failure path alike, and is not touched in
    between. *)
Theorem gate_always_released req e w :
  exists mid,
    trace (snd (_make_api_request req e w))
    = trace w ++ EvAcquire :: mid ++ [EvRelease]
    /\ count_events is_gate mid = O.
Proof.
  destruct (make_api_request_shape req e w) as (mid & t & calls & Ht & Hg & _).
  by exists mid.
Qed.

(** For every request and every behaviour of the provider, one call makes
    at most [max_retries + 1] attempts, each reaching the client at most
    once, records exactly one request when it returns an answer and none
    when it raises, and leaves the cache alone. *)
Theorem attempts_are_bounded req e w :
  let run := _make_api_request req e w in
  exists evs,
    trace (snd run) = trace w ++ evs
    /\ (count_events is_execute evs <= Z.to_nat (max_retries req + 1))%nat
    /\ (provider_calls (snd run) <= provider_calls w + count_events is_execute evs)%nat
    /\ count_events is_record evs = (if is_ok (fst run) then 1%nat else O)
    /\ cache (snd run) = cache w.
Proof.
  intros run. subst run.
  destruct (make_api_request_shape req e w)
    as (mid & t & calls & Ht & Hg & He & Hp & Hc & Hr & Hk & _).
  cbv zeta in Ht, He, Hp, Hc, Hr, Hk.
  exists (EvAcquire :: mid ++ [EvRelease]). split; [done|].
  change (EvAcquire :: mid ++ [EvRelease]) with ([EvAcquire] ++ mid ++ [EvRelease]).
  rewrite !count_events_app, Hr, Hp.
  change (count_events is_execute [EvAcquire]) with O.
  change (count_events is_execute [EvRelease]) with O.
  change (count_events is_record [EvAcquire]) with O.
  change (count_events is_record [EvRelease]) with O.
  repeat split; try done; try lia.
Qed.





(** With a negative [max_retries] the loop has no turn: an admitted call
    makes no attempt at all and raises the plain exception "API request
    failed". *)
Theorem negative_retries_make_no_attempt req e w w1 :
  max_retries req < 0 ->
  admission e (logged [EvAcquire] w) = (Ok tt, w1) ->
  _make_api_request req e w
  = (Raise {| exn_kind := OtherException; exn_msg := "API request failed" |},
     logged [EvRelease] w1).
Proof.
  intros Hmr Hadm.
  rewrite make_api_request_unfold. unfold bind. rewrite Hadm.
  by rewrite (seqZ_nil 0) by lia.
Qed.

End ExecutorMore.

(** *** Further facts about the player transformation *)

Section TransformMore.
Context {FL : PyFloat}.
Variable py_repr : pyval -> string.

(** An item assignment leaves the values under the other keys. *)
Lemma dict_lookup_dict_set_ne (d : list (pyval * pyval)) k k' v :
  k <> k' -> dict_lookup k (dict_set d k' v) = dict_lookup k d.
Proof.
  intros Hne. unfold dict_set. rewrite dict_lookup_app. cbn.
  destruct (String.eqb_spec k' k); [congruence | done].
Qed.

Lemma dict_lookup_dict_set_eq (d : list (pyval * pyval)) k v :
  dict_lookup k (dict_set d k v) = Some v.
Proof.
  unfold dict_set. rewrite dict_lookup_app. cbn. by rewrite String.eqb_refl.
Qed.

Ltac keeps_lookup :=
  repeat match goal with
         | |- dict_lookup _ (dict_set _ _ _) = _ =>
             rewrite dict_lookup_dict_set_ne by done
         | |- dict_lookup _ (if ?b then _ else _) = _ => destruct b
         | |- dict_lookup _ (match ?r with _ => _ end) = _ => destruct r
         end;
  try reflexivity.

Lemma with_ownership_lookup p info k :
  k <> "ownership_status" ->
  dict_lookup k (with_ownership p info) = dict_lookup k info.
Proof. intros H. unfold with_ownership. cbv zeta. keeps_lookup. Qed.

Lemma with_percent_owned_lookup p info k :
  k <> "percent_owned" ->
  dict_lookup k (with_percent_owned py_repr p info) = dict_lookup k info.
Proof. intros H. unfold with_percent_owned. cbv zeta. keeps_lookup. Qed.

Lemma with_bye_weeks_lookup p info k :
  k <> "bye_weeks" ->
  dict_lookup k (with_bye_weeks p info) = dict_lookup k info.
Proof. intros H. unfold with_bye_weeks. cbv zeta. keeps_lookup. Qed.

Lemma with_injury_lookup p info k :
  k <> "injury_status" -> k <> "injury_note" ->
  dict_lookup k (with_injury py_repr p info) = dict_lookup k info.
Proof. intros H1 H2. unfold with_injury. cbv zeta. keeps_lookup. Qed.

Lemma with_stats_lookup p info k :
  k <> "stats" ->
  dict_lookup k (with_stats py_repr p info) = dict_lookup k info.
Proof. intros H. unfold with_stats. cbv zeta. keeps_lookup. Qed.

Lemma with_projected_points_lookup p info info' k :
  k <> "projected_points" ->
  with_projected_points p info = Ok info' ->
  dict_lookup k info' = dict_lookup k info.
Proof.
  unfold with_projected_points. intros Hk Heq.
  destruct (_ && _).
  - destruct (attr _ _); cbn in Heq; [|discriminate].
    injection Heq as <-. by apply dict_lookup_dict_set_ne.
  - by injection Heq as <-.
Qed.

(** The keys the steps after the opening literal assign. *)
Definition later_keys : list string :=
  ["ownership_status"; "percent_owned"; "bye_weeks"; "injury_status";
   "injury_note"; "stats"; "projected_points"].

(** The values of the opening literal under [player_key], [name],
    [position], [team], [jersey_number] and [is_undroppable] are the values
    the body returns. *)
Lemma transform_body_lookup p info k :
  k ∉ later_keys ->
  transform_body py_repr p = Ok info ->
  dict_lookup k info
  = dict_lookup k (initial_player_info py_repr p (resolve_team p)).
Proof.
  unfold transform_body, later_keys. cbv zeta. intros Hk Heq.
  destruct (lookup_nfl_team _); cbn in Heq; [|discriminate].
  rewrite (with_projected_points_lookup _ _ _ k ltac:(intros ->; set_solver) Heq).
  rewrite with_stats_lookup by (intros ->; set_solver).
  rewrite with_injury_lookup by (intros ->; set_solver).
  rewrite with_bye_weeks_lookup by (intros ->; set_solver).
  rewrite with_percent_owned_lookup by (intros ->; set_solver).
  by rewrite with_ownership_lookup by (intros ->; set_solver).
Qed.



(** A team value passes the abbreviation lookup only when it is falsy or
    text. *)
Lemma lookup_nfl_team_ok v :
  lookup_nfl_team v = Ok tt ->
  truthy v = false \/ (exists s, v = VStr s) \/ (exists s, v = VBytes s).
Proof.
  unfold lookup_nfl_team. destruct (truthy v); [|by left].
  destruct v; try discriminate; intros _; right; eauto.
Qed.

Lemma to_float_is_float v y : to_float v = Ok y -> exists x, y = VFloat x.
Proof.
  unfold to_float.
  destruct v; try discriminate; try (intros [= <-]; eauto);
    (destruct (float_of_str _); [intros [= <-]; eauto | discriminate]).
Qed.

Lemma with_bye_weeks_is_list p info :
  exists weeks, dict_lookup "bye_weeks" (with_bye_weeks p info) = Some (VList weeks).
Proof.
  unfold with_bye_weeks. cbv zeta.
  destruct (_ && _); [|eexists; apply dict_lookup_dict_set_eq].
  destruct (getattr p "bye_weeks" VNone) eqn:Hbw;
    try (destruct (py_iter _) as [weeks|]; cbn [rbind];
         [unfold py_or; destruct (truthy (VList weeks))|];
         eexists; apply dict_lookup_dict_set_eq).
  eexists; apply dict_lookup_dict_set_eq.
Qed.

Lemma with_injury_status p info :
  exists status,
    dict_lookup "injury_status" (with_injury py_repr p info) = Some status
    /\ truthy status = true.
Proof.
  unfold with_injury. cbv zeta.
  destruct (hasattr p "status" && truthy (getattr p "status" VNone)) eqn:Hs.
  - apply andb_true_iff in Hs as [_ Hs].
    exists (getattr p "status" VNone). split; [|done].
    destruct (hasattr p "injury_note");
      rewrite ?dict_lookup_dict_set_ne by done; apply dict_lookup_dict_set_eq.
  - exists (VStr "Healthy"). split; [|done].
    destruct (hasattr p "injury_note");
      rewrite ?dict_lookup_dict_set_ne by done; apply dict_lookup_dict_set_eq.
Qed.

Lemma with_percent_owned_value p info :
  dict_lookup "percent_owned" info = Some VNone ->
  dict_lookup "percent_owned" (with_percent_owned py_repr p info) = Some VNone
  \/ exists x,
      dict_lookup "percent_owned" (with_percent_owned py_repr p info)
      = Some (VFloat x).
Proof.
  intros Hinit. unfold with_percent_owned. cbv zeta.
  destruct (is_none (getattr p "percent_owned" VNone)); [by left|].
  match goal with
  | |- context [match ?c with Ok _ => _ | Raise _ => _ end] =>
      destruct c as [y|] eqn:Hc
  end; rewrite dict_lookup_dict_set_eq; [|by left].
  revert Hc. destruct (number_like py_repr _).
  { intros Hc. destruct (to_float_is_float _ _ Hc) as [x ->]. right. eauto. }
  destruct (_ && _).
  { intros Hc. destruct (to_float_is_float _ _ Hc) as [x ->]. right. eauto. }
  intros [= <-]. by left.
Qed.

(** When the transformation succeeds, the dict holds a list under
    [bye_weeks], a non-empty status under [injury_status], [None] or a
    float under [percent_owned], and under [team] text or a falsy value. *)
Theorem transformed_fields_are_normalised (yahoo_player : pyval) player_info :
  transform_body py_repr yahoo_player = Ok player_info ->
  (exists weeks, dict_lookup "bye_weeks" player_info = Some (VList weeks))
  /\ (exists status, dict_lookup "injury_status" player_info = Some status
                     /\ truthy status = true)
  /\ (dict_lookup "percent_owned" player_info = Some VNone
      \/ exists x, dict_lookup "percent_owned" player_info = Some (VFloat x))
  /\ (exists team, dict_lookup "team" player_info = Some team
                   /\ (truthy team = false \/ (exists s, team = VStr s)
                       \/ (exists s, team = VBytes s))).
Proof.
  intros Hbody. split; [|split; [|split]].
  - revert Hbody. unfold transform_body. cbv zeta.
    destruct (lookup_nfl_team _); cbn [rbind]; [|discriminate]. intros Heq.
    rewrite (with_projected_points_lookup _ _ _ "bye_weeks" ltac:(done) Heq).
    rewrite with_stats_lookup by done.
    rewrite with_injury_lookup by done.
    apply with_bye_weeks_is_list.
  - revert Hbody. unfold transform_body. cbv zeta.
    destruct (lookup_nfl_team _); cbn [rbind]; [|discriminate]. intros Heq.
    rewrite (with_projected_points_lookup _ _ _ "injury_status" ltac:(done) Heq).
    rewrite with_stats_lookup by done.
    apply with_injury_status.
  - revert Hbody. unfold transform_body. cbv zeta.
    destruct (lookup_nfl_team _); cbn [rbind]; [|discriminate]. intros Heq.
    rewrite (with_projected_points_lookup _ _ _ "percent_owned" ltac:(done) Heq).
    rewrite with_stats_lookup by done.
    rewrite with_injury_lookup by done.
    rewrite with_bye_weeks_lookup by done.
    apply with_percent_owned_value.
    by rewrite with_ownership_lookup.
  - exists (resolve_team yahoo_player). split.
    + by rewrite (transform_body_lookup yahoo_player player_info "team"
                    ltac:(unfold later_keys; set_solver) Hbody).
    + revert Hbody. unfold transform_body. cbv zeta.
      destruct (lookup_nfl_team _) as [[]|] eqn:Hl; [|discriminate].
      intros _. by apply lookup_nfl_team_ok.
Qed.

End TransformMore.

(** *** Further facts about the operations *)

Section OperationsMore.
Context {FL : PyFloat} {CP : CachePort}.
Variable py_repr : pyval -> string.
Open Scope fetch_scope.



(** The four operations that read through the cache and raise on failure,
    with the key, the time to live and the tags each of them stores its
    result under. *)
Inductive operation :=
| UserLeagues (game_key : option string)
| Roster (league_key team_key : string) (week : option Z)
| LeagueTeams (league_key : string)
| AvailablePlayers (league_key : string) (position : option string)
    (status : string) (count : Z).

Definition perform (o : operation) : M pyval :=
  match o with
  | UserLeagues game_key => get_user_leagues game_key
  | Roster league_key team_key week => get_roster py_repr league_key team_key week
  | LeagueTeams league_key => get_league_teams league_key
  | AvailablePlayers league_key position status count =>
      get_available_players py_repr league_key position status count
  end.

Definition cache_key_of (o : operation) : string :=
  match o with
  | UserLeagues game_key => user_leagues_key game_key
  | Roster league_key team_key week => roster_key league_key team_key week
  | LeagueTeams league_key => league_teams_key league_key
  | AvailablePlayers league_key position status count =>
      available_players_key league_key position status count
  end.

Definition ttl_of (o : operation) : Z :=
  match o with
  | UserLeagues _ => Clock.hours 4
  | Roster _ _ _ => Clock.hours 2
  | LeagueTeams _ => Clock.hours 1
  | AvailablePlayers _ _ _ _ => Clock.minutes 30
  end.

Definition tags_of (o : operation) : list string :=
  match o with
  | UserLeagues _ => ["user_leagues"; "yahoo_api"]
  | Roster league_key _ _ => ["roster"; "yahoo_api"; "league:" +:+ league_key]
  | LeagueTeams league_key =>
      ["league_teams"; "yahoo_api"; "league:" +:+ league_key]
  | AvailablePlayers league_key _ _ _ =>
      ["available_players"; "yahoo_api"; "league:" +:+ league_key]
  end.

Lemma make_api_request_cache req e w :
  cache (snd (_make_api_request req e w)) = cache w.
Proof.
  destruct (make_api_request_shape req e w)
    as (mid & t & calls & _ & _ & _ & _ & _ & _ & Hcache & _).
  exact Hcache.
Qed.

Lemma perform_hit o e w :
  is_none (fst (cache_get (cache_key_of o) (cache w))) = false ->
  perform o e w
  = (Ok (fst (cache_get (cache_key_of o) (cache w))),
     with_cache (snd (cache_get (cache_key_of o) (cache w))) w).
Proof.
  intros Hhit.
  destruct o; cbn [perform cache_key_of] in *;
    unfold get_user_leagues, get_roster, get_league_teams, get_available_players,
      bind at 1, cache_manager_get;
    destruct (cache_get _ _) as [v c]; cbn [fst snd] in *; by rewrite Hhit.
Qed.

Ltac after_request Hreq :=
  match goal with
  | |- context [_make_api_request ?req ?e ?w0] =>
      pose proof (make_api_request_cache req e w0) as Hcache;
      destruct (_make_api_request req e w0) as [[data|x] w1] eqn:Hreq;
      cbn [snd cache] in Hcache
  end.

Lemma perform_miss_run o e w r w' :
  is_none (fst (cache_get (cache_key_of o) (cache w))) = true ->
  perform o e w = (r, w') ->
  match r with
  | Ok v =>
      is_none v = false
      /\ cache w'
         = cache_set (cache_key_of o) v (ttl_of o) (tags_of o)
             (snd (cache_get (cache_key_of o) (cache w)))
  | Raise _ => cache w' = snd (cache_get (cache_key_of o) (cache w))
  end.
Proof.
  intros Hmiss.
  destruct o; cbn [perform cache_key_of ttl_of tags_of] in *.
  - unfold get_user_leagues, bind at 1, cache_manager_get.
    destruct (cache_get _ _) as [v c]; cbn [fst snd] in *. rewrite Hmiss.
    cbn [negb]. unfold bind at 1. after_request Hreq; [|by intros [= <- <-]].
    unfold bind at 1. destruct (truthy data).
    + unfold bind at 1, lift. destruct (py_iter data); cbn.
      * intros [= <- <-]. by rewrite Hcache.
      * by intros [= <- <-].
    + cbn. intros [= <- <-]. by rewrite Hcache.
  - unfold get_roster, bind at 1, cache_manager_get.
    destruct (cache_get _ _) as [v c]; cbn [fst snd] in *. rewrite Hmiss.
    cbn [negb]. unfold bind at 1. after_request Hreq; [|by intros [= <- <-]].
    unfold bind at 1, utcnow. unfold bind at 1, ask. unfold bind at 1.
    unfold players_of.
    destruct (truthy data); [destruct (hasattr data "players")|].
    + unfold lift. destruct (py_iter _); cbn.
      * intros [= <- <-]. by rewrite Hcache.
      * by intros [= <- <-].
    + destruct data; cbn; intros [= <- <-]; by rewrite Hcache.
    + cbn. intros [= <- <-]. by rewrite Hcache.
  - unfold get_league_teams, bind at 1, cache_manager_get.
    destruct (cache_get _ _) as [v c]; cbn [fst snd] in *. rewrite Hmiss.
    cbn [negb]. unfold bind at 1. after_request Hreq; [|by intros [= <- <-]].
    unfold bind at 1. destruct (truthy data).
    + unfold bind at 1, lift. destruct (py_iter data); cbn.
      * intros [= <- <-]. by rewrite Hcache.
      * by intros [= <- <-].
    + cbn. intros [= <- <-]. by rewrite Hcache.
  - unfold get_available_players, bind at 1, cache_manager_get.
    destruct (cache_get _ _) as [v c]; cbn [fst snd] in *. rewrite Hmiss.
    cbn [negb]. unfold bind at 1. after_request Hreq; [|by intros [= <- <-]].
    unfold bind at 1.
    assert (Hplayers : exists r, players_of data e w1 = (r, w1)).
    { unfold players_of, lift, ret.
      destruct (truthy data); [destruct (hasattr data "players")|]; eauto.
      destruct data; eauto. }
    destruct Hplayers as [[players|x] ->]; [|by intros [= <- <-]].
    unfold bind at 1, lift.
    destruct (available_loop py_repr position players); cbn.
    + intros [= <- <-]. by rewrite Hcache.
    + by intros [= <- <-].
Qed.

Lemma perform_miss o e w :
  is_none (fst (cache_get (cache_key_of o) (cache w))) = true ->
  match fst (perform o e w) with
  | Ok v =>
      is_none v = false
      /\ cache (snd (perform o e w))
         = cache_set (cache_key_of o) v (ttl_of o) (tags_of o)
             (snd (cache_get (cache_key_of o) (cache w)))
  | Raise _ =>
      cache (snd (perform o e w)) = snd (cache_get (cache_key_of o) (cache w))
  end.
Proof.
  intros Hmiss. destruct (perform o e w) as [r w'] eqn:Hrun.
  exact (perform_miss_run o e w r w' Hmiss Hrun).
Qed.

(** Each of [get_user_leagues], [get_roster], [get_league_teams] and
    [get_available_players] reads through the cache: a stored value other
    than [None] is returned as it is, with no other effect; on a miss a
    result is stored under the operation's key with its time to live and
    tags and is never [None], and a failure stores nothing. *)
Theorem operations_read_through_the_cache (o : operation) (e : env) (w : world) :
  let looked := cache_get (cache_key_of o) (cache w) in
  let run := perform o e w in
  (is_none (fst looked) = false ->
   run = (Ok (fst looked), with_cache (snd looked) w))
  /\ (is_none (fst looked) = true ->
      match fst run with
      | Ok v =>
          is_none v = false
          /\ cache (snd run)
             = cache_set (cache_key_of o) v (ttl_of o) (tags_of o) (snd looked)
      | Raise _ => cache (snd run) = snd looked
      end).
Proof.
  cbv zeta. split; [apply perform_hit | apply perform_miss].
Qed.

(** Round trip: when a miss has produced a result and the cache gives
    back what was stored, the next call of the same operation returns that
    result from the cache, whatever the provider would answer now, without
    an admission check, an attempt or a clock read. *)
Theorem second_call_is_served_from_cache (o : operation) (e e' : env)
    (w w' : world) (v : pyval) :
  is_none (fst (cache_get (cache_key_of o) (cache w))) = true ->
  perform o e w = (Ok v, w') ->
  fst (cache_get (cache_key_of o) (cache w')) = v ->
  perform o e' w'
  = (Ok v, with_cache (snd (cache_get (cache_key_of o) (cache w'))) w').
Proof.
  intros Hmiss Hrun Hlaw.
  pose proof (perform_miss o e w Hmiss) as Hm. rewrite Hrun in Hm.
  cbn [fst snd] in Hm. destruct Hm as [Hv _].
  rewrite <- Hlaw at 1. apply perform_hit. by rewrite Hlaw.
Qed.


(** A data type other than [available_players] is a [pass] in the loop of
    [_fetch_league_data]. *)
Lemma fetch_data_types_pass league_key data_types :
  forall league_data e w,
    "available_players" ∉ data_types ->
    fetch_data_types py_repr league_key data_types league_data e w
    = (Ok league_data, w).
Proof.
  induction data_types as [|dt rest IH]; intros league_data e w Hnot; [done|].
  cbn [fetch_data_types]. unfold bind at 1.
  assert (Hdt : fetch_data_type py_repr league_key dt league_data e w
                = (Ok league_data, w)).
  { unfold fetch_data_type, try_catch.
    destruct (String.eqb dt "roster"); [done|].
    destruct (String.eqb dt "standings"); [done|].
    destruct (String.eqb_spec dt "available_players"); [|done].
    subst dt. set_solver. }
  rewrite Hdt. apply IH. set_solver.
Qed.

(** For data types that do not include [available_players], hence for the
    default [roster] and [standings], [_fetch_league_data] fetches nothing:
    it returns the dict with the league's key alone and has no effect at
    all, on the cache, the tracker, the provider or the trace. *)
Theorem stub_data_types_fetch_nothing (league_key : string)
    (data_types : list string) (e : env) (w : world) :
  "available_players" ∉ data_types ->
  _fetch_league_data py_repr league_key data_types e w
  = (Ok (VDict [(VStr "league_key", VStr league_key)]), w).
Proof.
  intros Hnot. unfold _fetch_league_data, bind.
  by rewrite fetch_data_types_pass.
Qed.

Lemma gather_pass league_keys data_types :
  "available_players" ∉ data_types ->
  forall deadline e w,
    deadline_allows deadline (length league_keys) = true ->
    gather deadline (league_tasks py_repr league_keys data_types) e w
    = (Ok ((fun k => Ok (VDict [(VStr "league_key", VStr k)])) <$> league_keys), w).
Proof.
  intros Hnot.
  induction league_keys as [|key rest IH]; intros deadline e w Hd; [done|].
  cbn [league_tasks fmap list_fmap gather].
  assert (Hd' : deadline_allows (pred <$> deadline) (length rest) = true).
  { destruct deadline as [[|m]|]; cbn in *; done. }
  assert (Hgo : forall X (a b : X),
             match deadline with Some O => a | _ => b end = b).
  { intros. by destruct deadline as [[|m]|]. }
  rewrite Hgo. unfold _fetch_league_data at 1, bind at 1.
  rewrite fetch_data_types_pass by done. unfold ret at 1.
  fold (league_tasks py_repr rest data_types). by rewrite (IH _ e w Hd').
Qed.

(** A batch fetch with the default data types, or with any that leave out
    [available_players], asks nothing of the provider or the cache: within
    its deadline it returns, for each league, the dict with the league's
    key alone, and only the wait itself is in the trace. *)
Theorem default_batch_fetches_nothing (league_keys : list string)
    (data_types : option (list string)) (e : env) (w : world) :
  "available_players" ∉ default ["roster"; "standings"] data_types ->
  deadline_allows (deadline_after e) (length league_keys) = true ->
  fetch_multiple_leagues_data py_repr league_keys data_types e w
  = (Ok (collect league_keys
           ((fun k => Ok (VDict [(VStr "league_key", VStr k)])) <$> league_keys)),
     logged [EvWaitFor (async_timeout_seconds e * Z.of_nat (length league_keys))] w).
Proof.
  intros Hnot Hd.
  unfold fetch_multiple_leagues_data. cbv zeta.
  unfold bind at 1, ask. unfold bind at 1, emit. unfold bind at 1.
  fold (league_tasks py_repr league_keys (default ["roster"; "standings"] data_types)).
  by rewrite gather_pass.
Qed.

(** What the loop of [get_available_players] keeps. *)
Definition kept_player (requested_pos : option string) (player_info : pyval) : Prop :=
  exists entries,
    player_info = VDict entries
    /\ (exists x, dict_lookup "projected_points" entries = Some (VFloat x))
    /\ (exists own, ownership_lower player_info = Ok own
                    /\ is_free_agent own = true)
    /\ (str_or requested_pos EmptyString <> EmptyString ->
        dict_lookup "position" entries
        = Some (VStr (str_or requested_pos EmptyString))).

Lemma to_float_float v y : to_float v = Ok y -> exists x, y = VFloat x.
Proof.
  unfold to_float.
  destruct v; try discriminate; try (intros [= <-]; eauto);
    (destruct (float_of_str _); [intros [= <-]; eauto | discriminate]).
Qed.

(** Every player [get_available_players] keeps is a free agent (its
    ownership status, lowered, is one of the five accepted texts), has the
    requested position when one was requested, and carries a float under
    [projected_points]; the players kept are no more than those given. *)
Theorem available_players_are_filtered (requested_pos : option string)
    (players available : list pyval) :
  available_loop py_repr requested_pos players = Ok available ->
  Forall (kept_player requested_pos) available
  /\ (length available <= length players)%nat.
Proof.
  revert available.
  induction players as [|player rest IH]; intros available.
  - intros [= <-]. split; [constructor | done].
  - cbn [available_loop]. cbv zeta.
    unfold _transform_yahoo_player.
    set (info := match transform_body py_repr player with
                 | Ok player_info => player_info
                 | Raise e => minimal_player_info player e
                 end).
    assert (Hinfo : match transform_body py_repr player with
                    | Ok player_info => VDict player_info
                    | Raise e => VDict (minimal_player_info player e)
                    end = VDict info).
    { subst info. by destruct (transform_body py_repr player). }
    rewrite Hinfo. cbn [py_get rbind].
    destruct (negb (String.eqb (str_or requested_pos EmptyString) EmptyString)
              && negb (eq_str (from_option id VNone (dict_lookup "position" info))
                         (str_or requested_pos EmptyString))) eqn:Hpos.
    { intros Hrest. destruct (IH _ Hrest). split; [done | cbn; lia]. }
    destruct (ownership_lower (VDict info)) as [own|] eqn:Hown; cbn [rbind];
      [|discriminate].
    destruct (is_free_agent own) eqn:Hfree.
    2:{ intros Hrest. destruct (IH _ Hrest). split; [done | cbn; lia]. }
    destruct (available_loop py_repr requested_pos rest) as [tl|] eqn:Hrest;
      cbn [rbind]; [|discriminate].
    intros [= <-]. destruct (IH _ eq_refl) as [Hall Hlen].
    split; [|cbn; lia]. constructor; [|done].
    eexists. split; [reflexivity|]. split; [|split].
    + rewrite dict_lookup_dict_set_eq.
      destruct (to_float _) as [y|] eqn:Hy; [|eauto].
      destruct (to_float_float _ _ Hy) as [x ->]. eauto.
    + exists own. split; [|done].
      revert Hown. unfold ownership_lower, py_get. cbn [rbind].
      by rewrite dict_lookup_dict_set_ne.
    + intros Hwanted. rewrite dict_lookup_dict_set_ne by done.
      apply andb_false_iff in Hpos as [Hpos|Hpos].
      * apply negb_false_iff, String.eqb_eq in Hpos. done.
      * apply negb_false_iff in Hpos. unfold eq_str, key_is in Hpos.
        destruct (dict_lookup "position" info) as [[]|]; cbn in Hpos;
          try discriminate.
        by apply String.eqb_eq in Hpos as ->.
Qed.

End OperationsMore.

(** *** The cache key of a request: [_generate_cache_key] *)

Section CacheKey.
Context {FL : PyFloat}.
Variable py_repr : pyval -> string.

(** [hashlib.md5(s.encode()).hexdigest()], a function of the text alone. *)
Variable md5_hexdigest : string -> string.

(** The order [sorted] puts the items of a dict in: by their keys, which
    are text and differ from one another, so that no two values are ever
    compared. *)
Definition item_le (p q : string * pyval) : Prop := String.leb p.1 q.1 = true.

#[local] Instance item_le_dec : RelDecision item_le.
Proof. intros p q. unfold item_le. apply _. Defined.

(** [sep.join(parts)] *)
Fixpoint join (sep : string) (parts : list string) : string :=
  match parts with
  | [] => EmptyString
  | [part] => part
  | part :: rest => part +:+ sep +:+ join sep rest
  end.

(** [_generate_cache_key]; [params] are the items of the dict in the order
    they were inserted. *)
Definition _generate_cache_key (endpoint : string) (params : list (string * pyval))
  : string :=
  let sorted_params := merge_sort item_le params in
  let param_string :=
    join "&" ((fun kv => kv.1 +:+ "=" +:+ py_str py_repr kv.2) <$> sorted_params) in
  let full_string := endpoint +:+ "?" +:+ param_string in
  md5_hexdigest full_string.

Lemma string_leb_trans (s1 s2 s3 : string) :
  String.leb s1 s2 = true -> String.leb s2 s3 = true -> String.leb s1 s3 = true.
Proof.
  unfold String.leb. revert s2 s3.
  induction s1 as [|a s1 IH]; intros [|b s2] [|c s3]; cbn; try done.
  unfold Ascii.compare.
  destruct (N.compare_spec (N_of_ascii a) (N_of_ascii b)) as [Hab|Hab|Hab];
    destruct (N.compare_spec (N_of_ascii b) (N_of_ascii c)) as [Hbc|Hbc|Hbc];
    destruct (N.compare_spec (N_of_ascii a) (N_of_ascii c)) as [Hac|Hac|Hac];
    try done; try lia; apply IH.
Qed.

#[local] Instance item_le_total : Total item_le.
Proof. intros p q. apply String.leb_total. Qed.

#[local] Instance item_le_trans : Transitive item_le.
Proof. intros p q r. apply string_leb_trans. Qed.

(** In the items of a dict a key stands for one item. *)
Lemma unique_key (items : list (string * pyval)) :
  NoDup items.*1 ->
  forall p q, p ∈ items -> q ∈ items -> p.1 = q.1 -> p = q.
Proof.
  induction items as [|a items IH]; intros Hnd p q Hp Hq Hk.
  { by apply elem_of_nil in Hp. }
  cbn in Hnd. apply NoDup_cons in Hnd as [Hna Hnd].
  apply elem_of_cons in Hp as [-> | Hp]; apply elem_of_cons in Hq as [-> | Hq].
  - done.
  - exfalso. apply Hna. rewrite Hk. by apply list_elem_of_fmap_2.
  - exfalso. apply Hna. rewrite <- Hk. by apply list_elem_of_fmap_2.
  - by apply IH.
Qed.

Lemma sorted_items_unique (params params' : list (string * pyval)) :
  NoDup params.*1 ->
  params ≡ₚ params' ->
  merge_sort item_le params = merge_sort item_le params'.
Proof.
  intros Hnd Hperm.
  apply (Sorted_unique_strong item_le).
  - intros p q Hp Hq Hpq Hqp.
    rewrite merge_sort_Permutation in Hp.
    rewrite merge_sort_Permutation, <- Hperm in Hq.
    apply (unique_key params Hnd p q Hp Hq).
    by apply String.leb_antisym.
  - apply Sorted_merge_sort, _.
  - apply Sorted_merge_sort, _.
  - by rewrite !merge_sort_Permutation.
Qed.

(** The cache key does not depend on the order in which the parameters
    were put into the dict: two dicts with the same items give the same
    key for the same endpoint. *)
Theorem cache_key_ignores_parameter_order (endpoint : string)
    (params params' : list (string * pyval)) :
  NoDup params.*1 ->
  params ≡ₚ params' ->
  _generate_cache_key endpoint params = _generate_cache_key endpoint params'.
Proof.
  intros Hnd Hperm. unfold _generate_cache_key. cbv zeta.
  by rewrite (sorted_items_unique params params' Hnd Hperm).
Qed.

End CacheKey.

(** *** Worked runs *)

Import Sample.

(** A cache that is a finite map and never expires. *)
#[export] Instance MapCache : CachePort (FL := Sample.QFloat) := {|
  cache_state := gmap string pyval;
  cache_get := fun key c => (default VNone (c !! key), c);
  cache_set := fun key v _ _ c => <[key := v]> c
|}.

Definition sample_repr (v : pyval) : string := "<object>".

Definition sample_tracker : RateLimitTracker :=
  {| requests_per_window := 2; window_seconds := 3600;
     requests_made := 0; window_start := 0 |}.

Definition sample_world : world :=
  {| rate_limiter := sample_tracker; cache := ∅;
     yahoo_client := false; client_setups := 0;
     clock_reads := 0; provider_calls := 0; trace := [] |}.

Definition timed_out : exn := {| exn_kind := TimeoutError; exn_msg := "timed out" |}.

(** A clock that advances one second per read. *)
Definition ticking (n : nat) : Z := Clock.seconds (Z.of_nat n).

(** A provider whose first call times out and whose later calls answer. *)
Definition flaky_env : env :=
  {| clock := ticking;
     provider := fun n => match n with O => Raise timed_out | _ => Ok (VList []) end;
     client_setup := fun _ => None;
     isoformat := fun t => pretty t;
     YAHOO_GUID := None;
     async_timeout_seconds := 30;
     deadline_after := None |}.

(** A provider every call of which times out. *)
Definition down_env : env :=
  {| clock := ticking;
     provider := fun _ => Raise timed_out;
     client_setup := fun _ => None;
     isoformat := fun t => pretty t;
     YAHOO_GUID := None;
     async_timeout_seconds := 30;
     deadline_after := None |}.

Definition sample_request : APIRequest :=
  new_request USER_LEAGUES [("game_key", VStr "nfl")].

Definition admitted (e : env) : world :=
  snd (admission e (logged [EvAcquire] sample_world)).

Lemma success_records_once_witness :
  exists evs,
    _make_api_request sample_request flaky_env sample_world
    = (Ok (VList []),
       {| rate_limiter := record_request (rate_limiter (admitted flaky_env));
          cache := cache (admitted flaky_env);
          yahoo_client := true;
          client_setups := client_setups (with_client (admitted flaky_env));
          clock_reads := clock_reads (admitted flaky_env);
          provider_calls := (provider_calls sample_world + 2)%nat;
          trace := trace sample_world ++ evs |})
    /\ count_events is_execute evs = 2%nat
    /\ count_events is_record evs = 1%nat.
Proof.
  apply (success_records_once sample_request flaky_env sample_world
           (admitted flaky_env) 1 (VList [])).
  - reflexivity.
  - reflexivity.
  - reflexivity.
  - intros a Ha. by eexists.
  - cbn. lia.
  - intros i Hi. exists timed_out. destruct i as [|i]; [split; reflexivity | lia].
  - reflexivity.
Defined.

(** The claim of C2 asks for [k + 1] records after [k] transient failures;
    here [k = 1], the call succeeds at the second attempt, and one request
    is recorded, not two. *)
Lemma failed_attempt_is_not_recorded :
  let run := _make_api_request sample_request flaky_env sample_world in
  provider flaky_env 0 = Raise timed_out
  /\ is_transient timed_out = true
  /\ provider flaky_env 1 = Ok (VList [])
  /\ 1 < max_retries sample_request
  /\ fst run = Ok (VList [])
  /\ count_events is_execute (trace (snd run)) = 2%nat
  /\ count_events is_record (trace (snd run)) = 1%nat
  /\ requests_made (rate_limiter (snd run)) = 1
  /\ count_events is_record (trace (snd run)) <> (1 + 1)%nat.
Proof. cbv zeta. repeat split; try reflexivity; vm_compute; congruence. Qed.

(** The claim of C3 asks for an admission check before each attempt; here
    the second attempt follows the first with a sleep and no check. *)
Lemma retry_attempt_skips_admission :
  let run := _make_api_request sample_request flaky_env sample_world in
  trace (snd run)
  = [EvAcquire; EvCanMakeRequest true; EvExecute USER_LEAGUES;
     EvSleep (FloatSeconds (Qpower (float_of_Z 2) 1));
     EvExecute USER_LEAGUES; EvRecord; EvRelease]
  /\ count_events is_execute (trace (snd run)) = 2%nat
  /\ count_events is_admission_check (trace (snd run)) = 1%nat
  /\ admitted_attempts false (trace (snd run)) = false.
Proof. cbv zeta. repeat split; reflexivity. Qed.

Lemma retries_then_last_error_witness :
  let evs := attempts_events sample_request 0 4 in
  _make_api_request sample_request down_env sample_world
  = (Raise timed_out,
     logged (evs ++ [EvRelease]) (called 4 (with_client (admitted down_env))))
  /\ evs = EvExecute (endpoint sample_request)
           :: flat_map
                (fun a =>
                   [EvSleep (FloatSeconds (Qpower (backoff_factor sample_request) a));
                    EvExecute (endpoint sample_request)])
                (seqZ 1 (Z.of_nat 3))
  /\ count_events is_execute evs = 4%nat
  /\ count_events is_record evs = O.
Proof.
  apply (retries_then_last_error sample_request down_env sample_world
           (admitted down_env) 3 3 timed_out
           (fun a => Qpower (backoff_factor sample_request) a)).
  - reflexivity.
  - reflexivity.
  - lia.
  - reflexivity.
  - reflexivity.
  - intros a Ha. reflexivity.
  - intros i Hi. exists timed_out. split; reflexivity.
  - reflexivity.
  - right. reflexivity.
Defined.

(** A tracker at its capacity, early in its window: admission is denied,
    the wait is capped at five minutes, the re-check is denied, and the
    call fails at once with no attempt made. *)
Definition full_world : world :=
  {| rate_limiter :=
       {| requests_per_window := 2; window_seconds := 3600;
          requests_made := 2; window_start := 0 |};
     cache := ∅; yahoo_client := false; client_setups := 0;
     clock_reads := 0; provider_calls := 0; trace := [] |}.

Example rate_limited_call_fails_fast :
  let run := _make_api_request sample_request flaky_env full_world in
  fst run = Raise rate_limit_exceeded
  /\ trace (snd run)
     = [EvAcquire; EvCanMakeRequest false;
        EvTimeUntilReset (Clock.seconds 3599);
        EvSleep (Micros (Clock.seconds 300));
        EvCanMakeRequest false; EvRelease]
  /\ provider_calls (snd run) = O.
Proof. cbv zeta. repeat split; reflexivity. Qed.

Definition sample_leagues : list string := ["nfl.l.1"; "nfl.l.2"].


(** With the provider down, each league's dict carries the failure of its
    own [available_players] fetch, and the batch still returns both. *)
Example batch_keeps_each_failure :
  fst (fetch_multiple_leagues_data sample_repr sample_leagues
         (Some ["roster"; "available_players"]) down_env sample_world)
  = Ok (collect sample_leagues
          [Ok (VDict [(VStr "league_key", VStr "nfl.l.1");
                      (VStr "available_players", error_entry timed_out)]);
           Ok (VDict [(VStr "league_key", VStr "nfl.l.2");
                      (VStr "available_players", error_entry timed_out)])]).
Proof. reflexivity. Qed.

(** The same identifier given twice fills one entry. *)
Example batch_repeated_key :
  exists league_data,
    fst (fetch_multiple_leagues_data sample_repr ["nfl.l.1"; "nfl.l.1"] None
           down_env sample_world) = Ok league_data
    /\ size league_data = 1%nat.
Proof. eexists. split; reflexivity. Qed.




(** Two teams as the provider gives them, the second flagged as owned. *)
Definition two_teams : pyval :=
  VList
    [ VObj [("team_key", VStr "nfl.l.1.t.1"); ("name", VStr "Aces");
            ("managers", VList [VObj [("guid", VStr "GUID1")]])];
      VObj [("team_key", VStr "nfl.l.1.t.2"); ("name", VBytes "Bolts");
            ("is_owned_by_current_login", VBool true);
            ("managers", VList [VObj [("guid", VStr "GUID2")]])] ].

Definition teams_env (guid : option string) : env :=
  {| clock := ticking;
     provider := fun _ => Ok two_teams;
     client_setup := fun _ => None;
     isoformat := fun t => pretty t;
     YAHOO_GUID := guid;
     async_timeout_seconds := 30;
     deadline_after := None |}.


(** Without the flag the configured GUID decides, and without a GUID the
    first team is taken. *)
Definition unflagged_teams : pyval :=
  VList
    [ VObj [("team_key", VStr "nfl.l.1.t.1");
            ("managers", VList [VObj [("guid", VStr "GUID1")]])];
      VObj [("team_key", VStr "nfl.l.1.t.2");
            ("is_owned_by_current_login", VInt 1);
            ("managers", VList [VObj [("guid", VStr "GUID2")]])] ].

Definition unflagged_env (guid : option string) : env :=
  {| clock := ticking;
     provider := fun _ => Ok unflagged_teams;
     client_setup := fun _ => None;
     isoformat := fun t => pretty t;
     YAHOO_GUID := guid;
     async_timeout_seconds := 30;
     deadline_after := None |}.

Example user_team_key_fallbacks :
  fst (get_user_team_key "nfl.l.1" (unflagged_env (Some "GUID2")) sample_world)
  = Ok (VStr "nfl.l.1.t.2")
  /\ fst (get_user_team_key "nfl.l.1" (unflagged_env None) sample_world)
     = Ok (VStr "nfl.l.1.t.1")
  /\ fst (get_user_team_key "nfl.l.1" down_env sample_world) = Ok VNone.
Proof. repeat split; vm_compute; reflexivity. Qed.

(** A player object with a numeric team, on whose [upper] the body fails:
    the minimal dict comes back. *)
Example transform_failure_is_caught :
  _transform_yahoo_player sample_repr
    (VObj [("player_key", VStr "nfl.p.1"); ("editorial_team_abbr", VInt 7)])
  = VDict [(VStr "player_key", VStr "nfl.p.1");
           (VStr "name", VStr "Unknown Player");
           (VStr "position", VStr EmptyString);
           (VStr "team", VStr EmptyString);
           (VStr "error", VStr "upper")].
Proof. reflexivity. Qed.

Example transform_of_a_player :
  _transform_yahoo_player sample_repr
    (VObj [("player_key", VStr "nfl.p.2");
           ("name", VObj [("first", VStr "Pat"); ("last", VStr "Lee")]);
           ("display_position", VStr "QB");
           ("editorial_team_abbr", VStr "KC");
           ("percent_owned", VObj [("value", VStr "97.5")])])
  = VDict [(VStr "player_key", VStr "nfl.p.2");
           (VStr "name", VStr "Pat Lee");
           (VStr "position", VStr "QB");
           (VStr "team", VStr "KC");
           (VStr "jersey_number", VNone);
           (VStr "bye_weeks", VNone);
           (VStr "is_undroppable", VBool false);
           (VStr "ownership_status", VNone);
           (VStr "percent_owned", VNone);
           (VStr "percent_owned", VFloat (195 # 2)%Q);
           (VStr "bye_weeks", VList []);
           (VStr "injury_status", VStr "Healthy")].
Proof. reflexivity. Qed.

(** The request [get_injury_report] makes when it is given no league: the
    key is [None], its split fails at the first attempt, which is not
    retried and never reaches the client. *)
Definition keyless_request : APIRequest :=
  new_request AVAILABLE_PLAYERS
    [("league_key", VNone); ("count", VInt 25);
     ("position", VNone); ("status", VStr "A")].

Example keyless_request_is_not_retried :
  let run := _make_api_request keyless_request down_env sample_world in
  fst run = Raise {| exn_kind := AttributeError; exn_msg := "split" |}
  /\ count_events is_execute (trace (snd run)) = 1%nat
  /\ count_events is_sleep (trace (snd run)) = O
  /\ provider_calls (snd run) = O.
Proof. cbv zeta. repeat apply conj; reflexivity. Qed.

(** An agent whose client cannot be set up: the first attempt fails with
    [AuthenticationError], which is not retried, and the agent is left
    without a client. *)
Definition locked_env : env :=
  {| clock := ticking;
     provider := fun _ => Ok (VList []);
     client_setup := fun _ => Some "no token";
     isoformat := fun t => pretty t;
     YAHOO_GUID := None;
     async_timeout_seconds := 30;
     deadline_after := None |}.

Example failed_set_up_ends_the_call :
  let run := _make_api_request sample_request locked_env sample_world in
  fst run = Raise {| exn_kind := AuthenticationError;
                     exn_msg := "Yahoo API authentication failed: no token" |}
  /\ count_events is_execute (trace (snd run)) = 1%nat
  /\ provider_calls (snd run) = O
  /\ yahoo_client (snd run) = false
  /\ client_setups (snd run) = 1%nat.
Proof. cbv zeta. repeat apply conj; reflexivity. Qed.

(** *** Worked runs of the further facts *)




(** A request built with a negative number of retries. *)
Definition no_attempt_request : APIRequest :=
  {| endpoint := USER_LEAGUES; params := []; attempt_field := 0;
     max_retries := -1; backoff_factor := float_of_Z 2; timeout := 30 |}.

Lemma negative_retries_witness :
  _make_api_request no_attempt_request flaky_env sample_world
  = (Raise {| exn_kind := OtherException; exn_msg := "API request failed" |},
     logged [EvRelease] (admitted flaky_env)).
Proof.
  apply (negative_retries_make_no_attempt no_attempt_request flaky_env sample_world
           (admitted flaky_env)).
  - reflexivity.
  - reflexivity.
Defined.

Definition sample_player : pyval :=
  VObj [("player_key", VStr "nfl.p.2");
        ("name", VObj [("first", VStr "Pat"); ("last", VStr "Lee")]);
        ("display_position", VStr "QB");
        ("editorial_team_abbr", VStr "KC");
        ("bye_weeks", VObj [("week", VInt 10)]);
        ("status", VStr "Q");
        ("percent_owned", VObj [("value", VStr "97.5")])].

Lemma transformed_fields_witness :
  exists player_info,
    transform_body sample_repr sample_player = Ok player_info
    /\ (exists weeks, dict_lookup "bye_weeks" player_info = Some (VList weeks))
    /\ (exists status, dict_lookup "injury_status" player_info = Some status
                       /\ truthy status = true)
    /\ (dict_lookup "percent_owned" player_info = Some VNone
        \/ exists x, dict_lookup "percent_owned" player_info = Some (VFloat x))
    /\ (exists team, dict_lookup "team" player_info = Some team
                     /\ (truthy team = false \/ (exists s, team = VStr s)
                         \/ (exists s, team = VBytes s))).
Proof.
  eexists. split; [reflexivity|].
  apply (transformed_fields_are_normalised sample_repr sample_player).
  reflexivity.
Defined.

Lemma second_call_witness :
  exists v w',
    perform sample_repr (LeagueTeams "nfl.l.1") (teams_env None) sample_world
    = (Ok v, w')
    /\ perform sample_repr (LeagueTeams "nfl.l.1") down_env w'
       = (Ok v,
          with_cache
            (snd (cache_get (cache_key_of (LeagueTeams "nfl.l.1")) (cache w'))) w').
Proof.
  assert (Hok : is_ok (fst (perform sample_repr (LeagueTeams "nfl.l.1")
                              (teams_env None) sample_world)) = true)
    by reflexivity.
  assert (Hmiss : is_none (fst (cache_get (cache_key_of (LeagueTeams "nfl.l.1"))
                                  (cache sample_world))) = true)
    by reflexivity.
  destruct (perform sample_repr (LeagueTeams "nfl.l.1") (teams_env None) sample_world)
    as [[v|x] w'] eqn:Hrun; [|discriminate].
  exists v, w'. split; [reflexivity|].
  apply (second_call_is_served_from_cache sample_repr (LeagueTeams "nfl.l.1")
           (teams_env None) down_env sample_world w' v Hmiss Hrun).
  destruct (perform_miss_run sample_repr _ _ _ _ _ Hmiss Hrun) as [_ ->].
  cbn [cache_get cache_set MapCache fst snd]. by rewrite lookup_insert_eq.
Defined.

Lemma stub_data_types_witness :
  _fetch_league_data sample_repr "nfl.l.1" ["roster"; "standings"] down_env sample_world
  = (Ok (VDict [(VStr "league_key", VStr "nfl.l.1")]), sample_world).
Proof.
  apply (stub_data_types_fetch_nothing sample_repr "nfl.l.1" ["roster"; "standings"]
           down_env sample_world).
  set_solver.
Defined.

Lemma default_batch_witness :
  fetch_multiple_leagues_data sample_repr sample_leagues None down_env sample_world
  = (Ok (collect sample_leagues
           ((fun k => Ok (VDict [(VStr "league_key", VStr k)])) <$> sample_leagues)),
     logged [EvWaitFor (async_timeout_seconds down_env
                        * Z.of_nat (length sample_leagues))] sample_world).
Proof.
  apply (default_batch_fetches_nothing sample_repr sample_leagues None down_env
           sample_world).
  - cbn. set_solver.
  - reflexivity.
Defined.

(** A running back on a team's roster, next to the free quarterback. *)
Definition owned_player : pyval :=
  VObj [("player_key", VStr "nfl.p.3");
        ("display_position", VStr "RB");
        ("ownership", VObj [("ownership_type", VStr "team")])].

Lemma available_players_witness :
  exists available,
    available_loop sample_repr (Some "QB") [sample_player; owned_player] = Ok available
    /\ Forall (kept_player (Some "QB")) available
    /\ (length available <= 2)%nat.
Proof.
  eexists. split; [reflexivity|].
  apply (available_players_are_filtered sample_repr (Some "QB")
           [sample_player; owned_player]).
  reflexivity.
Defined.

Lemma cache_key_witness :
  _generate_cache_key sample_repr (fun s => s) "roster"
    [("week", VInt 3); ("league_key", VStr "nfl.l.1")]
  = _generate_cache_key sample_repr (fun s => s) "roster"
      [("league_key", VStr "nfl.l.1"); ("week", VInt 3)].
Proof.
  apply (cache_key_ignores_parameter_order sample_repr (fun s => s) "roster"
           [("week", VInt 3); ("league_key", VStr "nfl.l.1")]
           [("league_key", VStr "nfl.l.1"); ("week", VInt 3)]).
  - cbn. repeat constructor; set_solver.
  - apply perm_swap.
Defined.

(** The key of the sample request, with the digest left out. *)
Example cache_key_of_a_request :
  _generate_cache_key sample_repr (fun s => s) "roster"
    [("week", VInt 3); ("league_key", VStr "nfl.l.1")]
  = "roster?league_key=nfl.l.1&week=3".
Proof. reflexivity. Qed.

End Fetcher.

(** ** The token manager: [AutoTokenManager] *)

Module TokenManager.

(** [YahooTokens] *)
Record YahooTokens := {
  access_token : string;
  refresh_token : string;
  token_type : string;
  expires_at : Z;
  scope : string
}.

(** [AuthState] *)
Inductive AuthState :=
| UNAUTHENTICATED
| AUTHENTICATED
| TOKEN_EXPIRED
| REFRESH_FAILED.

Inductive level := Debug | Info | Warning | Error.

(** What the refresh endpoint answers: new tokens, or the text of the
    exception it raises. *)
Inductive refresh_outcome :=
| Refreshed (new_tokens : YahooTokens)
| RefreshError (msg : string).

(** The inputs of a run: the clock at its n-th read ([datetime.now()]), the
    endpoint's answer to the n-th refresh, [float(s)] on a timestamp (in
    microseconds, [None] for [ValueError]), [str(time.time())], and
    whether the [.env] file and the launcher's config can be written. *)
Record env := {
  clock : nat -> Z;
  refresh_endpoint : nat -> refresh_outcome;
  parse_timestamp : string -> option Z;
  show_timestamp : Z -> string;
  env_file_writable : bool;
  claude_config_writable : bool
}.

(** The manager with what it acts on: its own fields, those of its
    [YahooAuth], the process environment, the stored tokens, the launcher's
    config (absent, without an entry for this server, or with the entry's
    [env]), the background loops alive, and the log. *)
Record manager := {
  refresh_buffer_minutes : Z;
  check_interval_seconds : Z;
  tokens : option YahooTokens;
  auth_state : AuthState;
  _running : bool;
  _background_task : option nat;
  last_refresh_time : option Z;
  refresh_count : Z;
  last_error : option string;
  os_environ : gmap string string;
  stored_tokens : option YahooTokens;
  claude_config : option (option (gmap string string));
  live_loops : list nat;
  tasks_created : nat;
  clock_reads : nat;
  refresh_calls : nat;
  seconds_slept : Z;
  log : list (level * string)
}.

Definition set_tokens (t : option YahooTokens) (s : AuthState) (m : manager) : manager :=
  {| refresh_buffer_minutes := refresh_buffer_minutes m;
     check_interval_seconds := check_interval_seconds m;
     tokens := t; auth_state := s;
     _running := _running m; _background_task := _background_task m;
     last_refresh_time := last_refresh_time m; refresh_count := refresh_count m;
     last_error := last_error m; os_environ := os_environ m;
     stored_tokens := stored_tokens m; claude_config := claude_config m;
     live_loops := live_loops m; tasks_created := tasks_created m;
     clock_reads := clock_reads m; refresh_calls := refresh_calls m;
     seconds_slept := seconds_slept m; log := log m |}.

Definition set_last_error (err : option string) (m : manager) : manager :=
  {| refresh_buffer_minutes := refresh_buffer_minutes m;
     check_interval_seconds := check_interval_seconds m;
     tokens := tokens m; auth_state := auth_state m;
     _running := _running m; _background_task := _background_task m;
     last_refresh_time := last_refresh_time m; refresh_count := refresh_count m;
     last_error := err; os_environ := os_environ m;
     stored_tokens := stored_tokens m; claude_config := claude_config m;
     live_loops := live_loops m; tasks_created := tasks_created m;
     clock_reads := clock_reads m; refresh_calls := refresh_calls m;
     seconds_slept := seconds_slept m; log := log m |}.

Definition logger (l : level) (msg : string) (m : manager) : manager :=
  {| refresh_buffer_minutes := refresh_buffer_minutes m;
     check_interval_seconds := check_interval_seconds m;
     tokens := tokens m; auth_state := auth_state m;
     _running := _running m; _background_task := _background_task m;
     last_refresh_time := last_refresh_time m; refresh_count := refresh_count m;
     last_error := last_error m; os_environ := os_environ m;
     stored_tokens := stored_tokens m; claude_config := claude_config m;
     live_loops := live_loops m; tasks_created := tasks_created m;
     clock_reads := clock_reads m; refresh_calls := refresh_calls m;
     seconds_slept := seconds_slept m; log := log m ++ [(l, msg)] |}.

(** [datetime.now()] *)
Definition now (e : env) (m : manager) : Z * manager :=
  (clock e (clock_reads m),
   {| refresh_buffer_minutes := refresh_buffer_minutes m;
      check_interval_seconds := check_interval_seconds m;
      tokens := tokens m; auth_state := auth_state m;
      _running := _running m; _background_task := _background_task m;
      last_refresh_time := last_refresh_time m; refresh_count := refresh_count m;
      last_error := last_error m; os_environ := os_environ m;
      stored_tokens := stored_tokens m; claude_config := claude_config m;
      live_loops := live_loops m; tasks_created := tasks_created m;
      clock_reads := S (clock_reads m); refresh_calls := refresh_calls m;
      seconds_slept := seconds_slept m; log := log m |}).

Definition set_files (environ : gmap string string)
    (config : option (option (gmap string string))) (m : manager) : manager :=
  {| refresh_buffer_minutes := refresh_buffer_minutes m;
     check_interval_seconds := check_interval_seconds m;
     tokens := tokens m; auth_state := auth_state m;
     _running := _running m; _background_task := _background_task m;
     last_refresh_time := last_refresh_time m; refresh_count := refresh_count m;
     last_error := last_error m; os_environ := environ;
     stored_tokens := stored_tokens m; claude_config := config;
     live_loops := live_loops m; tasks_created := tasks_created m;
     clock_reads := clock_reads m; refresh_calls := refresh_calls m;
     seconds_slept := seconds_slept m; log := log m |}.

Definition set_tracking (time : option Z) (count : Z) (m : manager) : manager :=
  {| refresh_buffer_minutes := refresh_buffer_minutes m;
     check_interval_seconds := check_interval_seconds m;
     tokens := tokens m; auth_state := auth_state m;
     _running := _running m; _background_task := _background_task m;
     last_refresh_time := time; refresh_count := count;
     last_error := last_error m; os_environ := os_environ m;
     stored_tokens := stored_tokens m; claude_config := claude_config m;
     live_loops := live_loops m; tasks_created := tasks_created m;
     clock_reads := clock_reads m; refresh_calls := refresh_calls m;
     seconds_slept := seconds_slept m; log := log m |}.

Definition set_task (running : bool) (task : option nat) (live : list nat)
    (created : nat) (m : manager) : manager :=
  {| refresh_buffer_minutes := refresh_buffer_minutes m;
     check_interval_seconds := check_interval_seconds m;
     tokens := tokens m; auth_state := auth_state m;
     _running := running; _background_task := task;
     last_refresh_time := last_refresh_time m; refresh_count := refresh_count m;
     last_error := last_error m; os_environ := os_environ m;
     stored_tokens := stored_tokens m; claude_config := claude_config m;
     live_loops := live; tasks_created := created;
     clock_reads := clock_reads m; refresh_calls := refresh_calls m;
     seconds_slept := seconds_slept m; log := log m |}.

Definition add_sleep (s : Z) (m : manager) : manager :=
  {| refresh_buffer_minutes := refresh_buffer_minutes m;
     check_interval_seconds := check_interval_seconds m;
     tokens := tokens m; auth_state := auth_state m;
     _running := _running m; _background_task := _background_task m;
     last_refresh_time := last_refresh_time m; refresh_count := refresh_count m;
     last_error := last_error m; os_environ := os_environ m;
     stored_tokens := stored_tokens m; claude_config := claude_config m;
     live_loops := live_loops m; tasks_created := tasks_created m;
     clock_reads := clock_reads m; refresh_calls := refresh_calls m;
     seconds_slept := seconds_slept m + s; log := log m |}.

Definition count_refresh_call (m : manager) : manager :=
  {| refresh_buffer_minutes := refresh_buffer_minutes m;
     check_interval_seconds := check_interval_seconds m;
     tokens := tokens m; auth_state := auth_state m;
     _running := _running m; _background_task := _background_task m;
     last_refresh_time := last_refresh_time m; refresh_count := refresh_count m;
     last_error := last_error m; os_environ := os_environ m;
     stored_tokens := stored_tokens m; claude_config := claude_config m;
     live_loops := live_loops m; tasks_created := tasks_created m;
     clock_reads := clock_reads m; refresh_calls := S (refresh_calls m);
     seconds_slept := seconds_slept m; log := log m |}.

(** An environment variable that is set and not empty. *)
Definition getenv_truthy (m : manager) (name : string) : option string :=
  match os_environ m !! name with
  | Some v => if String.eqb v EmptyString then None else Some v
  | None => None
  end.

(** [_load_tokens_from_env] *)
Definition _load_tokens_from_env (e : env) (m : manager) : manager :=
  match getenv_truthy m "YAHOO_ACCESS_TOKEN", getenv_truthy m "YAHOO_REFRESH_TOKEN" with
  | Some access, Some refresh =>
      let '(expiry, m1) :=
        match getenv_truthy m "YAHOO_TOKEN_TIME" with
        | Some token_time =>
            match parse_timestamp e token_time with
            | Some token_timestamp => (token_timestamp + Clock.seconds 3600, m)
            | None => let '(t, m') := now e m in (t + Clock.hours 1, m')
            end
        | None => let '(t, m') := now e m in (t + Clock.hours 1, m')
        end in
      let '(t, m2) := now e m1 in
      let state := if t <? expiry then AUTHENTICATED else TOKEN_EXPIRED in
      logger Info "Loaded tokens from environment"
        (set_tokens
           (Some {| access_token := access; refresh_token := refresh;
                    token_type := "Bearer"; expires_at := expiry;
                    scope := "fspt-r" |})
           state m2)
  | _, _ => m
  end.

(** Modelled from the spec: [YahooAuth._load_tokens], whose source is not
    part of the repository's files at hand.  The spec has the check "load
    Credentials from persisted storage if none held in memory; if still
    none, report no tokens (Auth State -> UNAUTHENTICATED)". *)
Definition _load_tokens (e : env) (m : manager) : manager :=
  match tokens m with
  | Some _ => m
  | None =>
      match stored_tokens m with
      | Some t =>
          let '(t_now, m1) := now e m in
          set_tokens (Some t)
            (if t_now <? expires_at t then AUTHENTICATED else TOKEN_EXPIRED) m1
      | None => set_tokens None UNAUTHENTICATED m
      end
  end.

(** ["invalid_grant" in str(e).lower()] *)
Definition is_invalid_grant (msg : string) : bool :=
  Str.contains "invalid_grant" (Str.lower msg).

(** Modelled from the spec: [YahooAuth.refresh_tokens], whose source is not
    part of the repository's files at hand.  The spec has: on success the
    Credentials are replaced and Auth State -> AUTHENTICATED; on failure
    they are not replaced, a permanent-invalidation signal giving Auth
    State -> REFRESH_FAILED and a transient failure staying TOKEN_EXPIRED.
    The permanent signal is read off the exception's text as the manager
    reads it. *)
Definition refresh_tokens (e : env) (m : manager)
  : (YahooTokens + string) * manager :=
  let m1 := count_refresh_call m in
  match refresh_endpoint e (refresh_calls m) with
  | Refreshed new_tokens =>
      (inl new_tokens, set_tokens (Some new_tokens) AUTHENTICATED m1)
  | RefreshError msg =>
      (inr msg,
       set_tokens (tokens m1)
         (if is_invalid_grant msg then REFRESH_FAILED else TOKEN_EXPIRED) m1)
  end.

(** [_should_refresh_token] *)
Definition _should_refresh_token (e : env) (t : option YahooTokens) (m : manager)
  : bool * manager :=
  match t with
  | None => (false, m)
  | Some t =>
      let '(t_now, m1) := now e m in
      let time_until_expiry := expires_at t - t_now in
      let refresh_threshold := Clock.minutes (refresh_buffer_minutes m) in
      (time_until_expiry <=? refresh_threshold, m1)
  end.

(** [_update_env_file]: a failure is logged and goes no further. *)
Definition _update_env_file (e : env) (t : YahooTokens) (m : manager) : manager :=
  if env_file_writable e then
    let '(t_now, m1) := now e m in
    let environ :=
      <["YAHOO_TOKEN_TIME" := show_timestamp e t_now]>
        (<["YAHOO_REFRESH_TOKEN" := refresh_token t]>
           (<["YAHOO_ACCESS_TOKEN" := access_token t]> (os_environ m1))) in
    logger Debug "Updated .env file with new tokens"
      (set_files environ (claude_config m1) m1)
  else logger Error "Failed to update .env file" m.

(** [_update_claude_config]: a failure is logged and goes no further. *)
Definition _update_claude_config (e : env) (t : YahooTokens) (m : manager) : manager :=
  match claude_config m with
  | None => logger Debug "No Claude config file found, skipping update" m
  | Some None => m
  | Some (Some server_env) =>
      if claude_config_writable e then
        logger Debug "Updated Claude config with new tokens"
          (set_files (os_environ m)
             (Some (Some (<["YAHOO_REFRESH_TOKEN" := refresh_token t]>
                            (<["YAHOO_ACCESS_TOKEN" := access_token t]> server_env))))
             m)
      else logger Error "Failed to update Claude config" m
  end.

(** [_check_and_refresh_tokens] *)
Definition _check_and_refresh_tokens (e : env) (m : manager) : bool * manager :=
  let m1 := match tokens m with
            | None => _load_tokens_from_env e m
            | Some _ => m
            end in
  let m2 := _load_tokens e m1 in
  match tokens m2 with
  | None =>
      (false,
       set_last_error (Some "No tokens found")
         (logger Warning "No tokens found - manual authentication required" m2))
  | Some held =>
      let '(needs_refresh, m3) := _should_refresh_token e (Some held) m2 in
      if needs_refresh then
        let m4 := logger Info "Token needs refresh - refreshing automatically" m3 in
        match refresh_tokens e m4 with
        | (inl new_tokens, m5) =>
            let m6 := _update_env_file e new_tokens m5 in
            let m7 := _update_claude_config e new_tokens m6 in
            let '(t_now, m8) := now e m7 in
            let m9 :=
              set_last_error None
                (set_tracking (Some t_now) (refresh_count m8 + 1) m8) in
            (true, logger Info "Tokens refreshed successfully" m9)
        | (inr msg, m5) =>
            let m6 :=
              set_last_error (Some ("Refresh failed: " +:+ msg))
                (logger Error "Failed to refresh tokens" m5) in
            let m7 :=
              if is_invalid_grant msg then
                set_last_error (Some "Refresh token expired - manual auth required")
                  (logger Warning
                     "Refresh token expired - manual re-authentication required" m6)
              else m6 in
            (false, m7)
        end
      else
        let '(_, m4) := now e m3 in
        (true, logger Debug "Token is valid" m4)
  end.

(** The wait between two checks: one-second sleeps up to the interval, as
    long as the manager is running. *)
Definition wait_for_next_check (m : manager) : manager :=
  if _running m then add_sleep (Z.max 0 (check_interval_seconds m)) m else m.

(** [_background_loop], for at most [cycles] turns of its [while]. *)
Fixpoint _background_loop (cycles : nat) (e : env) (m : manager) : manager :=
  match cycles with
  | O => m
  | S cycles' =>
      if _running m then
        let m1 := snd (_check_and_refresh_tokens e m) in
        _background_loop cycles' e (wait_for_next_check m1)
      else m
  end.

(** [start] *)
Definition start (e : env) (m : manager) : manager :=
  if _running m then logger Warning "AutoTokenManager is already running" m
  else
    let task := tasks_created m in
    let m1 := set_task true (Some task) (task :: live_loops m) (S task) m in
    let m2 := snd (_check_and_refresh_tokens e m1) in
    logger Info "AutoTokenManager started" m2.

(** [stop] *)
Definition stop (m : manager) : manager :=
  if negb (_running m) then m
  else
    let live :=
      match _background_task m with
      | Some task => List.filter (fun t => negb (t =? task)%nat) (live_loops m)
      | None => live_loops m
      end in
    logger Info "AutoTokenManager stopped"
      (set_task false (_background_task m) live (tasks_created m) m).

(** [force_refresh] *)
Definition force_refresh (e : env) (m : manager) : bool * manager :=
  _check_and_refresh_tokens e (logger Info "Forcing token refresh" m).

(** [AutoTokenManager(settings, refresh_buffer_minutes, check_interval_seconds)] *)
Definition new_manager (buffer interval : Z) (environ : gmap string string)
    (stored : option YahooTokens)
    (config : option (option (gmap string string))) : manager :=
  {| refresh_buffer_minutes := buffer; check_interval_seconds := interval;
     tokens := None; auth_state := UNAUTHENTICATED;
     _running := false; _background_task := None;
     last_refresh_time := None; refresh_count := 0; last_error := None;
     os_environ := environ; stored_tokens := stored; claude_config := config;
     live_loops := []; tasks_created := O; clock_reads := O; refresh_calls := O;
     seconds_slept := 0; log := [(Info, "AutoTokenManager initialized")] |}.

(** *** Facts about the token manager *)

(** What [start] and [stop] own of the manager. *)
Definition task_state (m : manager) : bool * option nat * list nat * nat :=
  (_running m, _background_task m, live_loops m, tasks_created m).

Ltac keep_task_state :=
  repeat match goal with
         | |- context [match ?x with _ => _ end] =>
             lazymatch x with
             | context [match _ with _ => _ end] => fail
             | _ => destruct x
             end
         end;
  reflexivity.

Ltac task_state_eq :=
  unfold task_state in *; cbn in *;
  repeat match goal with
         | H : (_, _) = (_, _) |- _ => injection H as ? ?
         end;
  congruence.

Lemma load_tokens_from_env_task_state e m :
  task_state (_load_tokens_from_env e m) = task_state m.
Proof. unfold _load_tokens_from_env, now. keep_task_state. Qed.

Lemma load_tokens_task_state e m : task_state (_load_tokens e m) = task_state m.
Proof. unfold _load_tokens, now. keep_task_state. Qed.

Lemma update_env_file_task_state e t m :
  task_state (_update_env_file e t m) = task_state m.
Proof. unfold _update_env_file, now. keep_task_state. Qed.

Lemma update_claude_config_task_state e t m :
  task_state (_update_claude_config e t m) = task_state m.
Proof. unfold _update_claude_config. keep_task_state. Qed.

(** A check leaves the running flag and the background loops alone. *)
Lemma check_task_state e m :
  task_state (snd (_check_and_refresh_tokens e m)) = task_state m.
Proof.
  unfold _check_and_refresh_tokens. cbv zeta.
  set (m1 := match tokens m with None => _ | Some _ => m end).
  assert (H1 : task_state m1 = task_state m).
  { subst m1. destruct (tokens m); [done | apply load_tokens_from_env_task_state]. }
  pose proof (load_tokens_task_state e m1) as H2.
  destruct (tokens (_load_tokens e m1)) as [held|]; [|task_state_eq].
  unfold _should_refresh_token, now. cbv zeta.
  destruct (_ <=? _).
  - unfold refresh_tokens. cbv zeta.
    destruct (refresh_endpoint e _) as [new_tokens|msg].
    + unfold now. cbn [snd].
      match goal with
      | |- task_state (logger _ _ (set_last_error _ (set_tracking _ _ ?x))) = _ =>
          change (task_state x = task_state m)
      end.
      match goal with
      | |- task_state {| _running := _running ?x |} = _ =>
          change (task_state x = task_state m)
      end.
      rewrite update_claude_config_task_state, update_env_file_task_state.
      task_state_eq.
    + cbn [snd]. destruct (is_invalid_grant msg); task_state_eq.
  - task_state_eq.
Qed.

Lemma check_running e m :
  _running (snd (_check_and_refresh_tokens e m)) = _running m.
Proof. pose proof (check_task_state e m) as H. unfold task_state in H. congruence. Qed.

Lemma check_live_loops e m :
  live_loops (snd (_check_and_refresh_tokens e m)) = live_loops m.
Proof. pose proof (check_task_state e m) as H. unfold task_state in H. congruence. Qed.

Lemma background_loop_task_state cycles e :
  forall m, task_state (_background_loop cycles e m) = task_state m.
Proof.
  induction cycles as [|n IH]; intros m; [done|]. cbn [_background_loop].
  destruct (_running m) eqn:Hr; [|done].
  rewrite IH. unfold wait_for_next_check.
  set (m1 := snd (_check_and_refresh_tokens e m)).
  destruct (_running m1); [change (task_state m1 = task_state m)|];
    apply check_task_state.
Qed.

Definition already_running (m : manager) : manager :=
  logger Warning "AutoTokenManager is already running" m.

(** C8: after [start] the manager is running, and a further [start] then,
    or after any number of turns of the background loop, only logs the
    warning: it creates no task and leaves the loops alive as they are.
    Started twice from rest, the manager has exactly one background loop. *)
Theorem start_is_idempotent (e : env) (m : manager) :
  let m1 := start e m in
  _running m1 = true
  /\ start e m1 = already_running m1
  /\ (forall cycles,
        let m2 := _background_loop cycles e m1 in
        start e m2 = already_running m2
        /\ live_loops (start e m2) = live_loops m1
        /\ tasks_created (start e m2) = tasks_created m1)
  /\ (_running m = false ->
      live_loops m1 = tasks_created m :: live_loops m
      /\ tasks_created m1 = S (tasks_created m))
  /\ (_running m = false -> live_loops m = [] ->
      length (live_loops (start e m1)) = 1%nat).
Proof.
  intros m1.
  assert (Hrun : _running m1 = true).
  { subst m1. unfold start. destruct (_running m) eqn:Hr; [done|].
    cbn. by rewrite check_running. }
  assert (Hagain : forall m', _running m' = true -> start e m' = already_running m').
  { intros m' Hm'. unfold start. by rewrite Hm'. }
  assert (Hfresh : _running m = false ->
                   live_loops m1 = tasks_created m :: live_loops m
                   /\ tasks_created m1 = S (tasks_created m)).
  { intros Hr. subst m1. unfold start. rewrite Hr. cbn [logger live_loops tasks_created].
    pose proof (check_task_state e
      (set_task true (Some (tasks_created m)) (tasks_created m :: live_loops m)
         (S (tasks_created m)) m)) as H.
    unfold task_state in H. cbn in H. split; congruence. }
  split; [done|]. split; [by apply Hagain|]. split; [|split; [done|]].
  - intros cycles m2.
    pose proof (background_loop_task_state cycles e m1) as H.
    unfold task_state in H. fold m2 in H.
    rewrite Hagain by congruence. cbn. repeat split; congruence.
  - intros Hr Hnone. rewrite Hagain by done. cbn.
    destruct (Hfresh Hr) as [-> _]. by rewrite Hnone.
Qed.

(** The held tokens are due for a refresh at the next read of the clock. *)
Definition refresh_due (e : env) (m : manager) (t : YahooTokens) : Prop :=
  tokens m = Some t
  /\ expires_at t - clock e (clock_reads m) <= Clock.minutes (refresh_buffer_minutes m).

Lemma update_env_file_refresh_calls e t m :
  refresh_calls (_update_env_file e t m) = refresh_calls m.
Proof. unfold _update_env_file, now. by destruct (env_file_writable e). Qed.

Lemma update_claude_config_refresh_calls e t m :
  refresh_calls (_update_claude_config e t m) = refresh_calls m.
Proof.
  unfold _update_claude_config.
  destruct (claude_config m) as [[cfg|]|]; try done.
  by destruct (claude_config_writable e).
Qed.

(** Whenever tokens are held and due, a check calls the refresh endpoint,
    whatever the Auth State and the last error are: the check has no gate
    on them. *)
Lemma due_refresh_is_attempted e m t :
  refresh_due e m t ->
  refresh_calls (snd (_check_and_refresh_tokens e m)) = S (refresh_calls m).
Proof.
  intros [Ht Hdue]. unfold _check_and_refresh_tokens. cbv zeta.
  rewrite Ht. unfold _load_tokens. rewrite Ht. rewrite Ht.
  unfold _should_refresh_token, now. cbv zeta.
  replace (_ <=? _) with true by (symmetry; apply Z.leb_le; exact Hdue).
  unfold refresh_tokens. cbv zeta.
  cbn [refresh_calls logger count_refresh_call].
  destruct (refresh_endpoint e (refresh_calls m)) as [new_tokens|msg].
  - unfold now. cbn [snd].
    match goal with
    | |- refresh_calls (logger _ _ (set_last_error _ (set_tracking _ _ ?x))) = _ =>
        change (refresh_calls x = S (refresh_calls m))
    end.
    match goal with
    | |- refresh_calls {| _running := _running ?x |} = _ =>
        change (refresh_calls x = S (refresh_calls m))
    end.
    by rewrite update_claude_config_refresh_calls, update_env_file_refresh_calls.
  - cbn [snd]. by destruct (is_invalid_grant msg).
Qed.

Definition manual_auth_required : string :=
  "Refresh token expired - manual auth required".

(** C1, as the code has it: when the refresh of held, due tokens fails with
    [invalid_grant], the check answers false, the Auth State is
    REFRESH_FAILED, [last_error] asks for manual authentication and the
    tokens are kept; but the manager does not stop there: with the same
    tokens still held, the next check calls the refresh endpoint again. *)
Theorem revoked_grant_is_reported_not_gated e m t msg :
  refresh_due e m t ->
  refresh_endpoint e (refresh_calls m) = RefreshError msg ->
  is_invalid_grant msg = true ->
  let checked := _check_and_refresh_tokens e m in
  let m' := snd checked in
  fst checked = false
  /\ auth_state m' = REFRESH_FAILED
  /\ last_error m' = Some manual_auth_required
  /\ tokens m' = Some t
  /\ refresh_count m' = refresh_count m
  /\ refresh_calls m' = S (refresh_calls m)
  /\ (clock e (clock_reads m) <= clock e (clock_reads m') ->
      refresh_due e m' t
      /\ refresh_calls (snd (_check_and_refresh_tokens e m')) = S (S (refresh_calls m))).
Proof.
  intros [Ht Hdue] Hend Hgrant checked m'.
  assert (Hchecked :
    checked
    = (false,
       set_last_error (Some manual_auth_required)
         (logger Warning "Refresh token expired - manual re-authentication required"
            (set_last_error (Some ("Refresh failed: " +:+ msg))
               (logger Error "Failed to refresh tokens"
                  (set_tokens (Some t) REFRESH_FAILED
                     (count_refresh_call
                        (logger Info "Token needs refresh - refreshing automatically"
                           (snd (now e m)))))))))).
  { subst checked. unfold _check_and_refresh_tokens. cbv zeta.
    rewrite Ht. unfold _load_tokens. rewrite Ht. rewrite Ht.
    unfold _should_refresh_token. cbv zeta. unfold now at 1. cbv zeta.
    replace (_ <=? _) with true by (symmetry; apply Z.leb_le; exact Hdue).
    unfold refresh_tokens. cbv zeta.
    cbn [refresh_calls logger count_refresh_call now snd].
    rewrite Hend, Hgrant. cbn [tokens]. by rewrite Ht. }
  subst m'. rewrite Hchecked. cbn [fst snd].
  repeat (split; [reflexivity|]).
  intros Hclock.
  assert (Hdue' : refresh_due e
    (set_last_error (Some manual_auth_required)
       (logger Warning "Refresh token expired - manual re-authentication required"
          (set_last_error (Some ("Refresh failed: " +:+ msg))
             (logger Error "Failed to refresh tokens"
                (set_tokens (Some t) REFRESH_FAILED
                   (count_refresh_call
                      (logger Info "Token needs refresh - refreshing automatically"
                         (snd (now e m))))))))) t).
  { split; [reflexivity|]. cbn in Hclock |- *. lia. }
  split; [exact Hdue'|].
  by rewrite (due_refresh_is_attempted e _ t Hdue').
Qed.

(** *** Further facts about the token manager *)

(** The pace of the background loop: the interval and the seconds slept. *)
Definition pace (m : manager) : Z * Z :=
  (check_interval_seconds m, seconds_slept m).

Lemma load_tokens_from_env_pace e m : pace (_load_tokens_from_env e m) = pace m.
Proof. unfold _load_tokens_from_env, now. keep_task_state. Qed.

Lemma load_tokens_pace e m : pace (_load_tokens e m) = pace m.
Proof. unfold _load_tokens, now. keep_task_state. Qed.

Lemma update_env_file_pace e t m : pace (_update_env_file e t m) = pace m.
Proof. unfold _update_env_file, now. keep_task_state. Qed.

Lemma update_claude_config_pace e t m : pace (_update_claude_config e t m) = pace m.
Proof. unfold _update_claude_config. keep_task_state. Qed.

Lemma load_tokens_from_env_refresh_calls e m :
  refresh_calls (_load_tokens_from_env e m) = refresh_calls m.
Proof. unfold _load_tokens_from_env, now. keep_task_state. Qed.

Lemma load_tokens_refresh_calls e m :
  refresh_calls (_load_tokens e m) = refresh_calls m.
Proof. unfold _load_tokens, now. keep_task_state. Qed.

Ltac pace_eq :=
  unfold pace in *; cbn in *;
  repeat match goal with
         | H : (_, _) = (_, _) |- _ => injection H as ? ?
         end;
  congruence.

(** A check neither sleeps nor changes the interval. *)
Lemma check_pace e m : pace (snd (_check_and_refresh_tokens e m)) = pace m.
Proof.
  unfold _check_and_refresh_tokens. cbv zeta.
  set (m1 := match tokens m with None => _ | Some _ => m end).
  assert (H1 : pace m1 = pace m).
  { subst m1. destruct (tokens m); [done | apply load_tokens_from_env_pace]. }
  pose proof (load_tokens_pace e m1) as H2.
  destruct (tokens (_load_tokens e m1)) as [held|]; [|pace_eq].
  unfold _should_refresh_token, now. cbv zeta.
  destruct (_ <=? _).
  - unfold refresh_tokens. cbv zeta.
    destruct (refresh_endpoint e _) as [new_tokens|msg].
    + unfold now. cbn [snd].
      match goal with
      | |- pace (logger _ _ (set_last_error _ (set_tracking _ _ ?x))) = _ =>
          change (pace x = pace m)
      end.
      match goal with
      | |- pace {| _running := _running ?x |} = _ =>
          change (pace x = pace m)
      end.
      rewrite update_claude_config_pace, update_env_file_pace.
      pace_eq.
    + cbn [snd]. destruct (is_invalid_grant msg); pace_eq.
  - pace_eq.
Qed.

(** A check calls the refresh endpoint at most once. *)
Lemma check_refresh_calls e m :
  (refresh_calls m <= refresh_calls (snd (_check_and_refresh_tokens e m))
   <= S (refresh_calls m))%nat.
Proof.
  unfold _check_and_refresh_tokens. cbv zeta.
  set (m1 := match tokens m with None => _ | Some _ => m end).
  assert (H1 : refresh_calls m1 = refresh_calls m).
  { subst m1. destruct (tokens m); [done | apply load_tokens_from_env_refresh_calls]. }
  pose proof (load_tokens_refresh_calls e m1) as H2.
  destruct (tokens (_load_tokens e m1)) as [held|]; [|cbn; lia].
  unfold _should_refresh_token, now. cbv zeta.
  destruct (_ <=? _).
  - unfold refresh_tokens. cbv zeta.
    destruct (refresh_endpoint e _) as [new_tokens|msg].
    + unfold now. cbn [snd].
      match goal with
      | |- (_ <= refresh_calls (logger _ _ (set_last_error _ (set_tracking _ _ ?x)))
            <= _)%nat =>
          change (refresh_calls m <= refresh_calls x <= S (refresh_calls m))%nat
      end.
      match goal with
      | |- (_ <= refresh_calls {| _running := _running ?x |} <= _)%nat =>
          change (refresh_calls m <= refresh_calls x <= S (refresh_calls m))%nat
      end.
      rewrite update_claude_config_refresh_calls, update_env_file_refresh_calls.
      cbn. lia.
    + cbn [snd]. destruct (is_invalid_grant msg); cbn; lia.
  - cbn. lia.
Qed.

(** The value of a check of held tokens that are not due. *)
Lemma check_not_due e m t :
  tokens m = Some t ->
  Clock.minutes (refresh_buffer_minutes m) < expires_at t - clock e (clock_reads m) ->
  _check_and_refresh_tokens e m
  = (true, logger Debug "Token is valid" (snd (now e (snd (now e m))))).
Proof.
  intros Ht Hfresh. unfold _check_and_refresh_tokens. cbv zeta.
  rewrite Ht. unfold _load_tokens. rewrite Ht. rewrite Ht.
  unfold _should_refresh_token. cbv zeta. unfold now at 1. cbv zeta.
  replace (_ <=? _) with false by (symmetry; apply Z.leb_gt; exact Hfresh).
  reflexivity.
Qed.

(** With tokens held, a check calls the refresh endpoint exactly when the
    time left to the expiry is at most the buffer, the boundary included,
    and then calls it once; otherwise it does not call it. *)
Theorem refresh_is_attempted_exactly_when_due e m t :
  tokens m = Some t ->
  let left := expires_at t - clock e (clock_reads m) in
  let after := snd (_check_and_refresh_tokens e m) in
  (left <= Clock.minutes (refresh_buffer_minutes m) ->
   refresh_calls after = S (refresh_calls m))
  /\ (Clock.minutes (refresh_buffer_minutes m) < left ->
      refresh_calls after = refresh_calls m)
  /\ (refresh_calls after = S (refresh_calls m)
      <-> left <= Clock.minutes (refresh_buffer_minutes m)).
Proof.
  intros Ht left after.
  assert (Hdue : left <= Clock.minutes (refresh_buffer_minutes m) ->
                 refresh_calls after = S (refresh_calls m)).
  { intros H. apply (due_refresh_is_attempted e m t). by split. }
  assert (Hnot : Clock.minutes (refresh_buffer_minutes m) < left ->
                 refresh_calls after = refresh_calls m).
  { intros H. subst after. by rewrite (check_not_due e m t Ht H). }
  split; [done|]. split; [done|]. split; [|done].
  intros Hcalls.
  destruct (Z.le_gt_cases left (Clock.minutes (refresh_buffer_minutes m)))
    as [Hle|Hgt]; [done|].
  rewrite (Hnot Hgt) in Hcalls. lia.
Qed.

(** [force_refresh] does not refresh tokens that are not due: it is the
    same check, so with more than the buffer left it answers true, calls
    no endpoint, and keeps the tokens, the refresh count and the time of
    the last refresh. *)
Theorem force_refresh_respects_the_buffer e m t :
  tokens m = Some t ->
  Clock.minutes (refresh_buffer_minutes m) < expires_at t - clock e (clock_reads m) ->
  let forced := force_refresh e m in
  fst forced = true
  /\ refresh_calls (snd forced) = refresh_calls m
  /\ tokens (snd forced) = Some t
  /\ refresh_count (snd forced) = refresh_count m
  /\ last_refresh_time (snd forced) = last_refresh_time m
  /\ os_environ (snd forced) = os_environ m.
Proof.
  intros Ht Hfresh forced. subst forced. unfold force_refresh.
  rewrite (check_not_due e (logger Info "Forcing token refresh" m) t); [|done|done].
  cbn. by repeat split.
Qed.

(** The value of a check whose refresh is granted. *)
Lemma check_granted e m t new_tokens :
  refresh_due e m t ->
  refresh_endpoint e (refresh_calls m) = Refreshed new_tokens ->
  let m7 :=
    _update_claude_config e new_tokens
      (_update_env_file e new_tokens
         (set_tokens (Some new_tokens) AUTHENTICATED
            (count_refresh_call
               (logger Info "Token needs refresh - refreshing automatically"
                  (snd (now e m)))))) in
  _check_and_refresh_tokens e m
  = (true,
     logger Info "Tokens refreshed successfully"
       (set_last_error None
          (set_tracking (Some (fst (now e m7))) (refresh_count (snd (now e m7)) + 1)
             (snd (now e m7))))).
Proof.
  intros [Ht Hdue] Hend. cbv zeta. unfold _check_and_refresh_tokens. cbv zeta.
  rewrite Ht. unfold _load_tokens. rewrite Ht. rewrite Ht.
  unfold _should_refresh_token. cbv zeta. unfold now at 1. cbv zeta.
  replace (_ <=? _) with true by (symmetry; apply Z.leb_le; exact Hdue).
  unfold refresh_tokens. cbv zeta.
  cbn [refresh_calls logger count_refresh_call now snd].
  rewrite Hend. reflexivity.
Qed.

Lemma update_claude_config_held e t m :
  (tokens (_update_claude_config e t m), auth_state (_update_claude_config e t m),
   refresh_count (_update_claude_config e t m))
  = (tokens m, auth_state m, refresh_count m)
  /\ os_environ (_update_claude_config e t m) = os_environ m.
Proof.
  unfold _update_claude_config.
  destruct (claude_config m) as [[cfg|]|]; try done.
  by destruct (claude_config_writable e).
Qed.

Lemma update_env_file_held e t m :
  (tokens (_update_env_file e t m), auth_state (_update_env_file e t m),
   refresh_count (_update_env_file e t m))
  = (tokens m, auth_state m, refresh_count m).
Proof. unfold _update_env_file, now. by destruct (env_file_writable e). Qed.

(** A granted refresh is a success whether or not the [.env] file and the
    launcher's config can be written: the check answers true, the new
    tokens are held, the count of refreshes goes up by one, the time of
    the refresh is a reading of the clock and the last error is cleared.
    A writable [.env] file carries the new tokens to the environment; an
    unwritable one leaves the environment as it was. *)
Theorem granted_refresh_is_recorded e m t new_tokens :
  refresh_due e m t ->
  refresh_endpoint e (refresh_calls m) = Refreshed new_tokens ->
  let checked := _check_and_refresh_tokens e m in
  let m' := snd checked in
  fst checked = true
  /\ tokens m' = Some new_tokens
  /\ auth_state m' = AUTHENTICATED
  /\ refresh_count m' = refresh_count m + 1
  /\ last_error m' = None
  /\ (exists n, last_refresh_time m' = Some (clock e n))
  /\ refresh_calls m' = S (refresh_calls m)
  /\ (env_file_writable e = true ->
      os_environ m' !! "YAHOO_ACCESS_TOKEN" = Some (access_token new_tokens)
      /\ os_environ m' !! "YAHOO_REFRESH_TOKEN" = Some (refresh_token new_tokens))
  /\ (env_file_writable e = false -> os_environ m' = os_environ m).
Proof.
  intros Hdue Hend checked m'. subst m' checked.
  pose proof (due_refresh_is_attempted e m t Hdue) as Hcalls.
  rewrite (check_granted e m t new_tokens Hdue Hend) in *. cbv zeta in *.
  set (m5 := set_tokens (Some new_tokens) AUTHENTICATED
               (count_refresh_call
                  (logger Info "Token needs refresh - refreshing automatically"
                     (snd (now e m))))) in *.
  destruct (update_claude_config_held e new_tokens (_update_env_file e new_tokens m5))
    as [Hc Hcenv].
  pose proof (update_env_file_held e new_tokens m5) as He.
  cbn [fst snd].
  unfold now in *.
  cbn [fst snd logger set_last_error set_tracking tokens auth_state refresh_count
         last_error last_refresh_time refresh_calls os_environ] in *.
  injection Hc as Hc1 Hc2 Hc3. injection He as He1 He2 He3.
  split; [done|]. split; [congruence|]. split; [congruence|].
  split; [rewrite Hc3, He3; reflexivity|]. split; [done|].
  split; [eauto|]. split; [done|].
  rewrite Hcenv. unfold _update_env_file, now. split; intros Hw; rewrite Hw.
  - cbn [os_environ logger set_files].
    rewrite lookup_insert_ne by done. rewrite lookup_insert_ne by done.
    rewrite lookup_insert_eq. rewrite lookup_insert_ne by done.
    by rewrite lookup_insert_eq.
  - reflexivity.
Qed.

(** Updating the launcher's config never creates the file or the server's
    entry, leaves the environment alone and, where the entry is there,
    changes nothing but the access and the refresh token: no other key,
    and no token time, is written. *)
Theorem config_update_touches_two_keys e t m :
  let m' := _update_claude_config e t m in
  os_environ m' = os_environ m
  /\ match claude_config m with
     | Some (Some server_env) =>
         exists server_env',
           claude_config m' = Some (Some server_env')
           /\ (forall k, k <> "YAHOO_ACCESS_TOKEN" -> k <> "YAHOO_REFRESH_TOKEN" ->
                         server_env' !! k = server_env !! k)
           /\ (claude_config_writable e = true ->
               server_env' !! "YAHOO_ACCESS_TOKEN" = Some (access_token t)
               /\ server_env' !! "YAHOO_REFRESH_TOKEN" = Some (refresh_token t))
           /\ (claude_config_writable e = false -> server_env' = server_env)
     | absent => claude_config m' = absent
     end.
Proof.
  cbv zeta. split; [apply update_claude_config_held|].
  unfold _update_claude_config.
  destruct (claude_config m) as [[server_env|]|] eqn:Hcfg; [|done|done].
  destruct (claude_config_writable e).
  - eexists. split; [reflexivity|]. split; [|split; [|done]].
    + intros k Ha Hr. by rewrite !lookup_insert_ne.
    + intros _. split.
      * rewrite lookup_insert_ne by done. by rewrite lookup_insert_eq.
      * by rewrite lookup_insert_eq.
  - exists server_env. cbn. rewrite Hcfg. split; [done|]. split; [done|].
    split; [done|done].
Qed.

(** With no tokens in memory, none to be had from the environment (the
    access or the refresh token unset or empty) and none in storage, a
    check answers false with [last_error] "No tokens found"; it reads no
    clock and calls no endpoint. *)
Theorem no_tokens_is_reported e m :
  tokens m = None ->
  getenv_truthy m "YAHOO_ACCESS_TOKEN" = None
  \/ getenv_truthy m "YAHOO_REFRESH_TOKEN" = None ->
  stored_tokens m = None ->
  let checked := _check_and_refresh_tokens e m in
  fst checked = false
  /\ last_error (snd checked) = Some "No tokens found"
  /\ tokens (snd checked) = None
  /\ refresh_calls (snd checked) = refresh_calls m
  /\ clock_reads (snd checked) = clock_reads m
  /\ refresh_count (snd checked) = refresh_count m.
Proof.
  intros Ht Henv Hstored. cbv zeta.
  assert (Hload : _load_tokens_from_env e m = m).
  { unfold _load_tokens_from_env.
    destruct Henv as [-> | Hr]; [done|]. rewrite Hr.
    by destruct (getenv_truthy m "YAHOO_ACCESS_TOKEN"). }
  unfold _check_and_refresh_tokens. cbv zeta.
  rewrite Ht, Hload. unfold _load_tokens. rewrite Ht, Hstored.
  cbn. by repeat split.
Qed.

(** [stop] ends the service: the manager is not running afterwards, the
    loop of the task it held is gone from the live loops, a second [stop]
    changes nothing, and the background loop, once stopped, takes no
    further turn, so it checks and refreshes nothing any more. *)
Theorem stop_ends_the_service (m : manager) :
  let m' := stop m in
  _running m' = false
  /\ stop m' = m'
  /\ (forall cycles e, _background_loop cycles e m' = m')
  /\ (forall task, _running m = true -> _background_task m = Some task ->
                   task ∉ live_loops m')
  /\ tokens m' = tokens m
  /\ refresh_calls m' = refresh_calls m.
Proof.
  cbv zeta.
  assert (Hr : _running (stop m) = false).
  { unfold stop. by destruct (_running m) eqn:Hrun. }
  split; [done|]. split; [unfold stop at 1; by rewrite Hr|].
  split; [intros [|n] e; [done | cbn [_background_loop]; by rewrite Hr]|].
  split.
  - intros task Hrun Htask. unfold stop. rewrite Hrun, Htask. cbn.
    intros Hin. apply list_elem_of_In, List.filter_In in Hin as [_ Hne].
    by rewrite Nat.eqb_refl in Hne.
  - unfold stop. by destruct (_running m).
Qed.

Lemma filter_fresh (task : nat) (live : list nat) :
  task ∉ live -> List.filter (fun t => negb (t =? task)%nat) live = live.
Proof.
  induction live as [|t live IH]; [done|]. intros Hnot. cbn.
  destruct (Nat.eqb_spec t task) as [->|Hne]; [set_solver|].
  cbn. f_equal. apply IH. set_solver.
Qed.

(** Started from rest and then stopped, the manager is at rest again and
    the loops alive are those that were alive before: the one [start]
    created is gone. *)
Theorem start_then_stop_leaves_no_loop e m :
  _running m = false ->
  tasks_created m ∉ live_loops m ->
  let m' := stop (start e m) in
  _running m' = false
  /\ live_loops m' = live_loops m
  /\ tasks_created m' = S (tasks_created m).
Proof.
  intros Hrest Hfresh. cbv zeta.
  pose proof (check_task_state e
    (set_task true (Some (tasks_created m)) (tasks_created m :: live_loops m)
       (S (tasks_created m)) m)) as H.
  unfold task_state in H. cbn in H. injection H as H1 H2 H3 H4.
  unfold stop, start. rewrite Hrest.
  cbn [_running logger _background_task live_loops tasks_created negb set_task].
  rewrite H4. cbn [negb]. cbn [_running logger _background_task live_loops tasks_created set_task].
  rewrite H3, H2, H1. cbn [List.filter]. rewrite Nat.eqb_refl. cbn [negb].
  by rewrite filter_fresh.
Qed.

(** While the manager is running, each turn of the background loop makes
    one check and then sleeps through the interval: after any number of
    turns the seconds slept are the turns times the interval, and the
    refresh endpoint has been called at most once per turn. *)
Theorem background_loop_paces_refreshes (cycles : nat) e :
  forall m,
    _running m = true ->
    let m' := _background_loop cycles e m in
    seconds_slept m'
    = seconds_slept m + Z.of_nat cycles * Z.max 0 (check_interval_seconds m)
    /\ check_interval_seconds m' = check_interval_seconds m
    /\ (refresh_calls m <= refresh_calls m' <= refresh_calls m + cycles)%nat.
Proof.
  induction cycles as [|n IH]; intros m Hrun; cbv zeta.
  - cbn. repeat split; lia.
  - cbn [_background_loop]. rewrite Hrun.
    set (m1 := snd (_check_and_refresh_tokens e m)).
    assert (Hrun1 : _running m1 = true) by (subst m1; by rewrite check_running).
    pose proof (check_pace e m) as Hpace. fold m1 in Hpace.
    unfold pace in Hpace. injection Hpace as Hint Hslept.
    pose proof (check_refresh_calls e m) as Hcalls. fold m1 in Hcalls.
    unfold wait_for_next_check. rewrite Hrun1.
    destruct (IH (add_sleep (Z.max 0 (check_interval_seconds m1)) m1) Hrun1)
      as (Hs & Hi & Hc).
    cbv zeta in Hs, Hi, Hc. rewrite Hs, Hi.
    cbn [seconds_slept check_interval_seconds refresh_calls add_sleep] in *.
    rewrite Hint in Hc. rewrite Hint, Hslept, Nat2Z.inj_succ, Z.mul_succ_l.
    revert Hc. generalize (Z.max 0 (check_interval_seconds m)). intros pause Hc.
    repeat split; lia.
Qed.

(** *** Worked runs *)

(** A clock that advances one second per read. *)
Definition ticking (n : nat) : Z := Clock.seconds (Z.of_nat n).

Definition revoked : string := "invalid_grant: refresh token revoked".

(** An endpoint that refuses every refresh: the grant is revoked. *)
Definition revoked_env : env :=
  {| clock := ticking;
     refresh_endpoint := fun _ => RefreshError revoked;
     parse_timestamp := fun _ => None;
     show_timestamp := fun t => pretty t;
     env_file_writable := true;
     claude_config_writable := true |}.

(** Tokens that expire five minutes after the clock's origin, held by a
    manager with the default buffer of ten minutes. *)
Definition expiring_tokens : YahooTokens :=
  {| access_token := "access-1"; refresh_token := "refresh-1";
     token_type := "Bearer"; expires_at := Clock.minutes 5; scope := "fspt-r" |}.

Definition holding_manager : manager :=
  set_tokens (Some expiring_tokens) AUTHENTICATED
    (new_manager 10 300 ∅ None None).

Lemma revoked_grant_witness :
  let checked := _check_and_refresh_tokens revoked_env holding_manager in
  let m' := snd checked in
  fst checked = false
  /\ auth_state m' = REFRESH_FAILED
  /\ last_error m' = Some manual_auth_required
  /\ tokens m' = Some expiring_tokens
  /\ refresh_count m' = refresh_count holding_manager
  /\ refresh_calls m' = S (refresh_calls holding_manager)
  /\ (clock revoked_env (clock_reads holding_manager)
      <= clock revoked_env (clock_reads m') ->
      refresh_due revoked_env m' expiring_tokens
      /\ refresh_calls (snd (_check_and_refresh_tokens revoked_env m'))
         = S (S (refresh_calls holding_manager))).
Proof.
  apply (revoked_grant_is_reported_not_gated revoked_env holding_manager
           expiring_tokens revoked).
  - split; [reflexivity|]. vm_compute. discriminate.
  - reflexivity.
  - reflexivity.
Defined.

(** The claim of C1 has no refresh attempted after the grant is found
    revoked.  Here the manager is started (its first check meets the
    revoked grant) and its background loop then takes one scheduled turn,
    with the same tokens held and nothing replaced from outside: the
    endpoint is called a second time. *)
Lemma revoked_grant_is_retried :
  let m1 := start revoked_env holding_manager in
  let m2 := _background_loop 1 revoked_env m1 in
  auth_state m1 = REFRESH_FAILED
  /\ last_error m1 = Some manual_auth_required
  /\ refresh_calls m1 = 1%nat
  /\ tokens m2 = tokens m1
  /\ stored_tokens m2 = stored_tokens m1
  /\ auth_state m2 = REFRESH_FAILED
  /\ refresh_calls m2 = 2%nat.
Proof. cbv zeta. repeat apply conj; vm_compute; reflexivity. Qed.

Lemma start_twice_witness :
  length (live_loops (start revoked_env (start revoked_env holding_manager))) = 1%nat.
Proof.
  destruct (start_is_idempotent revoked_env holding_manager)
    as (_ & _ & _ & _ & Hone).
  exact (Hone eq_refl eq_refl).
Defined.

(** A refresh that succeeds: the tokens are replaced, the environment and
    the tracking fields updated. *)
Definition fresh_tokens : YahooTokens :=
  {| access_token := "access-2"; refresh_token := "refresh-2";
     token_type := "Bearer"; expires_at := Clock.hours 2; scope := "fspt-r" |}.

Definition granting_env : env :=
  {| clock := ticking;
     refresh_endpoint := fun _ => Refreshed fresh_tokens;
     parse_timestamp := fun _ => None;
     show_timestamp := fun t => pretty t;
     env_file_writable := true;
     claude_config_writable := true |}.

Example refresh_replaces_tokens :
  let checked := _check_and_refresh_tokens granting_env holding_manager in
  fst checked = true
  /\ tokens (snd checked) = Some fresh_tokens
  /\ auth_state (snd checked) = AUTHENTICATED
  /\ refresh_count (snd checked) = 1
  /\ last_error (snd checked) = None
  /\ os_environ (snd checked) !! "YAHOO_ACCESS_TOKEN" = Some "access-2"
  /\ refresh_calls (snd (_check_and_refresh_tokens granting_env (snd checked)))
     = 1%nat.
Proof. cbv zeta. repeat apply conj; vm_compute; reflexivity. Qed.

(** *** Worked runs of the further facts *)

Lemma refresh_when_due_witness :
  let left :=
    expires_at expiring_tokens - clock revoked_env (clock_reads holding_manager) in
  let after := snd (_check_and_refresh_tokens revoked_env holding_manager) in
  (left <= Clock.minutes (refresh_buffer_minutes holding_manager) ->
   refresh_calls after = S (refresh_calls holding_manager))
  /\ (Clock.minutes (refresh_buffer_minutes holding_manager) < left ->
      refresh_calls after = refresh_calls holding_manager)
  /\ (refresh_calls after = S (refresh_calls holding_manager)
      <-> left <= Clock.minutes (refresh_buffer_minutes holding_manager)).
Proof.
  apply (refresh_is_attempted_exactly_when_due revoked_env holding_manager
           expiring_tokens).
  reflexivity.
Defined.

(** A manager holding tokens with two hours left. *)
Definition rested_manager : manager :=
  set_tokens (Some fresh_tokens) AUTHENTICATED (new_manager 10 300 ∅ None None).

Lemma force_refresh_witness :
  let forced := force_refresh granting_env rested_manager in
  fst forced = true
  /\ refresh_calls (snd forced) = refresh_calls rested_manager
  /\ tokens (snd forced) = Some fresh_tokens
  /\ refresh_count (snd forced) = refresh_count rested_manager
  /\ last_refresh_time (snd forced) = last_refresh_time rested_manager
  /\ os_environ (snd forced) = os_environ rested_manager.
Proof.
  apply (force_refresh_respects_the_buffer granting_env rested_manager fresh_tokens).
  - reflexivity.
  - reflexivity.
Defined.

Lemma granted_refresh_witness :
  let checked := _check_and_refresh_tokens granting_env holding_manager in
  let m' := snd checked in
  fst checked = true
  /\ tokens m' = Some fresh_tokens
  /\ auth_state m' = AUTHENTICATED
  /\ refresh_count m' = refresh_count holding_manager + 1
  /\ last_error m' = None
  /\ (exists n, last_refresh_time m' = Some (clock granting_env n))
  /\ refresh_calls m' = S (refresh_calls holding_manager)
  /\ (env_file_writable granting_env = true ->
      os_environ m' !! "YAHOO_ACCESS_TOKEN" = Some (access_token fresh_tokens)
      /\ os_environ m' !! "YAHOO_REFRESH_TOKEN" = Some (refresh_token fresh_tokens))
  /\ (env_file_writable granting_env = false ->
      os_environ m' = os_environ holding_manager).
Proof.
  apply (granted_refresh_is_recorded granting_env holding_manager expiring_tokens
           fresh_tokens).
  - split; [reflexivity|]. vm_compute. discriminate.
  - reflexivity.
Defined.

Lemma no_tokens_witness :
  let checked :=
    _check_and_refresh_tokens revoked_env (new_manager 10 300 ∅ None None) in
  fst checked = false
  /\ last_error (snd checked) = Some "No tokens found"
  /\ tokens (snd checked) = None
  /\ refresh_calls (snd checked) = refresh_calls (new_manager 10 300 ∅ None None)
  /\ clock_reads (snd checked) = clock_reads (new_manager 10 300 ∅ None None)
  /\ refresh_count (snd checked) = refresh_count (new_manager 10 300 ∅ None None).
Proof.
  apply (no_tokens_is_reported revoked_env (new_manager 10 300 ∅ None None)).
  - reflexivity.
  - left. reflexivity.
  - reflexivity.
Defined.

Lemma start_then_stop_witness :
  let m' := stop (start revoked_env holding_manager) in
  _running m' = false
  /\ live_loops m' = live_loops holding_manager
  /\ tasks_created m' = S (tasks_created holding_manager).
Proof.
  apply (start_then_stop_leaves_no_loop revoked_env holding_manager).
  - reflexivity.
  - cbn. set_solver.
Defined.

Lemma background_loop_witness :
  let m := start revoked_env holding_manager in
  let m' := _background_loop 2 revoked_env m in
  seconds_slept m'
  = seconds_slept m + Z.of_nat 2 * Z.max 0 (check_interval_seconds m)
  /\ check_interval_seconds m' = check_interval_seconds m
  /\ (refresh_calls m <= refresh_calls m' <= refresh_calls m + 2)%nat.
Proof.
  apply (background_loop_paces_refreshes 2 revoked_env
           (start revoked_env holding_manager)).
  reflexivity.
Defined.

End TokenManager.
